(** * Electric_simulation: the grid graph, energization and sqrt(n) sensors

    A shallow embedding of [src/core/grid_builder.py],
    [src/core/power_flow.py] and [src/core/sensors.py], and of the loop of
    [src/core/geojson_loader.py] that files the features for the builder.

    Conventions of the embedding:
    - Python [int] is [Z]; list positions are [nat].
    - Python [float] is [spec_float] (binary64, [prec = 53], [emax = 1024]).
    - A [dict] whose iteration order is never observed is a [gmap]; the
      [networkx] graph keeps its insertion order and is an association list.
    - The [line_info] dicts are shared between [line_list] and [line_data]:
      they live in a store of objects and both containers hold references. *)

From Stdlib Require Import ZArith List Bool Ascii String SpecFloat Lia.
From stdpp Require Import base tactics option list gmap strings pretty relations.

Local Open Scope Z_scope.

(** ** Python floats *)

Module PyFloat.

Definition prec : Z := 53.
Definition emax : Z := 1024.

Definition float := spec_float.

(** [float(z)] for a Python integer [z]. *)
Definition of_Z (z : Z) : float := binary_normalize prec emax z 0 false.

(** The value of the decimal literal [m / 10^k], correctly rounded: what
    [float("ddd.ddd")] returns for a string of [k] fractional digits whose
    digits read [m] as one integer. *)
Definition of_decimal (m : N) (k : nat) : float :=
  match m with
  | N0 => S754_zero false
  | Npos p =>
      SFdiv prec emax (S754_finite false p 0)
                      (S754_finite false (Z.to_pos (10 ^ Z.of_nat k)) 0)
  end.

Definition div (x y : float) : float := SFdiv prec emax x y.
Definition sqrt (x : float) : float := SFsqrt prec emax x.
Definition mul (x y : float) : float := SFmul prec emax x y.
Definition add (x y : float) : float := SFadd prec emax x y.
Definition sub (x y : float) : float := SFsub prec emax x y.

(** [int(x)] for a finite [x]: the integer part, towards zero. *)
Definition to_int (x : float) : Z :=
  match x with
  | S754_finite s m e =>
      let a := match e with
               | Zneg p => Z.pos m / 2 ^ Z.pos p
               | _ => Z.pos m * 2 ^ e
               end in
      if s then - a else a
  | _ => 0
  end.

(** [x > y], [x < y]: false as soon as a NaN is involved. *)
Definition gtb (x y : float) : bool := SFltb y x.
Definition ltb (x y : float) : bool := SFltb x y.
Definition leb (x y : float) : bool := SFleb x y.

End PyFloat.

Abbreviation float := PyFloat.float.

Arguments PyFloat.of_Z : simpl never.
Arguments PyFloat.of_decimal : simpl never.
Arguments PyFloat.div : simpl never.
Arguments PyFloat.mul : simpl never.
Arguments PyFloat.add : simpl never.
Arguments PyFloat.sub : simpl never.
Arguments PyFloat.gtb : simpl never.
Arguments PyFloat.ltb : simpl never.
Arguments PyFloat.leb : simpl never.
Arguments PyFloat.to_int : simpl never.

(** ** Python exceptions

    A computation that can raise is a value of [py A]; [try ... except]
    is a [match] on it. *)

Inductive exn := IndexError | KeyError | ValueError | TypeError | NetworkXError.

Inductive py (A : Type) : Type :=
  | Ret (a : A)
  | Raise (e : exn).
Arguments Ret {A} a.
Arguments Raise {A} e.

#[global] Instance py_ret : MRet py := λ A a, Ret a.
#[global] Instance py_bind : MBind py := λ A B f m,
  match m with Ret a => f a | Raise e => Raise e end.

(** [l[i]] for a Python integer [i]: a negative index counts from the end,
    an index outside the list raises [IndexError]. *)
Definition getitem {A} (l : list A) (i : Z) : py A :=
  let n := Z.of_nat (length l) in
  let j := if i <? 0 then n + i else i in
  if (0 <=? j) && (j <? n)
  then match l !! Z.to_nat j with Some a => Ret a | None => Raise IndexError end
  else Raise IndexError.

(** ** Python strings

    A [str] is a [string] whose characters are the code points below 256. *)

Module PyStr.

Definition chars (s : string) : list ascii := list_ascii_of_string s.
Definition code (c : ascii) : N := N_of_ascii c.

(** [c.isspace()]. *)
Definition is_space (c : ascii) : bool :=
  let n := code c in
  ((9 <=? n) && (n <=? 13) || (28 <=? n) && (n <=? 32)
   || (n =? 133) || (n =? 160))%N.

(** [c.isdigit()]: the ten decimal digits, and the superscripts one,
    two and three. *)
Definition is_digit (c : ascii) : bool :=
  let n := code c in
  ((48 <=? n) && (n <=? 57) || (n =? 178) || (n =? 179) || (n =? 185))%N.

(** The decimal digits [float] reads. *)
Definition is_decimal (c : ascii) : bool :=
  let n := code c in ((48 <=? n) && (n <=? 57))%N.

(** [s.split(sep)] for a separator of one character. *)
Fixpoint split_on (sep : ascii) (cur : list ascii) (s : list ascii)
  : list (list ascii) :=
  match s with
  | [] => [cur]
  | c :: s' =>
      if bool_decide (c = sep) then cur :: split_on sep [] s'
      else split_on sep (cur ++ [c]) s'
  end.

Definition split (sep : ascii) (s : list ascii) : list (list ascii) :=
  split_on sep [] s.

Fixpoint lstrip (s : list ascii) : list ascii :=
  match s with
  | c :: s' => if is_space c then lstrip s' else s
  | [] => []
  end.

(** [s.strip()]. *)
Definition strip (s : list ascii) : list ascii :=
  reverse (lstrip (reverse (lstrip s))).

(** [s.replace(c, '')]. *)
Definition remove_char (c : ascii) (s : list ascii) : list ascii :=
  filter (λ x, x ≠ c) s.

(** [s.isdigit()]. *)
Definition isdigit (s : list ascii) : bool :=
  match s with
  | [] => false
  | _ => forallb is_digit s
  end.

(** The state of reading a number: the digits read so far as one
    integer, how many of them came after the point, and whether the
    point was met. *)
Record Reading := mkReading { mant : N; frac : nat; dot : bool }.

Fixpoint read_digits (st : Reading) (s : list ascii) : py Reading :=
  match s with
  | [] => Ret st
  | c :: s' =>
      if is_decimal c then
        read_digits (mkReading (10 * mant st + (code c - 48))%N
                               (if dot st then S (frac st) else frac st)
                               (dot st)) s'
      else if bool_decide (c = "."%char) && negb (dot st) then
        read_digits (mkReading (mant st) (frac st) true) s'
      else Raise ValueError
  end.

(** [float(s)] for a stripped [s] made of [isdigit] characters and
    points (what passes the filter of [parse_voltage_kv]): the literal
    must hold decimal digits only, at most one point, and at least one
    digit; [float('')] and [float('.')] raise [ValueError]. *)
Definition to_float (s : list ascii) : py float :=
  st ← read_digits (mkReading 0 0 false) s;
  if existsb is_decimal s then Ret (PyFloat.of_decimal (mant st) (frac st))
  else Raise ValueError.

End PyStr.

(** ** The networkx graph

    [nx.Graph] keeps [_adj], a dict from node to the dict of its neighbours;
    both dicts iterate in insertion order, which the traversals observe. *)

Abbreviation Graph := (list (Z * list Z)).

Module Nx.

(** [G.nodes()], in insertion order. *)
Definition nodes (G : Graph) : list Z := G.*1.

Definition has_node (G : Graph) (u : Z) : bool := bool_decide (u ∈ nodes G).

(** [G.adj[u]]; the callers below only ask for nodes of [G]. *)
Fixpoint neighbors (G : Graph) (u : Z) : list Z :=
  match G with
  | [] => []
  | (n, nbrs) :: G' => if bool_decide (n = u) then nbrs else neighbors G' u
  end.

(** [G.add_node(u)]: nothing happens when [u] is already a node. *)
Definition add_node (G : Graph) (u : Z) : Graph :=
  if has_node G u then G else G ++ [(u, [])].

Definition add_nodes_from (G : Graph) (us : list Z) : Graph :=
  foldl add_node G us.

(** [_adj[u][v] = ...]: a new neighbour is appended, a known one keeps
    its place. *)
Definition link (G : Graph) (u v : Z) : Graph :=
  (λ '(n, nbrs),
     (n, if bool_decide (n = u) && negb (bool_decide (v ∈ nbrs))
         then nbrs ++ [v] else nbrs)) <$> G.

(** [G.add_edge(u, v)]. *)
Definition add_edge (G : Graph) (u v : Z) : Graph :=
  link (link (add_node (add_node G u) v) u v) v u.

(** [G.remove_nodes_from(rm)]: the nodes go, and with them every edge
    that touches one of them. *)
Definition remove_nodes_from (G : Graph) (rm : list Z) : Graph :=
  (λ '(n, nbrs), (n, filter (λ v, v ∉ rm) nbrs))
    <$> filter (λ '(n, _), n ∉ rm) G.

Definition unlink (G : Graph) (u v : Z) : Graph :=
  (λ '(n, nbrs),
     (n, if bool_decide (n = u) then filter (λ w, w ≠ v) nbrs else nbrs)) <$> G.

(** [G.remove_edge(u, v)] for an edge of [G]. *)
Definition remove_edge (G : Graph) (u v : Z) : Graph :=
  unlink (unlink G u v) v u.

(** [G.number_of_nodes()]. *)
Definition number_of_nodes (G : Graph) : nat := length G.

(** [G.number_of_edges()]: half the sum of the degrees, a self-loop
    counting twice in the degree of its node. *)
Definition degree (e : Z * list Z) : nat :=
  length e.2 + (if bool_decide (e.1 ∈ e.2) then 1 else 0)%nat.

Definition number_of_edges (G : Graph) : nat :=
  (foldr (λ e acc, degree e + acc) 0 G / 2)%nat.

(** [G.edges()]: every node in order, every neighbour in order, an edge
    being reported from the endpoint met first. *)
Fixpoint edges_from (G : Graph) (seen : list Z) : list (Z * Z) :=
  match G with
  | [] => []
  | (n, nbrs) :: G' =>
      ((λ v, (n, v)) <$> filter (λ v, v ∉ seen) nbrs) ++ edges_from G' (seen ++ [n])
  end.

Definition edges (G : Graph) : list (Z * Z) := edges_from G [].

End Nx.

(** ** The grid *)

(** One [line_info] dict of [build_grid_from_geojson]. *)
Record Line := mkLine {
  idx : Z;
  from_bus : Z;
  to_bus : Z;
  voltage_kv : float;
  name : string;
  power_type : string;
  length_km : float;
  in_service : bool;
}.

Definition set_in_service (b : bool) (l : Line) : Line :=
  mkLine (idx l) (from_bus l) (to_bus l) (voltage_kv l) (name l)
         (power_type l) (length_km l) b.

Definition set_idx (i : Z) (l : Line) : Line :=
  mkLine i (from_bus l) (to_bus l) (voltage_kv l) (name l)
         (power_type l) (length_km l) (in_service l).

(** A reference to a [line_info] dict: its allocation number. *)
Definition ref := nat.

(** The dataclass [GridNetwork].  [line_obj] is the store of the line dicts;
    [line_list] and [line_data] hold references into it, so that a write
    through one container is seen through the other, as in Python. *)
Record GridNetwork := mkGrid {
  G : Graph;
  bus_geo : gmap Z (float * float);
  bus_voltage : gmap Z float;
  line_obj : ref → Line;
  line_data : gmap (Z * Z) ref;
  line_list : list ref;
  ext_grid_bus : Z;
}.

(** [obj[r] := l] in the store. *)
Definition store_set (h : ref → Line) (r : ref) (l : Line) : ref → Line :=
  λ r', if bool_decide (r' = r) then l else h r'.

Definition with_line_obj (g : GridNetwork) (h : ref → Line) : GridNetwork :=
  mkGrid (G g) (bus_geo g) (bus_voltage g) h (line_data g) (line_list g)
         (ext_grid_bus g).

Definition with_G (g : GridNetwork) (G' : Graph) : GridNetwork :=
  mkGrid G' (bus_geo g) (bus_voltage g) (line_obj g) (line_data g) (line_list g)
         (ext_grid_bus g).

(** The records of [line_list], read through the store. *)
Definition lines (g : GridNetwork) : list Line := line_obj g <$> line_list g.

Definition num_buses (g : GridNetwork) : nat := Nx.number_of_nodes (G g).
Definition num_lines (g : GridNetwork) : nat := Nx.number_of_edges (G g).

(** [0 <= i < len(l)] for a Python integer [i]. *)
Definition in_range {A} (i : Z) (l : list A) : bool :=
  (0 <=? i) && (i <? Z.of_nat (length l)).

(** [GridNetwork.set_line_in_service]. *)
Definition set_line_in_service (g : GridNetwork) (line_idx : Z) (b : bool)
  : py GridNetwork :=
  if in_range line_idx (line_list g) then
    r ← getitem (line_list g) line_idx;
    Ret (with_line_obj g (store_set (line_obj g) r (set_in_service b (line_obj g r))))
  else Ret g.

(** The body of the loop of [get_active_graph]. *)
Definition add_live (active : Graph) (l : Line) : Graph :=
  if in_service l then Nx.add_edge active (from_bus l) (to_bus l) else active.

(** [GridNetwork.get_active_graph]. *)
Definition get_active_graph (g : GridNetwork) : Graph :=
  foldl add_live (Nx.add_nodes_from [] (Nx.nodes (G g))) (lines g).

(** ** Traversals of networkx *)

Module Traversal.

(** Depth-first visit from [u]: [u] is marked and reported, then each
    neighbour is looked at in adjacency order and visited if it is still
    unmarked at that moment.  This is the order in which
    [nx.dfs_preorder_nodes] reports the nodes.  [visited] is the list of
    the nodes reported so far; [fuel] bounds the depth of the visit. *)
Fixpoint dfs_visit (fuel : nat) (G : Graph) (u : Z) (visited : list Z)
  : list Z :=
  match fuel with
  | O => visited
  | S fuel' =>
      if bool_decide (u ∈ visited) then visited
      else foldl (λ vis c, dfs_visit fuel' G c vis) (visited ++ [u])
                 (Nx.neighbors G u)
  end.

(** The nodes met from [s], in the order of the visit.  No visit is
    deeper than the number of nodes. *)
Definition visit_order (G : Graph) (s : Z) : list Z :=
  dfs_visit (length G) G s [].

(** [list(nx.dfs_preorder_nodes(G, source=s))]; networkx raises when [s]
    is not a node: the [KeyError] of the adjacency lookup, or another
    exception in a version that checks the source first. *)
Definition dfs_preorder_nodes (G : Graph) (s : Z) : py (list Z) :=
  if Nx.has_node G s then Ret (visit_order G s) else Raise KeyError.

(** [nx.descendants(G, s)]: the set of the nodes reachable from [s], [s]
    left out.  networkx searches breadth first; the set does not depend
    on the order of the search. *)
Definition descendants (G : Graph) (s : Z) : py (gset Z) :=
  if Nx.has_node G s
  then Ret (list_to_set (visit_order G s) ∖ {[s]})
  else Raise NetworkXError.

(** The component of [v], as [_plain_bfs] collects it. *)
Definition node_component (G : Graph) (v : Z) : gset Z :=
  list_to_set (visit_order G v).

(** [list(nx.connected_components(G))]: the component of every node not
    seen so far, in node order. *)
Fixpoint components_from (G : Graph) (vs : list Z) (seen : gset Z)
  : list (gset Z) :=
  match vs with
  | [] => []
  | v :: vs' =>
      if bool_decide (v ∈ seen) then components_from G vs' seen
      else let c := node_component G v in
           c :: components_from G vs' (seen ∪ c)
  end.

Definition connected_components (G : Graph) : list (gset Z) :=
  components_from G (Nx.nodes G) ∅.

(** [nx.is_connected(G)] for a graph with at least one node: the search
    from the first node meets as many nodes as the graph has. *)
Definition is_connected (G : Graph) : bool :=
  match Nx.nodes G with
  | [] => false
  | v :: _ => bool_decide (size (node_component G v) = length G)
  end.

(** An edge is a bridge when its two ends fall apart once it is removed. *)
Definition is_bridge (G : Graph) (e : Z * Z) : bool :=
  bool_decide (e.2 ∉ node_component (Nx.remove_edge G e.1 e.2) e.1).

(** [list(nx.bridges(G))]: the edges of [G.edges()], in that order, that
    lie on no cycle. *)
Definition bridges (G : Graph) : list (Z * Z) :=
  filter (λ e, is_bridge G e) (Nx.edges G).

End Traversal.

(** [max(xs, key=len)] on a list of sets: the first of the largest. *)
Fixpoint max_by_size (best : gset Z) (xs : list (gset Z)) : gset Z :=
  match xs with
  | [] => best
  | x :: xs' => max_by_size (if bool_decide (size best < size x)%nat then x else best) xs'
  end.

(** [max(list(nx.connected_components(G)), key=len)]. *)
Definition largest_component (G : Graph) : gset Z :=
  match Traversal.connected_components G with
  | [] => ∅
  | c :: cs => max_by_size c cs
  end.

(** ** sensors.py *)

(** [math.ceil(math.sqrt(n))].  The square root of Python is the binary64
    one; it is exact on perfect squares and stays strictly between two
    consecutive integers otherwise as long as [n < 2^52], so that the
    ceiling is the integer one for every graph that fits in memory. *)
Definition ceil_sqrt (n : nat) : nat :=
  let r := Nat.sqrt n in if (r * r =? n)%nat then r else S r.

(** [range(0, n, k)] for [k > 0]; [fuel] bounds the number of steps. *)
Fixpoint range_step (fuel : nat) (i n k : nat) : list nat :=
  match fuel with
  | O => []
  | S fuel' => if (i <? n)%nat then i :: range_step fuel' (i + k) n k else []
  end.

(** [l[i:j]] for [0 <= i <= j]. *)
Definition slice {A} (l : list A) (i j : nat) : list A := take (j - i) (drop i l).

(** [place_sensors_sqrt_n]. *)
Definition place_sensors_sqrt_n (g : GridNetwork) : py (list Z * list (list Z)) :=
  if ext_grid_bus g <? 0 then Ret ([], [])
  else
    ordering ← Traversal.dfs_preorder_nodes (G g) (ext_grid_bus g);
    let n := length ordering in
    if (n =? 0)%nat then Ret ([], [])
    else
      let k := ceil_sqrt n in
      let blocks := (λ i, slice ordering i (i + k)) <$> range_step n 0 n k in
      sensors ← mapM (λ block : list Z, getitem block (-1)) blocks;
      Ret (sensors, blocks).

(** [read_sensors]. *)
Definition read_sensors (sensors : list Z) (energized_status : gmap Z Z)
  : gmap Z Z :=
  list_to_map ((λ s, (s, default 0 (energized_status !! s))) <$> sensors).

(** The loop of [identify_faulty_block], at position [i] of the list. *)
Fixpoint first_dead (readings : gmap Z Z) (i : nat) (sensors : list Z) : Z :=
  match sensors with
  | [] => -1
  | s :: sensors' =>
      if bool_decide (default 1 (readings !! s) = 0) then Z.of_nat i
      else first_dead readings (S i) sensors'
  end.

(** [identify_faulty_block]. *)
Definition identify_faulty_block (sensor_readings : gmap Z Z)
    (sensors : list Z) (blocks : list (list Z)) : Z :=
  first_dead sensor_readings 0 sensors.

(** ** power_flow.py *)

(** The [fault_info] dict of [trigger_fault]. *)
Record FaultInfo := mkFaultInfo {
  fi_line_idx : Z;
  fi_from_bus : Z;
  fi_to_bus : Z;
  fi_line_name : string;
  fi_voltage_kv : float;
}.

(** What a fault operation hands back.  The two error cases both return
    the empty dict [{}]; they differ by the line printed before. *)
Inductive FaultOutcome :=
  | IndexOutOfRange (line_idx : Z)
      (* prints "ERROR: Line index {line_idx} out of range!", returns {} *)
  | NoInServiceLines
      (* prints "ERROR: No in-service lines to fault!", returns {} *)
  | Faulted (info : FaultInfo).

(** [energize_grid]. *)
Definition energize_grid (g : GridNetwork) : GridNetwork :=
  with_line_obj g
    (foldl (λ h r, store_set h r (set_in_service true (h r)))
           (line_obj g) (line_list g)).

(** [trigger_fault]. *)
Definition trigger_fault (g : GridNetwork) (line_idx : Z)
  : py (GridNetwork * FaultOutcome) :=
  if (line_idx <? 0) || (Z.of_nat (length (line_list g)) <=? line_idx)
  then Ret (g, IndexOutOfRange line_idx)
  else
    r ← getitem (line_list g) line_idx;
    let g' := with_line_obj g
                (store_set (line_obj g) r (set_in_service false (line_obj g r))) in
    let line := line_obj g' r in
    Ret (g', Faulted (mkFaultInfo line_idx (from_bus line) (to_bus line)
                                  (name line) (voltage_kv line))).

(** [reachable = set(nx.descendants(G, start)) | {start}]. *)
Definition reachable_from (G : Graph) (start : Z) : py (gset Z) :=
  d ← Traversal.descendants G start; Ret (d ∪ {[start]}).

(** [get_energized_status]. *)
Definition get_energized_status (g : GridNetwork) : gmap Z Z :=
  let active_graph := get_active_graph g in
  let start_bus := ext_grid_bus g in
  if (start_bus <? 0) || negb (Nx.has_node active_graph start_bus)
  then list_to_map ((λ b, (b, 0)) <$> Nx.nodes (G g))
  else
    let reachable := match reachable_from active_graph start_bus with
                     | Ret r => r
                     | Raise _ => ∅
                     end in
    list_to_map ((λ bus, (bus, if bool_decide (bus ∈ reachable) then 1 else 0))
                   <$> Nx.nodes (G g)).

(** [get_dead_buses]. *)
Definition get_dead_buses (status : gmap Z Z) : gset Z :=
  dom (filter (λ kv, kv.2 = 0) status).

(** The test of the two loops of [find_bridge_fault] that look a bridge up
    in [line_list]. *)
Definition joins (u v : Z) (l : Line) : bool :=
  (bool_decide (from_bus l = u) && bool_decide (to_bus l = v))
  || (bool_decide (from_bus l = v) && bool_decide (to_bus l = u)).

(** The position of the first record that joins [u] and [v]. *)
Fixpoint find_line (u v : Z) (i : nat) (ls : list Line) : option nat :=
  match ls with
  | [] => None
  | l :: ls' => if joins u v l then Some i else find_line u v (S i) ls'
  end.

Section Random.

(** The global generator of numpy: its state, [np.random.seed(seed)],
    [np.random.choice(a)] for a list [a], and
    [np.random.choice(n, k, replace=False)]. *)
Variable Rng : Type.
Variable np_seed : Z → Rng.
Variable np_choice : Rng → list Z → Z * Rng.
Variable np_choice_distinct : Rng → nat → nat → list nat * Rng.

Definition reseed (seed : option Z) (rng : Rng) : Rng :=
  match seed with Some s => np_seed s | None => rng end.

(** [[i for i, l in enumerate(ls) if l['in_service']]], counting from [i]. *)
Fixpoint in_service_indices (i : nat) (ls : list Line) : list Z :=
  match ls with
  | [] => []
  | l :: ls' =>
      if in_service l then Z.of_nat i :: in_service_indices (S i) ls'
      else in_service_indices (S i) ls'
  end.

(** [trigger_random_fault]. *)
Definition trigger_random_fault (g : GridNetwork) (seed : option Z) (rng : Rng)
  : py (GridNetwork * FaultOutcome * Rng) :=
  let in_service := in_service_indices 0 (lines g) in
  match in_service with
  | [] => Ret (g, NoInServiceLines, rng)
  | _ =>
      let '(line_idx, rng') := np_choice (reseed seed rng) in_service in
      '(g', out) ← trigger_fault g line_idx;
      Ret (g', out, rng')
  end.

(** [target_count = int(grid.num_buses * 0.10)]. *)
Definition target_count (g : GridNetwork) : Z :=
  PyFloat.to_int (PyFloat.mul (PyFloat.of_Z (Z.of_nat (num_buses g)))
                              (PyFloat.of_decimal 1 1)).

(** The body of the [try]: how many buses the source no longer reaches
    in [G']; [0] when the search raises. *)
Definition disconnected_count (g : GridNetwork) (G' : Graph) : Z :=
  match reachable_from G' (ext_grid_bus g) with
  | Ret reachable => Z.of_nat (Nx.number_of_nodes G') - Z.of_nat (size reachable)
  | Raise _ => 0
  end.

(** The state of the scan over the sampled bridges. *)
Record Scan := mkScan {
  scan_G : Graph;
  best_fault_idx : Z;
  best_disconnect_count : Z;
}.

(** One turn of the outer loop, for the bridge [(u, v)]. *)
Definition scan_bridge (g : GridNetwork) (target : Z) (st : Scan) (e : Z * Z)
  : Scan :=
  let '(u, v) := e in
  match find_line u v 0 (lines g) with
  | None => st
  | Some i =>
      let G1 := Nx.remove_edge (scan_G st) u v in
      let disconnected := disconnected_count g G1 in
      let G2 := Nx.add_edge G1 u v in
      if Z.abs (disconnected - target) <? Z.abs (best_disconnect_count st - target)
      then mkScan G2 (Z.of_nat i) disconnected
      else mkScan G2 (best_fault_idx st) (best_disconnect_count st)
  end.

(** [sample_bridges]. *)
Definition sample_bridges (bridges : list (Z * Z)) (rng : Rng)
  : py (list (Z * Z) * Rng) :=
  if (50 <? length bridges)%nat then
    let '(indices, rng') := np_choice_distinct rng (length bridges) 50 in
    sample ← mapM (λ i : nat, getitem bridges (Z.of_nat i)) indices;
    Ret (sample, rng')
  else Ret (bridges, rng).

(** [find_bridge_fault]. *)
Definition find_bridge_fault (g : GridNetwork) (seed : option Z) (rng : Rng)
  : py (GridNetwork * FaultOutcome * Rng) :=
  let bridges := Traversal.bridges (G g) in
  match bridges with
  | [] => trigger_random_fault g seed rng
  | (u0, v0) :: _ =>
      let rng1 := reseed seed rng in
      let target_count := target_count g in
      '(sample, rng2) ← sample_bridges bridges rng1;
      let st := foldl (scan_bridge g target_count)
                      (mkScan (G g) (-1) 0) sample in
      let g1 := with_G g (scan_G st) in
      if 0 <=? best_fault_idx st then
        '(g2, out) ← trigger_fault g1 (best_fault_idx st);
        Ret (g2, out, rng2)
      else
        match find_line u0 v0 0 (lines g1) with
        | Some i =>
            '(g2, out) ← trigger_fault g1 (Z.of_nat i);
            Ret (g2, out, rng2)
        | None => trigger_random_fault g1 seed rng2
        end
  end.

End Random.

(** ** grid_builder.py: voltages *)

(** [max(values)] for a list that starts with [best]: a later value wins
    only when it is strictly greater. *)
Definition py_max (best : float) (values : list float) : float :=
  foldl (λ best v, if PyFloat.gtb v best then v else best) best values.

(** The list comprehension of [parse_voltage_kv]: the tokens that pass the
    digit filter, each converted by [float]; the first conversion that
    fails raises [ValueError]. *)
Definition voltage_token_ok (p : list ascii) : bool :=
  PyStr.isdigit (PyStr.remove_char "."%char (PyStr.strip p)).

Definition voltage_values (parts : list (list ascii)) : py (list float) :=
  mapM (λ p, PyStr.to_float (PyStr.strip p)) (filter (λ p, voltage_token_ok p) parts).

Definition default_kv : float := PyFloat.of_Z 11.

(** The body of the [try] of [parse_voltage_kv]. *)
Definition parse_voltage_try (cs : list ascii) : py float :=
  let parts := PyStr.split ";"%char cs in
  values ← voltage_values parts;
  match values with
  | [] => Ret default_kv
  | v :: values' =>
      let max_v := py_max v values' in
      if PyFloat.gtb max_v (PyFloat.of_Z 1000)
      then Ret (PyFloat.div max_v (PyFloat.of_Z 1000))
      else Ret (if PyFloat.gtb max_v (PyFloat.of_Z 0) then max_v else default_kv)
  end.

(** [parse_voltage_kv]. *)
Definition parse_voltage_kv (voltage_str : string) : py float :=
  match PyStr.chars voltage_str with
  | [] => Ret default_kv
  | cs =>
      match parse_voltage_try cs with
      | Ret kv => Ret kv
      | Raise ValueError | Raise TypeError => Ret default_kv
      | Raise e => Raise e
      end
  end.

(** Voltage parsing as the specification words it: the numeric tokens
    are those [float] reads, the others (the empty token among them) are
    ignored; the largest value is divided by 1000 when it exceeds 1000 and
    used as it is otherwise; 11.0 when there is no numeric token. *)
Definition spec_numeric_values (parts : list (list ascii)) : list float :=
  omap (λ p, match PyStr.to_float (PyStr.strip p) with
             | Ret v => Some v
             | Raise _ => None
             end) parts.

Definition spec_parse_voltage (raw : string) : float :=
  match spec_numeric_values (PyStr.split ";"%char (PyStr.chars raw)) with
  | [] => default_kv
  | v :: values =>
      let max_v := py_max v values in
      if PyFloat.gtb max_v (PyFloat.of_Z 1000)
      then PyFloat.div max_v (PyFloat.of_Z 1000)
      else max_v
  end.

(** ** grid_builder.py: the builder *)

(** A line feature, read as the builder reads it: [feat.get('id')],
    [properties.voltage], [properties.power], [geometry.coordinates]. *)
Record LineFeature := mkLineFeature {
  lf_id : option string;
  lf_voltage : option string;
  lf_power : option string;
  lf_coordinates : list (list float);
}.

(** The geometry of a substation feature: its [type] and [coordinates]
    ([None] when the key is absent). *)
Inductive Geometry :=
  | Point (coordinates : option (list float))
  | Polygon (coordinates : option (list (list (list float))))
  | OtherGeometry.

Record Substation := mkSubstation {
  ss_voltage : option string;
  ss_geometry : Geometry;
}.

(** The dict [classified_features], with the four keys the builder reads
    ([None] when a key is absent). *)
Record Classified := mkClassified {
  cf_lines : option (list LineFeature);
  cf_minor_lines : option (list LineFeature);
  cf_cables : option (list LineFeature);
  cf_substations : option (list Substation);
}.

(** [l[:n]] for a Python integer [n]. *)
Definition slice_to {A} (l : list A) (n : Z) : list A :=
  if n <? 0 then take (Z.to_nat (Z.of_nat (length l) + n)) l
  else take (Z.to_nat n) l.

(** [d[k]] on a dict. *)
Definition dict_get `{Countable K} {V} (d : gmap K V) (k : K) : py V :=
  match d !! k with Some v => Ret v | None => Raise KeyError end.

Definition empty_line : Line :=
  mkLine 0 0 0 (S754_zero false) "" "" (S754_zero false) false.

(** [GridNetwork()]. *)
Definition empty_grid : GridNetwork :=
  mkGrid [] ∅ ∅ (λ _, empty_line) ∅ [] (-1).

Section Builder.

(** What the builder takes from the runtime: the dict key
    [(round(lon, 4), round(lat, 4))] of a coordinate, the functions of
    [math], [x ** 2] on a sine, and the text an f-string writes for a
    float.  [math.sin], [math.cos] and [math.sqrt] raise [ValueError]
    outside their domain (an infinite angle, a negative radicand);
    [math.radians] and [math.atan2] return for every float. *)
Context {Key : Type} `{Countable Key}.
Variable round_key : float → float → Key.
Variable math_radians : float → float.
Variable math_sin math_cos math_sqrt : float → py float.
Variable math_atan2 : float → float → float.
Variable square : float → float.
Variable format_float : float → string.

(** [_haversine]; the calls that can raise are made in the order in
    which Python evaluates them. *)
Definition _haversine (lat1 lon1 lat2 lon2 : float) : py float :=
  let R := PyFloat.of_Z 6371 in
  let dlat := math_radians (PyFloat.sub lat2 lat1) in
  let dlon := math_radians (PyFloat.sub lon2 lon1) in
  let two := PyFloat.of_Z 2 in
  sin_dlat ← math_sin (PyFloat.div dlat two);
  cos_lat1 ← math_cos (math_radians lat1);
  cos_lat2 ← math_cos (math_radians lat2);
  sin_dlon ← math_sin (PyFloat.div dlon two);
  let a := PyFloat.add
             (square sin_dlat)
             (PyFloat.mul (PyFloat.mul cos_lat1 cos_lat2) (square sin_dlon)) in
  sqrt_a ← math_sqrt a;
  sqrt_1a ← math_sqrt (PyFloat.sub (PyFloat.of_Z 1) a);
  Ret (PyFloat.mul (PyFloat.mul R two) (math_atan2 sqrt_a sqrt_1a)).

(** [if length_km < 0.001: length_km = 0.01]. *)
Definition stored_length (length_km : float) : float :=
  if PyFloat.ltb length_km (PyFloat.of_decimal 1 3)
  then PyFloat.of_decimal 1 2 else length_km.

(** The local variables of [build_grid_from_geojson]. *)
Record Build := mkBuild {
  grid : GridNetwork;
  coord_to_bus : gmap Key Z;
  bus_counter : Z;
  line_idx : Z;
}.

(** The body of [for coord in coords], with [line_bus_ids] threaded. *)
Definition visit_coord (voltage_kv : float) (st : Build * list Z)
    (coord : list float) : Build * list Z :=
  let '(b, line_bus_ids) := st in
  match coord with
  | lon :: lat :: _ =>
      let key := round_key lon lat in
      match coord_to_bus b !! key with
      | Some bid => (b, line_bus_ids ++ [bid])
      | None =>
          let bid := bus_counter b in
          let g := grid b in
          let g' := mkGrid (Nx.add_node (G g) bid)
                           (<[bid := (lon, lat)]> (bus_geo g))
                           (<[bid := voltage_kv]> (bus_voltage g))
                           (line_obj g) (line_data g) (line_list g)
                           (ext_grid_bus g) in
          (mkBuild g' (<[key := bid]> (coord_to_bus b)) (bid + 1) (line_idx b),
           line_bus_ids ++ [bid])
      end
  | _ => st
  end.

(** The body of [for i in range(len(line_bus_ids) - 1)]. *)
Definition visit_segment (feat_id power_type : string) (voltage_kv : float)
    (line_bus_ids : list Z) (b : Build) (i : nat) : py Build :=
  fb ← getitem line_bus_ids (Z.of_nat i);
  tb ← getitem line_bus_ids (Z.of_nat i + 1);
  if bool_decide (fb = tb) then Ret b
  else
    let g := grid b in
    geo_fb ← dict_get (bus_geo g) fb;
    geo_tb ← dict_get (bus_geo g) tb;
    distance ← _haversine geo_fb.2 geo_fb.1 geo_tb.2 geo_tb.1;
    let length_km := stored_length distance in
    let line_info :=
      mkLine (line_idx b) fb tb voltage_kv
             ("L_" +:+ feat_id +:+ "_" +:+ pretty i +:+ "_"
                   +:+ format_float voltage_kv +:+ "kV")
             power_type length_km true in
    (* the new dict is the object number [len(line_list)] *)
    let r : ref := length (line_list g) in
    let g' := mkGrid (Nx.add_edge (G g) fb tb) (bus_geo g) (bus_voltage g)
                     (store_set (line_obj g) r line_info)
                     (<[(fb, tb) := r]> (line_data g))
                     (line_list g ++ [r])
                     (ext_grid_bus g) in
    Ret (mkBuild g' (coord_to_bus b) (bus_counter b) (line_idx b + 1)).

(** [for x in xs: st = f(st, x)] where the body can raise. *)
Fixpoint for_each {A S} (f : S → A → py S) (st : S) (xs : list A) : py S :=
  match xs with
  | [] => Ret st
  | x :: xs' => st' ← f st x; for_each f st' xs'
  end.

(** The body of [for feat_i, feat in enumerate(all_line_feats)]. *)
Definition visit_feature (b : Build) (item : nat * LineFeature) : py Build :=
  let '(feat_i, feat) := item in
  let coords := lf_coordinates feat in
  voltage_kv ← parse_voltage_kv (default "" (lf_voltage feat));
  let power_type := default "line" (lf_power feat) in
  let feat_id := default ("feat_" +:+ pretty feat_i) (lf_id feat) in
  if (length coords <? 2)%nat then Ret b
  else
    let '(b1, line_bus_ids) := foldl (visit_coord voltage_kv) (b, []) coords in
    for_each (visit_segment feat_id power_type voltage_kv line_bus_ids) b1
             (seq 0 (length line_bus_ids - 1)).

(** Step 2: what is left of the grid when only the buses of
    [largest_cc] stay. *)
Definition reindex (h : ref → Line) (refs : list ref) : ref → Line :=
  foldl (λ h '(i, r), store_set h r (set_idx (Z.of_nat i) (h r)))
        h (imap (λ i r, (i, r)) refs).

Definition keep_largest (g : GridNetwork) : GridNetwork :=
  let largest_cc := largest_component (G g) in
  let removed_buses : gset Z := list_to_set (Nx.nodes (G g)) ∖ largest_cc in
  let inside (l : Line) : bool :=
    bool_decide (from_bus l ∈ largest_cc) && bool_decide (to_bus l ∈ largest_cc) in
  let line_list' := filter (λ r, inside (line_obj g r)) (line_list g) in
  mkGrid (Nx.remove_nodes_from (G g) (elements removed_buses))
         (filter (λ kv, kv.1 ∉ removed_buses) (bus_geo g))
         (filter (λ kv, kv.1 ∉ removed_buses) (bus_voltage g))
         (reindex (line_obj g) line_list')
         (filter (λ kv, kv.1.1 ∈ largest_cc ∧ kv.1.2 ∈ largest_cc) (line_data g))
         line_list'
         (ext_grid_bus g).

(** The representative coordinate of a substation, [None] standing for
    [continue]. *)
Definition substation_coord (geom : Geometry) : py (option (float * float)) :=
  match geom with
  | Polygon coordinates =>
      ring ← getitem (default [[]] coordinates) 0;
      match ring with
      | [] => Ret None
      | _ =>
          c ← getitem ring 0;
          lon ← getitem c 0;
          lat ← getitem c 1;
          Ret (Some (lon, lat))
      end
  | Point coordinates =>
      let coords := default [] coordinates in
      if (2 <=? length coords)%nat then
        lon ← getitem coords 0;
        lat ← getitem coords 1;
        Ret (Some (lon, lat))
      else Ret None
  | OtherGeometry => Ret None
  end.

(** The body of the loop of [_find_best_source_bus]; the state is
    [(best_bus, best_voltage)]. *)
Definition visit_substation (g : GridNetwork) (c2b : gmap Key Z)
    (st : option Z * float) (feat : Substation) : py (option Z * float) :=
  voltage_kv ← parse_voltage_kv (default "" (ss_voltage feat));
  pos ← substation_coord (ss_geometry feat);
  match pos with
  | None => Ret st
  | Some (lon, lat) =>
      match c2b !! round_key lon lat with
      | Some bus_id =>
          if Nx.has_node (G g) bus_id && PyFloat.gtb voltage_kv st.2
          then Ret (Some bus_id, voltage_kv)
          else Ret st
      | None => Ret st
      end
  end.

(** [_find_best_source_bus]. *)
Definition _find_best_source_bus (g : GridNetwork)
    (substation_features : list Substation) (c2b : gmap Key Z) : py Z :=
  '(best_bus, _) ← for_each (visit_substation g c2b) (None, PyFloat.of_Z 0)
                            substation_features;
  match best_bus with
  | Some bus => Ret bus
  | None => getitem (Nx.nodes (G g)) 0
  end.

Definition with_ext_grid_bus (g : GridNetwork) (bus : Z) : GridNetwork :=
  mkGrid (G g) (bus_geo g) (bus_voltage g) (line_obj g) (line_data g)
         (line_list g) bus.

(** Step 1 of [build_grid_from_geojson]: the local variables after the
    loop over the line features, before any pruning. *)
Definition build_lines (classified_features : Classified) (max_lines : Z)
  : py Build :=
  let lines_feats := slice_to (default [] (cf_lines classified_features)) max_lines in
  let minor_feats := slice_to (default [] (cf_minor_lines classified_features)) 100 in
  let cable_feats := slice_to (default [] (cf_cables classified_features)) 100 in
  let all_line_feats := lines_feats ++ minor_feats ++ cable_feats in
  for_each visit_feature (mkBuild empty_grid ∅ 0 0)
           (imap (λ i f, (i, f)) all_line_feats).

(** [build_grid_from_geojson]. *)
Definition build_grid_from_geojson (classified_features : Classified)
    (max_lines : Z) : py GridNetwork :=
  let sub_feats := default [] (cf_substations classified_features) in
  b ← build_lines classified_features max_lines;
  if bus_counter b =? 0 then Ret (grid b)
  else
    let g := if Traversal.is_connected (G (grid b)) then grid b
             else keep_largest (grid b) in
    bus ← _find_best_source_bus g sub_feats (coord_to_bus b);
    Ret (with_ext_grid_bus g bus).

End Builder.

(** ** Small grids to run the model on *)

Module Demo.

Definition line (i : nat) (e : Z * Z) : Line :=
  mkLine (Z.of_nat i) e.1 e.2 (PyFloat.of_Z 11) "L" "line"
         (PyFloat.of_Z 1) true.

(** The grid with the given buses, one record per listed edge, every
    line in service. *)
Definition grid_of (buses : list Z) (edges : list (Z * Z)) (source : Z)
  : GridNetwork :=
  mkGrid (foldl (λ G e, Nx.add_edge G e.1 e.2) (Nx.add_nodes_from [] buses) edges)
         ∅ ∅
         (λ r, match edges !! r with Some e => line r e | None => empty_line end)
         ∅ (seq 0 (length edges)) source.

(** The path 0 - 1 - ... - (n-1), fed from bus 0. *)
Definition path (n : nat) : GridNetwork :=
  grid_of (Z.of_nat <$> seq 0 n)
          ((λ i, (Z.of_nat i, Z.of_nat (S i))) <$> seq 0 (n - 1)) 0.

(** The dict key of a coordinate, up to renaming: each of [round(lon, 4)]
    and [round(lat, 4)] is given by the integer nearest to ten thousand
    times the number, ties going to the even one. *)
Definition round4 (x : float) : Z :=
  match x with
  | S754_finite s m e =>
      let n := Z.pos m * 10000 in
      let k := match e with
               | Zneg p =>
                   let d := 2 ^ Z.pos p in
                   let q := n / d in
                   let r := n mod d in
                   if 2 * r <? d then q
                   else if d <? 2 * r then q + 1
                   else if Z.even q then q else q + 1
               | _ => n * 2 ^ e
               end in
      if s then - k else k
  | _ => 0
  end.

Definition round_key (lon lat : float) : Z * Z := (round4 lon, round4 lat).

(** Stand-ins for the functions of [math], good for the short segments
    along a meridian used below: a small angle is its own sine, the arc
    tangent of a small quotient is the quotient, and the cosines only
    weigh a difference of longitude that is zero; [math.sqrt] is the IEEE
    square root.  They raise where those of Python do: the sine and the
    cosine on an infinite angle, the square root below zero. *)
Definition pi : float := PyFloat.of_decimal 3141592653589793 15.
Definition radians (x : float) : float :=
  PyFloat.div (PyFloat.mul x pi) (PyFloat.of_Z 180).
Definition sin (x : float) : py float :=
  match x with S754_infinity _ => Raise ValueError | _ => Ret x end.
Definition cos (x : float) : py float :=
  match x with S754_infinity _ => Raise ValueError | _ => Ret (PyFloat.of_Z 1) end.
Definition sqrt (x : float) : py float :=
  if PyFloat.ltb x (PyFloat.of_Z 0) then Raise ValueError
  else Ret (PyFloat.sqrt x).
Definition atan2 (y x : float) : float := PyFloat.div y x.
Definition square (x : float) : float := PyFloat.mul x x.
Definition format_float (x : float) : string := pretty (PyFloat.to_int x) +:+ ".0".

(** [_haversine] and [build_grid_from_geojson] with these. *)
Definition haversine : float → float → float → float → py float :=
  _haversine radians sin cos sqrt atan2 square.

Definition build : Classified → Z → py GridNetwork :=
  build_grid_from_geojson round_key radians sin cos sqrt atan2 square
                          format_float.

(** A coordinate given in millionths of a degree. *)
Definition coord (lon lat : Z) : list float :=
  [PyFloat.div (PyFloat.of_Z lon) (PyFloat.of_Z 1000000);
   PyFloat.div (PyFloat.of_Z lat) (PyFloat.of_Z 1000000)].

(** One line feature through the given coordinates, and nothing else. *)
Definition one_line (coords : list (list float)) : Classified :=
  mkClassified (Some [mkLineFeature (Some "way/1") (Some "33000") None coords])
               None None None.

(** Two line features, [a] and [b], through the given coordinates. *)
Definition two_lines (a b : list (list float)) : Classified :=
  mkClassified (Some [mkLineFeature (Some "a") (Some "33000") None a;
                      mkLineFeature (Some "b") (Some "33000") None b])
               None None None.

(** A generator that always draws the first item, and the first [k]
    positions. *)
Definition np_seed (seed : Z) : unit := tt.
Definition np_choice (rng : unit) (a : list Z) : Z * unit := (default 0 (head a), tt).
Definition np_choice_distinct (rng : unit) (n k : nat) : list nat * unit :=
  (seq 0 k, tt).

(** [find_bridge_fault] with this generator. *)
Definition find_bridge_fault (g : GridNetwork) (seed : option Z)
  : py (GridNetwork * FaultOutcome * unit) :=
  find_bridge_fault unit np_seed np_choice np_choice_distinct g seed tt.

(** [g] with the record [r] out of service. *)
Definition cut (g : GridNetwork) (r : ref) : GridNetwork :=
  with_line_obj g (store_set (line_obj g) r (set_in_service false (line_obj g r))).

End Demo.


(** ** geojson_loader.py: the classification of the features *)

(** A feature of the GeoJSON file, as [load_overpass_geojson] reads it:
    [properties.power], [properties.type] ([None] when the key is
    absent), and the rest of the feature, which the loader only passes
    on. *)
Record Feature (A : Type) := mkFeature {
  ft_power : option string;
  ft_type : option string;
  ft_rest : A;
}.

Arguments mkFeature {A} _ _ _.
Arguments ft_power {A} _.
Arguments ft_type {A} _.
Arguments ft_rest {A} _.

(** The two dicts of the loader: the Overpass format files a feature by
    [properties.power], the IndiaTransmission format by
    [properties.type]. *)
Definition power_map : gmap string string :=
  list_to_map [("line", "lines"); ("minor_line", "minor_lines");
               ("cable", "cables"); ("substation", "substations");
               ("tower", "towers"); ("pole", "poles");
               ("transformer", "transformers")].

Definition type_map : gmap string string :=
  list_to_map [("Line", "lines"); ("Cable", "cables"); ("Tower", "towers");
               ("Substation_Icon", "substations");
               ("Substation_Area", "substations"); ("Switch", "others");
               ("Compensator", "others"); ("Transformer", "transformers");
               ("Converter", "others")].

(** The key under which a feature is filed. *)
Definition feature_key {A} (feat : Feature A) : string :=
  match power_map !! default "" (ft_power feat) with
  | Some key => key
  | None => default "others" (type_map !! default "" (ft_type feat))
  end.

(** [result], before the loop. *)
Definition empty_result {A} : gmap string (list (Feature A)) :=
  list_to_map [("lines", []); ("minor_lines", []); ("cables", []);
               ("substations", []); ("towers", []); ("poles", []);
               ("transformers", []); ("others", [])].

(** [result[key].append(feat)]. *)
Definition file_feature {A} (result : gmap string (list (Feature A)))
    (feat : Feature A) : py (gmap string (list (Feature A))) :=
  let key := feature_key feat in
  filed ← dict_get result key;
  Ret (<[key := filed ++ [feat]]> result).

(** [load_overpass_geojson], from what the file holds: [None] when the
    file does not exist, else the value of ['features'] in the parsed
    JSON ([None] when the key is absent). *)
Definition load_overpass_geojson {A} (file : option (option (list (Feature A))))
  : py (gmap string (list (Feature A))) :=
  match file with
  | None => Ret empty_result
  | Some features => for_each file_feature empty_result (default [] features)
  end.

(** * The vocabulary of the properties *)

(** Two records that differ at most by [in_service]. *)
Definition same_but_in_service (l l' : Line) : Prop :=
  idx l' = idx l ∧ from_bus l' = from_bus l ∧ to_bus l' = to_bus l
  ∧ voltage_kv l' = voltage_kv l ∧ name l' = name l
  ∧ power_type l' = power_type l ∧ length_km l' = length_km l.

(** Two grids that differ at most by the store of the line records. *)
Definition same_but_store (g g' : GridNetwork) : Prop :=
  G g' = G g ∧ bus_geo g' = bus_geo g ∧ bus_voltage g' = bus_voltage g
  ∧ line_data g' = line_data g ∧ line_list g' = line_list g
  ∧ ext_grid_bus g' = ext_grid_bus g.

(** [v] is a neighbour of [u]. *)
Definition adj (G : Graph) (u v : Z) : Prop := v ∈ Nx.neighbors G u.

(** Every neighbour is a node: true of every [nx.Graph]. *)
Definition adj_closed (G : Graph) : Prop :=
  ∀ u v, adj G u v → v ∈ Nx.nodes G.

(** What a visit may assume of the nodes marked so far, with [f] units of
    depth left. *)
Definition visit_pre (G : Graph) (f : nat) (vis : list Z) : Prop :=
  NoDup vis ∧ vis ⊆ Nx.nodes G ∧ (length (Nx.nodes G) ≤ f + length vis)%nat.

(** What the visits from [roots] add to the marked nodes [vis]: the new
    nodes [D] come after the old ones, all the roots are marked, every new
    node is reachable from a root, and no edge leaves a new node for an
    unmarked one. *)
Definition visit_post (G : Graph) (roots vis R : list Z) : Prop :=
  ∃ D, R = vis ++ D ∧ NoDup R ∧ R ⊆ Nx.nodes G
     ∧ (∀ c, c ∈ roots → c ∈ R)
     ∧ (∀ x, x ∈ D → ∃ c, c ∈ roots ∧ rtc (adj G) c x)
     ∧ (∀ x y, x ∈ D → adj G x y → y ∈ R).

(** [v] is the node that a depth-first visit reports next, once it has
    reported [pre], in this order, after the nodes of [vis] that were
    marked before it started: [v] is the first neighbour not yet marked,
    in adjacency order, of the last node of [pre] that still has one. *)
Definition next_in_visit (G : Graph) (vis pre : list Z) (v : Z) : Prop :=
  ∃ p1 u p2 l1 l2,
    pre = p1 ++ u :: p2
    ∧ Nx.neighbors G u = l1 ++ v :: l2
    ∧ v ∉ vis ++ pre
    ∧ (∀ w, w ∈ l1 → w ∈ vis ++ pre)
    ∧ (∀ x y, x ∈ p2 → adj G x y → y ∈ vis ++ pre).

(** [order] is the depth-first preorder of [G] from [s]: it starts with
    [s], each of its later nodes is the one that a depth-first search
    reports next, and it ends only when no reported node has a neighbour
    left. *)
Definition depth_first_preorder (G : Graph) (s : Z) (order : list Z) : Prop :=
  head order = Some s
  ∧ (∀ pre v post, order = pre ++ v :: post → pre ≠ [] →
                   next_in_visit G [] pre v)
  ∧ (∀ x y, x ∈ order → adj G x y → y ∈ order).

(** The nodes [D] that a visit adds to [vis] are reported depth first. *)
Definition reported_depth_first (G : Graph) (vis D : list Z) : Prop :=
  ∀ pre v post, D = pre ++ v :: post → pre ≠ [] → next_in_visit G vis pre v.

(** An in-service record joins [u] and [v], in one direction or the other. *)
Definition live (g : GridNetwork) (u v : Z) : Prop :=
  ∃ l, l ∈ lines g ∧ in_service l = true ∧ joins u v l = true.

(** [b] is reachable from the source through in-service lines. *)
Definition energized (g : GridNetwork) (b : Z) : Prop :=
  rtc (live g) (ext_grid_bus g) b.

(** The grids of the data model: bus ids are the non-negative numbers the
    builder hands out, and a line joins two buses of the grid. *)
Definition bus_ids_nonneg (g : GridNetwork) : Prop :=
  Forall (λ b, 0 ≤ b) (Nx.nodes (G g)).

Definition lines_on_buses (g : GridNetwork) : Prop :=
  Forall (λ l, from_bus l ∈ Nx.nodes (G g) ∧ to_bus l ∈ Nx.nodes (G g)) (lines g).

(** [ceil(n / k)] on integers. *)
Definition ceil_div (n k : nat) : nat := ((n + k - 1) / k)%nat.

(** The blocks cut from position [i] on. *)
Definition blocks_from (l : list Z) (fuel i k : nat) : list (list Z) :=
  (λ j, slice l j (j + k)) <$> range_step fuel i (length l) k.

(** Any two buses are joined by a chain of lines of the full graph. *)
Definition connected (G : Graph) : Prop :=
  ∀ u v, u ∈ Nx.nodes G → v ∈ Nx.nodes G → rtc (adj G) u v.

(** What holds of every [nx.Graph]: a node is listed once, every
    neighbour is a node, and adjacency goes both ways. *)
Definition nx_graph (G : Graph) : Prop :=
  NoDup (Nx.nodes G) ∧ adj_closed G ∧ (∀ u v, adj G u v → adj G v u).


(** Adjacency in the graph is exactly being joined by a line record. *)
Definition lines_match (g : GridNetwork) : Prop :=
  ∀ x y, adj (G g) x y ↔ ∃ l, l ∈ lines g ∧ joins x y l = true.

(** The grids the builder makes. *)
Record grid_ok (g : GridNetwork) : Prop := mk_grid_ok {
  ok_graph : nx_graph (G g);
  ok_ids : bus_ids_nonneg g;
  ok_refs : NoDup (line_list g);
  ok_idx : ∀ i r, line_list g !! i = Some r → idx (line_obj g r) = Z.of_nat i;
  ok_live : ∀ r, r ∈ line_list g → in_service (line_obj g r) = true;
  ok_lines : lines_match g;
}.

(** Two graphs with the same nodes, in the same order, and the same
    adjacency; the order of the neighbours may differ. *)
Definition same_graph (G1 G2 : Graph) : Prop :=
  Nx.nodes G1 = Nx.nodes G2 ∧ ∀ x y, adj G1 x y ↔ adj G2 x y.

(** How many buses the source no longer reaches once the edge [e] is
    removed from the full graph ([0] when the source is not a node). *)
Definition removal_count (g : GridNetwork) (e : Z * Z) : Z :=
  disconnected_count g (Nx.remove_edge (G g) e.1 e.2).

(** The sampled bridges that have a line record, each with the position
    of its first record and its removal count, in the order of the
    sample. *)
Definition candidates (g : GridNetwork) (sample : list (Z * Z)) : list (Z * Z) :=
  omap (λ e, match find_line e.1 e.2 0 (lines g) with
             | Some i => Some (Z.of_nat i, removal_count g e)
             | None => None
             end) sample.

(** The comparison of the scan: a candidate replaces the best so far only
    when it is strictly closer to the target. *)
Definition pick (target : Z) (best c : Z * Z) : Z * Z :=
  if Z.abs (c.2 - target) <? Z.abs (best.2 - target) then c else best.

(** The best line and its count, as the scan holds them. *)
Definition best_of (st : Scan) : Z * Z :=
  (best_fault_idx st, best_disconnect_count st).

(** What one sampled bridge adds to the candidates. *)
Definition candidate (g : GridNetwork) (e : Z * Z) : option (Z * Z) :=
  match find_line e.1 e.2 0 (lines g) with
  | Some i => Some (Z.of_nat i, removal_count g e)
  | None => None
  end.

(** The assumptions of C1 and C3 on a grid: its graph is an [nx.Graph],
    its bus ids are not negative, and its line records join buses. *)
Definition grid_wf (g : GridNetwork) : Prop :=
  nx_graph (G g) ∧ bus_ids_nonneg g ∧ lines_on_buses g.

(** Two grids whose line records have the same ends, position by
    position. *)
Definition same_ends (g g' : GridNetwork) : Prop :=
  line_list g' = line_list g
  ∧ ∀ r, from_bus (line_obj g' r) = from_bus (line_obj g r)
         ∧ to_bus (line_obj g' r) = to_bus (line_obj g r).

Section BuilderInvariants.

Context {Key : Type} `{Countable Key}.

(** The state of the first loop of the builder: the grid is sound, the
    line dicts are numbered in order of creation, the buses are
    [0 .. bus_counter - 1], and [coord_to_bus] points to buses. *)
Record build_inv (b : Build) : Prop := mk_build_inv {
  bi_ok : grid_ok (grid b);
  bi_refs : line_list (grid b) = seq 0 (length (line_list (grid b)));
  bi_nodes : Nx.nodes (G (grid b)) = Z.of_nat <$> seq 0 (Z.to_nat (bus_counter b));
  bi_counter : 0 ≤ bus_counter b;
  bi_line_idx : line_idx b = Z.of_nat (length (line_list (grid b)));
  bi_c2b : ∀ (k : Key) (v : Z),
      coord_to_bus b !! k = Some v → v ∈ Nx.nodes (G (grid b));
}.

(** The state of the loop over the coordinates of a feature: the builder
    state, and [line_bus_ids], which lists buses. *)
Definition coords_inv (st : Build * list Z) : Prop :=
  build_inv st.1 ∧ Forall (λ v, v ∈ Nx.nodes (G (grid st.1))) st.2.

End BuilderInvariants.

(** Every neighbour listed in the graph has a line record, and every line
    record joins two neighbours: [lines_match], in a form that can be run
    on a given grid. *)
Definition edges_have_lines (g : GridNetwork) : Prop :=
  Forall (λ e : Z * list Z,
            Forall (λ v, Exists (λ l, joins e.1 v l = true) (lines g)) e.2)
         (G g).

Definition lines_are_edges (g : GridNetwork) : Prop :=
  Forall (λ l, to_bus l ∈ Nx.neighbors (G g) (from_bus l)
               ∧ from_bus l ∈ Nx.neighbors (G g) (to_bus l)) (lines g).

(** No two line records join the same pair of buses. *)
Definition no_parallel_lines (g : GridNetwork) : Prop :=
  Forall (λ r1,
            Forall (λ r2,
                      joins (from_bus (line_obj g r1)) (to_bus (line_obj g r1))
                            (line_obj g r2) = true → r1 = r2)
                   (line_list g))
         (line_list g).

(** The tables of a grid agree with its graph and with its line records:
    [bus_geo] and [bus_voltage] have an entry for each bus and for nothing
    else, a line joins two different buses, [line_data] maps a pair of
    ends to a record of [line_list] that has these ends, and no length is
    below 0.001. *)
Record tables_ok (g : GridNetwork) : Prop := mk_tables_ok {
  tb_geo : ∀ b, is_Some (bus_geo g !! b) ↔ b ∈ Nx.nodes (G g);
  tb_voltage : ∀ b, is_Some (bus_voltage g !! b) ↔ b ∈ Nx.nodes (G g);
  tb_ends : ∀ r, r ∈ line_list g →
      from_bus (line_obj g r) ≠ to_bus (line_obj g r);
  tb_data : ∀ u v r, line_data g !! (u, v) = Some r →
      r ∈ line_list g
      ∧ from_bus (line_obj g r) = u ∧ to_bus (line_obj g r) = v;
  tb_keys : ∀ r, r ∈ line_list g →
      is_Some (line_data g !! (from_bus (line_obj g r), to_bus (line_obj g r)));
  tb_length : ∀ r, r ∈ line_list g →
      PyFloat.ltb (length_km (line_obj g r)) (PyFloat.of_decimal 1 3) = false;
}.

(** The substation geometries that [_find_best_source_bus] reads without
    raising: a polygon whose [coordinates] is the empty list, or whose
    first ring starts with a point of fewer than two numbers, is not one
    of them. *)
Definition geometry_ok (geom : Geometry) : Prop :=
  match geom with
  | Polygon (Some []) => False
  | Polygon (Some ((c :: _) :: _)) => (2 ≤ length c)%nat
  | _ => True
  end.

(** [classified_features] with another value under ['substations']. *)
Definition with_substations (cf : Classified) (subs : option (list Substation))
  : Classified :=
  mkClassified (cf_lines cf) (cf_minor_lines cf) (cf_cables cf) subs.

(** All the line features of [classified_features], before any cut. *)
Definition line_features (cf : Classified) : list LineFeature :=
  default [] (cf_lines cf) ++ default [] (cf_minor_lines cf)
    ++ default [] (cf_cables cf).

(** The point [(lon, lat)] that the builder reads from a coordinate that
    has at least two numbers, and the points of a list of line
    features. *)
Definition point_of (coord : list float) : option (float * float) :=
  match coord with
  | lon :: lat :: _ => Some (lon, lat)
  | _ => None
  end.

Definition points_of (feats : list LineFeature) : list (float * float) :=
  feats ≫= λ f, omap point_of (lf_coordinates f).

Section BuilderTables.

Context {Key : Type} `{Countable Key}.
Variable round_key : float → float → Key.

(** The state of the first loop of the builder, as to its tables: they
    agree with the graph, no source is chosen yet, the bus of a stored
    coordinate is the one that [coord_to_bus] gives for its key, and
    nothing at all is written as long as no bus exists. *)
Record build_tables (b : Build) : Prop := mk_build_tables {
  bt_tables : tables_ok (grid b);
  bt_source : ext_grid_bus (grid b) = -1;
  bt_keys : ∀ v geo, bus_geo (grid b) !! v = Some geo →
      coord_to_bus b !! round_key geo.1 geo.2 = Some v;
  bt_empty : bus_counter b = 0 → grid b = empty_grid;
}.



End BuilderTables.

(** The keys of the dict that [load_overpass_geojson] returns. *)
Definition result_keys : list string :=
  ["lines"; "minor_lines"; "cables"; "substations"; "towers"; "poles";
   "transformers"; "others"].

(** The features that a file gives to the loop of the loader. *)
Definition features_of {A} (file : option (option (list (Feature A))))
  : list (Feature A) :=
  default [] (default None file).

(** Under each of its keys, [result] holds the features of [seen] that are
    filed under that key, in their order. *)
Definition filed_by_key {A} (seen : list (Feature A))
    (result : gmap string (list (Feature A))) : Prop :=
  ∀ key, result !! key
         = if bool_decide (key ∈ result_keys)
           then Some (filter (λ f, feature_key f = key) seen)
           else None.

(** * Properties *)

(** A decidable closed proposition, settled by running its decision. *)
Ltac by_compute := apply (bool_decide_unpack _); vm_compute; exact I.

(** ** Indexing and the store *)

Lemma getitem_in_range {A} (l : list A) (i : Z) :
  0 ≤ i < Z.of_nat (length l) →
  ∃ a, l !! Z.to_nat i = Some a ∧ getitem l i = Ret a.
Proof.
  intros Hi. unfold getitem.
  destruct (Z.ltb_spec i 0) as [?|_]; [lia|].
  destruct (Z.leb_spec 0 i) as [_|?]; [|lia].
  destruct (Z.ltb_spec i (Z.of_nat (length l))) as [_|?]; [|lia].
  destruct (lookup_lt_is_Some_2 l (Z.to_nat i)) as [a Ha]; [lia|].
  exists a. by rewrite Ha.
Qed.

Lemma store_set_eq h r l : store_set h r l r = l.
Proof. unfold store_set. by rewrite bool_decide_eq_true_2. Qed.

Lemma store_set_ne h r l r' : r' ≠ r → store_set h r l r' = h r'.
Proof. intros. unfold store_set. by rewrite bool_decide_eq_false_2. Qed.

(** ** C10: [set_line_in_service] *)

(** C10.  [GridNetwork.set_line_in_service] returns for every integer
    index.  Outside [[0, len(line_list))] it gives the grid back as it
    was.  Inside, the record at that position gets [in_service = b] and
    keeps its other fields, every other record of the store is as before,
    and so is everything else in the grid. *)
Theorem set_line_in_service_total (g : GridNetwork) (line_idx : Z) (b : bool) :
  ∃ g', set_line_in_service g line_idx b = Ret g'
    ∧ (¬ (0 ≤ line_idx < Z.of_nat (length (line_list g))) → g' = g)
    ∧ (0 ≤ line_idx < Z.of_nat (length (line_list g)) →
       ∃ r, line_list g !! Z.to_nat line_idx = Some r
         ∧ same_but_store g g'
         ∧ in_service (line_obj g' r) = b
         ∧ same_but_in_service (line_obj g r) (line_obj g' r)
         ∧ ∀ r', r' ≠ r → line_obj g' r' = line_obj g r').
Proof.
  unfold set_line_in_service, in_range.
  destruct (Z.leb_spec 0 line_idx) as [H0|H0]; simpl;
    [destruct (Z.ltb_spec line_idx (Z.of_nat (length (line_list g)))) as [H1|H1]|].
  - destruct (getitem_in_range (line_list g) line_idx) as (r & Hr & ->); [lia|].
    simpl. eexists; split; [reflexivity|]. split; [lia|]. intros _.
    exists r. split; [done|]. simpl. rewrite store_set_eq.
    repeat split; try done. intros r' Hr'. by apply store_set_ne.
  - exists g. split; [done|]. split; [done|lia].
  - exists g. split; [done|]. split; [done|lia].
Qed.

Lemma set_line_in_service_total_witness :
  ∃ g', set_line_in_service (Demo.path 3) 1 false = Ret g'
        ∧ in_service (line_obj g' 1%nat) = false
        ∧ in_service (line_obj g' 0%nat) = true.
Proof.
  destruct (set_line_in_service_total (Demo.path 3) 1 false)
    as (g' & Hrun & _ & Hin).
  destruct Hin as (r & Hr & _ & Hb & _ & Hother); [simpl; lia|].
  injection Hr as <-.
  exists g'. split; [exact Hrun|]. split; [exact Hb|].
  rewrite Hother; [reflexivity|lia].
Defined.

(** ** C6: [trigger_fault] *)

(** Inside the range, [trigger_fault] takes the record at the index out of
    service and returns its snapshot. *)
Lemma trigger_fault_in_range (g : GridNetwork) (line_idx : Z) :
  0 ≤ line_idx < Z.of_nat (length (line_list g)) →
  ∃ r g', line_list g !! Z.to_nat line_idx = Some r
    ∧ trigger_fault g line_idx =
        Ret (g', Faulted (mkFaultInfo line_idx
                            (from_bus (line_obj g r)) (to_bus (line_obj g r))
                            (name (line_obj g r)) (voltage_kv (line_obj g r))))
    ∧ same_but_store g g'
    ∧ in_service (line_obj g' r) = false
    ∧ same_but_in_service (line_obj g r) (line_obj g' r)
    ∧ ∀ r', r' ≠ r → line_obj g' r' = line_obj g r'.
Proof.
  intros Hi. unfold trigger_fault.
  destruct (Z.ltb_spec line_idx 0) as [?|_]; [lia|].
  destruct (Z.leb_spec (Z.of_nat (length (line_list g))) line_idx) as [?|_]; [lia|].
  destruct (getitem_in_range (line_list g) line_idx) as (r & Hr & ->); [lia|].
  simpl. rewrite !store_set_eq. simpl.
  exists r. eexists. split; [done|]. split; [reflexivity|].
  simpl. rewrite !store_set_eq. repeat split; try done.
  intros r' Hr'. by apply store_set_ne.
Qed.

(** C6.  For an index outside [[0, len(line_list))], [trigger_fault]
    reports the index as out of range and gives the grid back as it was.
    For an index inside, the record at that position is taken out of
    service, nothing else changes, and the result is the snapshot of the
    index, the two ends, the name and the voltage of that record. *)
Theorem trigger_fault_spec (g : GridNetwork) (line_idx : Z) :
  (¬ (0 ≤ line_idx < Z.of_nat (length (line_list g))) →
     trigger_fault g line_idx = Ret (g, IndexOutOfRange line_idx))
  ∧ (0 ≤ line_idx < Z.of_nat (length (line_list g)) →
     ∃ r g', line_list g !! Z.to_nat line_idx = Some r
       ∧ trigger_fault g line_idx =
           Ret (g', Faulted (mkFaultInfo line_idx
                               (from_bus (line_obj g r)) (to_bus (line_obj g r))
                               (name (line_obj g r)) (voltage_kv (line_obj g r))))
       ∧ same_but_store g g'
       ∧ in_service (line_obj g' r) = false
       ∧ same_but_in_service (line_obj g r) (line_obj g' r)
       ∧ ∀ r', r' ≠ r → line_obj g' r' = line_obj g r').
Proof.
  split; intros Hi.
  - unfold trigger_fault.
    destruct (Z.ltb_spec line_idx 0) as [?|?]; [done|].
    destruct (Z.leb_spec (Z.of_nat (length (line_list g))) line_idx); [done|lia].
  - by apply trigger_fault_in_range.
Qed.

Lemma trigger_fault_spec_witness :
  trigger_fault (Demo.path 3) 7 = Ret (Demo.path 3, IndexOutOfRange 7)
  ∧ ∃ g', trigger_fault (Demo.path 3) 1 =
            Ret (g', Faulted (mkFaultInfo 1 1 2 "L" (PyFloat.of_Z 11)))
          ∧ in_service (line_obj g' 1%nat) = false.
Proof.
  destruct (trigger_fault_spec (Demo.path 3) 7) as [Hout _].
  destruct (trigger_fault_spec (Demo.path 3) 1) as [_ Hin].
  split; [apply Hout; simpl; lia|].
  destruct Hin as (r & g' & Hr & Hrun & _ & Hb & _); [simpl; lia|].
  injection Hr as <-. exists g'. split; [exact Hrun | exact Hb].
Defined.

(** ** C4: [identify_faulty_block] *)

Lemma first_dead_found readings i0 sensors i s :
  sensors !! i = Some s →
  readings !! s = Some 0 →
  (∀ j sj, (j < i)%nat → sensors !! j = Some sj → readings !! sj ≠ Some 0) →
  first_dead readings i0 sensors = Z.of_nat (i0 + i).
Proof.
  revert i0 i. induction sensors as [|s0 sensors IH]; intros i0 i Hs Hdead Hbefore.
  - done.
  - destruct i as [|i]; simpl in *.
    + injection Hs as ->. rewrite Hdead. simpl. f_equal; lia.
    + rewrite bool_decide_eq_false_2.
      * rewrite (IH (S i0) i); [f_equal; lia|done..|].
        intros j sj Hj. apply (Hbefore (S j)). lia.
      * specialize (Hbefore 0%nat s0 ltac:(lia) eq_refl).
        destruct (readings !! s0) as [z|]; simpl; [congruence|done].
Qed.

Lemma first_dead_none readings i0 sensors :
  (∀ s, s ∈ sensors → readings !! s ≠ Some 0) →
  first_dead readings i0 sensors = -1.
Proof.
  revert i0. induction sensors as [|s0 sensors IH]; intros i0 Hall; [done|].
  simpl. rewrite bool_decide_eq_false_2.
  - apply IH. intros s Hs. apply Hall. by right.
  - specialize (Hall s0 ltac:(left)).
    destruct (readings !! s0) as [z|]; simpl; [congruence|done].
Qed.

(** C4.  [identify_faulty_block] returns the position of the first sensor
    of the list whose reading is 0 (dead), and -1, its "none", when the
    reading of every sensor is 1 (live). *)
Theorem identify_faulty_block_first_dead
    (readings : gmap Z Z) (sensors : list Z) (blocks : list (list Z)) :
  (∀ i s, sensors !! i = Some s → readings !! s = Some 0 →
     (∀ j sj, (j < i)%nat → sensors !! j = Some sj → readings !! sj ≠ Some 0) →
     identify_faulty_block readings sensors blocks = Z.of_nat i)
  ∧ ((∀ s, s ∈ sensors → readings !! s = Some 1) →
     identify_faulty_block readings sensors blocks = -1).
Proof.
  split.
  - intros i s Hs Hdead Hbefore. unfold identify_faulty_block.
    by rewrite (first_dead_found _ 0 _ i s).
  - intros Hall. apply first_dead_none. intros s Hs. rewrite (Hall s Hs). done.
Qed.

Lemma identify_faulty_block_first_dead_witness :
  identify_faulty_block {[2 := 1; 5 := 0; 8 := 0]} [2; 5; 8]
                        [[0; 1; 2]; [3; 4; 5]; [6; 7; 8]] = 1
  ∧ identify_faulty_block {[2 := 1; 5 := 1; 8 := 1]} [2; 5; 8]
                          [[0; 1; 2]; [3; 4; 5]; [6; 7; 8]] = -1.
Proof.
  split.
  - apply (proj1 (identify_faulty_block_first_dead
                    {[2 := 1; 5 := 0; 8 := 0]} [2; 5; 8]
                    [[0; 1; 2]; [3; 4; 5]; [6; 7; 8]]) 1%nat 5).
    + reflexivity.
    + reflexivity.
    + intros [|j] sj Hj Hsj; [|lia]. injection Hsj as <-. done.
  - apply (proj2 (identify_faulty_block_first_dead
                    {[2 := 1; 5 := 1; 8 := 1]} [2; 5; 8]
                    [[0; 1; 2]; [3; 4; 5]; [6; 7; 8]])).
    intros s Hs.
    repeat (apply elem_of_cons in Hs as [->|Hs]; [reflexivity|]).
    by apply elem_of_nil in Hs.
Defined.

(** ** Reachability in a graph *)

Lemma visit_pre_full G vis u :
  visit_pre G 0 vis → u ∈ Nx.nodes G → u ∈ vis.
Proof.
  intros (Hnd & Hsub & Hlen) Hu.
  assert (vis ⊆+ Nx.nodes G) as Hsm by by apply NoDup_submseteq.
  apply submseteq_length_Permutation in Hsm; [|lia].
  by rewrite Hsm.
Qed.

Lemma visit_post_fold G f (step : Z → list Z → list Z) :
  (∀ c vis, c ∈ Nx.nodes G → visit_pre G f vis →
            visit_post G [c] vis (step c vis)) →
  ∀ cs vis, cs ⊆ Nx.nodes G → visit_pre G f vis →
            visit_post G cs vis (foldl (λ vis c, step c vis) vis cs).
Proof.
  intros Hstep cs. induction cs as [|c cs IH]; intros vis Hcs Hpre.
  - exists []. destruct Hpre as (? & ? & ?).
    rewrite app_nil_r. repeat split; try done.
    + intros c Hc. by apply elem_of_nil in Hc.
    + intros x Hx. by apply elem_of_nil in Hx.
    + intros x y Hx. by apply elem_of_nil in Hx.
  - simpl.
    destruct (Hstep c vis) as (D1 & HR1 & Hnd1 & Hsub1 & Hroot1 & Hreach1 & Hcl1);
      [apply Hcs; left | done |].
    destruct (IH (step c vis)) as (D2 & HR & Hnd & Hsub & Hroot & Hreach & Hcl).
    { intros x Hx. apply Hcs. by right. }
    { destruct Hpre as (_ & _ & Hlen). repeat split; try done.
      rewrite HR1, length_app. lia. }
    assert (∀ y, y ∈ step c vis →
                 y ∈ foldl (λ vis c, step c vis) (step c vis) cs) as Hmono.
    { intros y Hy. rewrite HR. apply elem_of_app. by left. }
    exists (D1 ++ D2).
    split; [by rewrite HR, HR1, <-(assoc (++))|].
    split; [done|]. split; [done|]. split; [|split].
    + intros c' [->|Hc']%elem_of_cons.
      * apply Hmono, Hroot1. left.
      * by apply Hroot.
    + intros x [Hx|Hx]%elem_of_app.
      * destruct (Hreach1 x Hx) as (c' & ->%list_elem_of_singleton & Hp).
        exists c. split; [left|done].
      * destruct (Hreach x Hx) as (c' & Hc' & Hp).
        exists c'. split; [by right|done].
    + intros x y [Hx|Hx]%elem_of_app Hxy.
      * apply Hmono. by apply (Hcl1 x).
      * by apply (Hcl x).
Qed.

Lemma dfs_visit_post G :
  adj_closed G →
  ∀ f c vis, c ∈ Nx.nodes G → visit_pre G f vis →
             visit_post G [c] vis (Traversal.dfs_visit f G c vis).
Proof.
  intros Hclosed f. induction f as [|f IH]; intros u vis Hu Hpre.
  - simpl. exists []. rewrite app_nil_r.
    pose proof (visit_pre_full _ _ _ Hpre Hu) as Hin.
    destruct Hpre as (? & ? & ?). repeat split; try done.
    + by intros c ->%list_elem_of_singleton.
    + intros x Hx. by apply elem_of_nil in Hx.
    + intros x y Hx. by apply elem_of_nil in Hx.
  - simpl. case_bool_decide as Hvis.
    + exists []. rewrite app_nil_r. destruct Hpre as (? & ? & ?).
      repeat split; try done.
      * by intros c ->%list_elem_of_singleton.
      * intros x Hx. by apply elem_of_nil in Hx.
      * intros x y Hx. by apply elem_of_nil in Hx.
    + destruct Hpre as (Hnd & Hsub & Hlen).
      destruct (visit_post_fold G f (Traversal.dfs_visit f G) IH
                  (Nx.neighbors G u) (vis ++ [u]))
        as (D & HR & HndR & HsubR & Hroot & Hreach & Hcl).
      { intros v Hv. by apply (Hclosed u). }
      { repeat split.
        - apply NoDup_app. repeat split; [done| |apply NoDup_singleton].
          intros x Hx ->%list_elem_of_singleton. done.
        - intros x [Hx| ->%list_elem_of_singleton]%elem_of_app; [by apply Hsub|done].
        - rewrite length_app. simpl. lia. }
      exists (u :: D).
      split; [by rewrite HR, <-(assoc (++))|].
      split; [done|]. split; [done|]. split; [|split].
      * intros c ->%list_elem_of_singleton.
        rewrite HR. apply elem_of_app. left. apply elem_of_app. right. left.
      * intros x [->|Hx]%elem_of_cons.
        -- exists u. split; [left|done].
        -- destruct (Hreach x Hx) as (c & Hc & Hp).
           exists u. split; [left|]. by eapply rtc_l.
      * intros x y [->|Hx]%elem_of_cons Hxy.
        -- by apply Hroot.
        -- by apply (Hcl x).
Qed.

Lemma foldl_keeps_head {A} (step : Z → list A → list A) (a : A) :
  (∀ c vis, head vis = Some a → head (step c vis) = Some a) →
  ∀ cs vis, head vis = Some a →
            head (foldl (λ vis c, step c vis) vis cs) = Some a.
Proof.
  intros Hstep cs. induction cs as [|c cs IH]; intros vis Hvis; [done|].
  simpl. by apply IH, Hstep.
Qed.

Lemma dfs_visit_keeps_head G s f :
  ∀ c vis, head vis = Some s → head (Traversal.dfs_visit f G c vis) = Some s.
Proof.
  induction f as [|f IH]; intros c vis Hvis; [done|].
  simpl. case_bool_decide; [done|].
  apply foldl_keeps_head; [apply IH|]. by destruct vis.
Qed.

(** The visit from a node of the graph reports each node reachable from
    it, once, and nothing else; it starts with the node itself. *)
Lemma visit_order_spec G s :
  adj_closed G → s ∈ Nx.nodes G →
  NoDup (Traversal.visit_order G s)
  ∧ Traversal.visit_order G s ⊆ Nx.nodes G
  ∧ (∀ x, x ∈ Traversal.visit_order G s ↔ rtc (adj G) s x)
  ∧ head (Traversal.visit_order G s) = Some s.
Proof.
  intros Hclosed Hs. unfold Traversal.visit_order.
  destruct (dfs_visit_post G Hclosed (length G) s [] Hs)
    as (D & HR & Hnd & Hsub & Hroot & Hreach & Hcl).
  { repeat split; [apply NoDup_nil_2 | by intros ? ?%elem_of_nil |].
    unfold Nx.nodes. rewrite length_fmap. simpl. lia. }
  simpl in HR. split; [done|]. split; [done|]. split.
  - intros x. split.
    + rewrite HR. intros Hx.
      by destruct (Hreach x Hx) as (c & ->%list_elem_of_singleton & Hp).
    + revert x.
      apply (rtc_ind_r (λ x, x ∈ Traversal.dfs_visit (length G) G s [])).
      * apply Hroot. left.
      * intros y z _ Hyz Hy. apply (Hcl y z); [by rewrite <-HR|done].
  - destruct (length G) as [|n] eqn:Hn.
    + destruct G; [by apply elem_of_nil in Hs|done].
    + simpl. apply foldl_keeps_head; [apply dfs_visit_keeps_head|done].
Qed.

(** ** The depth-first preorder *)

Lemma app_cons_eq_inv {A} (l1 l2 pre post : list A) (c v : A) :
  l1 ++ c :: l2 = pre ++ v :: post →
  (pre = l1 ∧ v = c ∧ post = l2)
  ∨ (∃ pre2, pre = l1 ++ c :: pre2 ∧ l2 = pre2 ++ v :: post)
  ∨ (∃ post1, l1 = pre ++ v :: post1 ∧ post = post1 ++ c :: l2).
Proof.
  revert pre. induction l1 as [|a l1 IH]; intros pre Heq.
  - destruct pre as [|b pre]; simpl in Heq.
    + injection Heq as -> ->. by left.
    + injection Heq as -> ->. right. left. by exists pre.
  - destruct pre as [|b pre]; simpl in Heq.
    + injection Heq as -> <-. right. right. by exists l1.
    + injection Heq as -> Heq.
      destruct (IH pre Heq) as [(-> & -> & ->)|[(pre2 & -> & ->)|(post1 & -> & ->)]].
      * by left.
      * right. left. by exists pre2.
      * right. right. by exists post1.
Qed.

Lemma next_in_visit_unique G vis pre v1 v2 :
  next_in_visit G vis pre v1 → next_in_visit G vis pre v2 → v1 = v2.
Proof.
  intros (p1 & u & p2 & l1 & l2 & Hpre & Hn & Hv & Hl1 & Hp2)
         (p1' & u' & p2' & l1' & l2' & Hpre' & Hn' & Hv' & Hl1' & Hp2').
  assert (adj G u v1) as Huv1.
  { unfold adj. rewrite Hn. apply elem_of_app. right. left. }
  assert (adj G u' v2) as Huv2.
  { unfold adj. rewrite Hn'. apply elem_of_app. right. left. }
  rewrite Hpre in Hpre'.
  destruct (app_cons_eq_inv _ _ _ _ _ _ Hpre')
    as [(-> & -> & ->)|[(pre2 & -> & ->)|(post1 & -> & ->)]].
  - rewrite Hn in Hn'.
    destruct (app_cons_eq_inv _ _ _ _ _ _ Hn')
      as [(_ & -> & _)|[(pre2 & -> & _)|(post1 & -> & _)]].
    + done.
    + exfalso. apply Hv. apply Hl1'. apply elem_of_app. right. left.
    + exfalso. apply Hv'. apply Hl1. apply elem_of_app. right. left.
  - exfalso. apply Hv'. apply (Hp2 u' v2); [|done].
    apply elem_of_app. right. left.
  - exfalso. apply Hv. apply (Hp2' u v1); [|done].
    apply elem_of_app. right. left.
Qed.

Lemma depth_first_preorder_ends G s pre v post :
  pre ≠ [] → depth_first_preorder G s pre →
  ¬ depth_first_preorder G s (pre ++ v :: post).
Proof.
  intros Hne (_ & _ & Hcl) (_ & Hstep & _).
  destruct (Hstep pre v post eq_refl Hne)
    as (p1 & u & p2 & l1 & l2 & Hpre & Hn & Hv & _).
  apply Hv. simpl. apply (Hcl u).
  - rewrite Hpre. apply elem_of_app. right. left.
  - unfold adj. rewrite Hn. apply elem_of_app. right. left.
Qed.

Lemma depth_first_preorder_tails G s :
  ∀ r1 pre r2, pre ≠ [] →
    depth_first_preorder G s (pre ++ r1) → depth_first_preorder G s (pre ++ r2) →
    r1 = r2.
Proof.
  intros r1. induction r1 as [|v1 r1 IH]; intros pre r2 Hne H1 H2.
  - destruct r2 as [|v2 r2]; [done|]. exfalso.
    rewrite app_nil_r in H1. by eapply depth_first_preorder_ends.
  - destruct r2 as [|v2 r2].
    { exfalso. rewrite app_nil_r in H2. by eapply depth_first_preorder_ends. }
    assert (v1 = v2) as <-.
    { destruct H1 as (_ & Hs1 & _), H2 as (_ & Hs2 & _).
      eapply next_in_visit_unique; [by eapply Hs1|by eapply Hs2]. }
    f_equal. apply (IH (pre ++ [v1])).
    + by destruct pre.
    + by rewrite <-(assoc (++)).
    + by rewrite <-(assoc (++)).
Qed.

(** Two depth-first preorders of a graph from the same node are equal:
    the adjacency order leaves no choice. *)
Lemma depth_first_preorder_unique G s o1 o2 :
  depth_first_preorder G s o1 → depth_first_preorder G s o2 → o1 = o2.
Proof.
  intros H1 H2.
  destruct o1 as [|a o1]; [by destruct H1|].
  destruct o2 as [|b o2]; [by destruct H2|].
  assert (a = s) as -> by (destruct H1 as [[= ->] _]; done).
  assert (b = s) as -> by (destruct H2 as [[= ->] _]; done).
  f_equal. by apply (depth_first_preorder_tails G s _ [s]).
Qed.

Lemma visit_pre_after G f c vis :
  adj_closed G → c ∈ Nx.nodes G → visit_pre G f vis →
  visit_pre G f (Traversal.dfs_visit f G c vis).
Proof.
  intros Hcl Hc Hpre.
  destruct (dfs_visit_post G Hcl f c vis Hc Hpre) as (D & HR & Hnd & Hsub & _).
  destruct Hpre as (_ & _ & Hlen).
  split; [done|]. split; [done|]. rewrite HR, length_app. lia.
Qed.

Lemma dfs_fold_steps G f :
  adj_closed G →
  (∀ c vis, c ∈ Nx.nodes G → visit_pre G f vis →
     (c ∈ vis → Traversal.dfs_visit f G c vis = vis)
     ∧ (c ∉ vis →
        ∃ D, Traversal.dfs_visit f G c vis = vis ++ c :: D
             ∧ reported_depth_first G vis (c :: D)
             ∧ ∀ x y, x ∈ c :: D → adj G x y → y ∈ vis ++ c :: D)) →
  ∀ cs l1 vis u D1,
    Nx.neighbors G u = l1 ++ cs →
    visit_pre G f (vis ++ u :: D1) →
    reported_depth_first G vis (u :: D1) →
    (∀ x y, x ∈ D1 → adj G x y → y ∈ vis ++ u :: D1) →
    (∀ w, w ∈ l1 → w ∈ vis ++ u :: D1) →
    ∃ D, foldl (λ vis c, Traversal.dfs_visit f G c vis) (vis ++ u :: D1) cs
         = vis ++ u :: D
         ∧ reported_depth_first G vis (u :: D)
         ∧ ∀ x y, x ∈ u :: D → adj G x y → y ∈ vis ++ u :: D.
Proof.
  intros Hcl IHf cs.
  induction cs as [|c cs IH]; intros l1 vis u D1 Hn Hpre Hrep Hclosed Hl1.
  - simpl. exists D1. split; [done|]. split; [done|].
    intros x y [->|Hx]%elem_of_cons Hxy.
    + apply Hl1. unfold adj in Hxy. by rewrite Hn, app_nil_r in Hxy.
    + by eapply Hclosed.
  - simpl.
    assert (c ∈ Nx.nodes G) as Hc.
    { apply (Hcl u). unfold adj. rewrite Hn. apply elem_of_app. right. left. }
    destruct (IHf c (vis ++ u :: D1) Hc Hpre) as [Hin Hout].
    pose proof (visit_pre_after G f c _ Hcl Hc Hpre) as Hpre'.
    destruct (decide (c ∈ vis ++ u :: D1)) as [Hcin|Hcout].
    + rewrite (Hin Hcin) in *.
      apply (IH (l1 ++ [c])); try done.
      * by rewrite <-(assoc (++)).
      * intros w [Hw| ->%list_elem_of_singleton]%elem_of_app; [by apply Hl1|done].
    + destruct (Hout Hcout) as (D2 & HR & Hrep2 & Hcl2).
      assert (∀ L, (vis ++ u :: D1) ++ L = vis ++ u :: (D1 ++ L)) as Hassoc
        by (intros L; by rewrite <-(assoc (++))).
      rewrite HR, Hassoc in Hpre'. rewrite HR, Hassoc.
      apply (IH (l1 ++ [c])); try done.
      * by rewrite <-(assoc (++)).
      * (* the steps *)
        intros pre v post Hsplit Hne.
        change (u :: D1 ++ c :: D2) with ((u :: D1) ++ c :: D2) in Hsplit.
        destruct (app_cons_eq_inv _ _ _ _ _ _ Hsplit)
          as [(-> & -> & ->)|[(pre2 & -> & ->)|(post1 & Hu & ->)]].
        -- exists [], u, D1, l1, cs. split; [done|]. split; [done|].
           split; [done|]. split; [done|done].
        -- destruct (Hrep2 (c :: pre2) v post eq_refl ltac:(done))
             as (p1 & u' & p2 & l1' & l2' & Hp & Hn' & Hv & Hl1' & Hp2).
           exists ((u :: D1) ++ p1), u', p2, l1', l2'.
           assert (vis ++ (u :: D1) ++ c :: pre2 = (vis ++ u :: D1) ++ c :: pre2)
             as Heq by (by rewrite (assoc (++))).
           split; [by rewrite Hp, <-(assoc (++))|]. split; [done|].
           rewrite Heq. done.
        -- by apply (Hrep pre v post1).
      * intros x y [Hx|Hx]%elem_of_app Hxy; rewrite <-Hassoc.
        -- apply elem_of_app. left. by eapply Hclosed.
        -- by eapply Hcl2.
      * intros w [Hw| ->%list_elem_of_singleton]%elem_of_app; rewrite <-Hassoc.
        -- apply elem_of_app. left. by apply Hl1.
        -- apply elem_of_app. right. left.
Qed.

Lemma dfs_visit_steps G :
  adj_closed G →
  ∀ f c vis, c ∈ Nx.nodes G → visit_pre G f vis →
    (c ∈ vis → Traversal.dfs_visit f G c vis = vis)
    ∧ (c ∉ vis →
       ∃ D, Traversal.dfs_visit f G c vis = vis ++ c :: D
            ∧ reported_depth_first G vis (c :: D)
            ∧ ∀ x y, x ∈ c :: D → adj G x y → y ∈ vis ++ c :: D).
Proof.
  intros Hcl f. induction f as [|f IH]; intros c vis Hc Hpre.
  - split; [done|]. intros Hout. exfalso. apply Hout.
    by apply (visit_pre_full G).
  - simpl. split.
    + intros Hin. by rewrite bool_decide_eq_true_2.
    + intros Hout. rewrite bool_decide_eq_false_2 by done.
      replace (vis ++ [c]) with (vis ++ c :: []) by done.
      apply (dfs_fold_steps G f Hcl IH (Nx.neighbors G c) [] vis c []).
      * done.
      * destruct Hpre as (Hnd & Hsub & Hlen). repeat split.
        -- apply NoDup_app. repeat split; [done| |apply NoDup_singleton].
           intros x Hx ->%list_elem_of_singleton. done.
        -- intros x [Hx| ->%list_elem_of_singleton]%elem_of_app;
             [by apply Hsub|done].
        -- rewrite length_app. simpl. lia.
      * intros pre v post Hsplit Hne.
        destruct pre as [|a [|? ?]]; [done|done|done].
      * by intros x y ?%elem_of_nil.
      * by intros w ?%elem_of_nil.
Qed.

(** The order in which the visit from [s] reports the nodes is the
    depth-first preorder from [s]. *)
Lemma visit_order_depth_first G s :
  adj_closed G → s ∈ Nx.nodes G →
  depth_first_preorder G s (Traversal.visit_order G s).
Proof.
  intros Hcl Hs. unfold Traversal.visit_order.
  destruct (dfs_visit_steps G Hcl (length G) s [] Hs) as [_ Hout].
  { repeat split; [apply NoDup_nil_2 | by intros ? ?%elem_of_nil |].
    unfold Nx.nodes. rewrite length_fmap. simpl. lia. }
  destruct Hout as (D & -> & Hrep & Hclosed); [by intros ?%elem_of_nil|].
  simpl. split; [done|]. split; [|done].
  intros pre v post Hsplit Hne. by apply (Hrep pre v post).
Qed.

(** ** The graph operations *)

Lemma neighbors_not_node G x : x ∉ Nx.nodes G → Nx.neighbors G x = [].
Proof.
  induction G as [|[n nbrs] G IH]; [done|]. simpl.
  intros Hx. case_bool_decide as Hn.
  - subst. exfalso. apply Hx. left.
  - apply IH. intros Hin. apply Hx. by right.
Qed.

Lemma neighbors_app G1 G2 x :
  Nx.neighbors (G1 ++ G2) x =
  if bool_decide (x ∈ Nx.nodes G1) then Nx.neighbors G1 x else Nx.neighbors G2 x.
Proof.
  induction G1 as [|[n nbrs] G1 IH]; [done|].
  simpl. rewrite IH. clear IH.
  repeat case_bool_decide; try done; set_solver.
Qed.

Lemma elem_of_nodes_add_node G u x :
  x ∈ Nx.nodes (Nx.add_node G u) ↔ x ∈ Nx.nodes G ∨ x = u.
Proof.
  unfold Nx.add_node, Nx.has_node. case_bool_decide as Hu.
  - split; [by left|]. by intros [?| ->].
  - unfold Nx.nodes. rewrite fmap_app, elem_of_app. simpl.
    by rewrite list_elem_of_singleton.
Qed.

Lemma neighbors_add_node G u x :
  Nx.neighbors (Nx.add_node G u) x = Nx.neighbors G x.
Proof.
  unfold Nx.add_node, Nx.has_node. case_bool_decide as Hu; [done|].
  rewrite neighbors_app. case_bool_decide as Hx; [done|].
  simpl. rewrite neighbors_not_node by done. by case_bool_decide.
Qed.

Lemma nodes_link G u v : Nx.nodes (Nx.link G u v) = Nx.nodes G.
Proof.
  unfold Nx.nodes, Nx.link. rewrite <-list_fmap_compose.
  apply list_fmap_ext. by intros i [n nbrs] _.
Qed.

Lemma elem_of_neighbors_link G u v x y :
  y ∈ Nx.neighbors (Nx.link G u v) x ↔
  y ∈ Nx.neighbors G x ∨ (x = u ∧ y = v ∧ u ∈ Nx.nodes G).
Proof.
  induction G as [|[n nbrs] G IH]; simpl.
  - split; [by intros ?%elem_of_nil|]. intros [?|(_ & _ & ?%elem_of_nil)]; done.
  - case_bool_decide as Hn.
    + subst n. destruct (decide (x = u)) as [->|Hxu].
      * rewrite bool_decide_eq_true_2 by done. simpl.
        case_bool_decide as Hv; simpl.
        -- split; [by left|]. intros [?|(_ & -> & _)]; done.
        -- rewrite elem_of_app, list_elem_of_singleton.
           split; [intros [?| ->]; [by left|right; repeat split; left]|].
           intros [?|(_ & -> & _)]; [by left|by right].
      * rewrite bool_decide_eq_false_2 by done. simpl.
        split; [by left|]. intros [?|(? & _)]; done.
    + rewrite IH. split.
      * intros [?|(-> & -> & ?)]; [by left|]. right. repeat split. by right.
      * intros [?|(-> & -> & Hin)]; [by left|]. right. repeat split.
        apply elem_of_cons in Hin as [?|?]; [congruence|done].
Qed.

Lemma elem_of_nodes_add_edge G u v x :
  x ∈ Nx.nodes (Nx.add_edge G u v) ↔ x ∈ Nx.nodes G ∨ x = u ∨ x = v.
Proof.
  unfold Nx.add_edge. rewrite !nodes_link, !elem_of_nodes_add_node. tauto.
Qed.

Lemma adj_add_edge G u v x y :
  adj (Nx.add_edge G u v) x y ↔
  adj G x y ∨ (x = u ∧ y = v) ∨ (x = v ∧ y = u).
Proof.
  unfold adj, Nx.add_edge.
  rewrite !elem_of_neighbors_link, !nodes_link, !neighbors_add_node,
    !elem_of_nodes_add_node.
  split.
  - intros [[?|(-> & -> & _)]|(-> & -> & _)]; auto.
  - intros [?|[[-> ->]|[-> ->]]]; [by do 2 left| |].
    + left. right. auto.
    + right. auto.
Qed.

Lemma adj_closed_add_node G u : adj_closed G → adj_closed (Nx.add_node G u).
Proof.
  intros HG x y. unfold adj. rewrite neighbors_add_node, elem_of_nodes_add_node.
  intros Hxy. left. by apply (HG x).
Qed.

Lemma adj_closed_add_edge G u v : adj_closed G → adj_closed (Nx.add_edge G u v).
Proof.
  intros HG x y. rewrite adj_add_edge, elem_of_nodes_add_edge.
  intros [Hxy|[[-> ->]|[-> ->]]]; auto. left. by apply (HG x).
Qed.

Lemma add_nodes_from_spec G us :
  (∀ x, x ∈ Nx.nodes (Nx.add_nodes_from G us) ↔ x ∈ Nx.nodes G ∨ x ∈ us)
  ∧ (∀ x, Nx.neighbors (Nx.add_nodes_from G us) x = Nx.neighbors G x).
Proof.
  unfold Nx.add_nodes_from. revert G.
  induction us as [|u us IH]; intros G; simpl.
  - split; [|done]. intros x. rewrite elem_of_nil. tauto.
  - destruct (IH (Nx.add_node G u)) as [Hn Ha]. split.
    + intros x. rewrite Hn, elem_of_nodes_add_node, elem_of_cons. tauto.
    + intros x. by rewrite Ha, neighbors_add_node.
Qed.

(** ** C1: [get_energized_status] *)

Lemma joins_spec u v l :
  joins u v l = true ↔
  (from_bus l = u ∧ to_bus l = v) ∨ (from_bus l = v ∧ to_bus l = u).
Proof.
  unfold joins. rewrite orb_true_iff, !andb_true_iff, !bool_decide_eq_true. done.
Qed.

Lemma active_fold ls A0 :
  let A := foldl add_live A0 ls in
  (∀ x, x ∈ Nx.nodes A ↔
        x ∈ Nx.nodes A0
        ∨ ∃ l, l ∈ ls ∧ in_service l = true ∧ (from_bus l = x ∨ to_bus l = x))
  ∧ (∀ x y, adj A x y ↔
        adj A0 x y ∨ ∃ l, l ∈ ls ∧ in_service l = true ∧ joins x y l = true)
  ∧ (adj_closed A0 → adj_closed A).
Proof.
  revert A0. induction ls as [|l ls IH]; intros A0; simpl.
  - repeat split; try tauto; try (intros [?|(l & ?%elem_of_nil & _)]; done).
  - destruct (IH (add_live A0 l)) as (Hn & Ha & Hc). split; [|split].
    + intros x. rewrite Hn. unfold add_live. destruct (in_service l) eqn:Hl.
      * rewrite elem_of_nodes_add_edge. split.
        -- intros [[?|Hx]|(l' & ? & ? & ?)]; [by left| |].
           ++ right. exists l. split; [left|]. split; [done|]. destruct Hx; auto.
           ++ right. exists l'. split; [by right|done].
        -- intros [?|(l' & [->|?]%elem_of_cons & ? & Hx)]; [by do 2 left| |].
           ++ left. right. destruct Hx; auto.
           ++ right. by exists l'.
      * split.
        -- intros [?|(l' & ? & ? & ?)]; [by left|].
           right. exists l'. split; [by right|done].
        -- intros [?|(l' & [->|?]%elem_of_cons & ? & Hx)]; [by left|congruence|].
           right. by exists l'.
    + intros x y. rewrite Ha. unfold add_live. destruct (in_service l) eqn:Hl.
      * rewrite adj_add_edge. split.
        -- intros [[?|Hx]|(l' & ? & ? & ?)]; [by left| |].
           ++ right. exists l. split; [left|]. split; [done|].
              apply joins_spec. destruct Hx as [[-> ->]|[-> ->]]; auto.
           ++ right. exists l'. split; [by right|done].
        -- intros [?|(l' & [->|?]%elem_of_cons & ? & Hx)]; [by do 2 left| |].
           ++ left. right. apply joins_spec in Hx. naive_solver.
           ++ right. by exists l'.
      * split.
        -- intros [?|(l' & ? & ? & ?)]; [by left|].
           right. exists l'. split; [by right|done].
        -- intros [?|(l' & [->|?]%elem_of_cons & ? & Hx)]; [by left|congruence|].
           right. by exists l'.
    + intros HA0. apply Hc. unfold add_live. destruct (in_service l); [|done].
      by apply adj_closed_add_edge.
Qed.

Lemma lookup_status (f : Z → Z) (l : list Z) (b : Z) :
  (list_to_map ((λ b, (b, f b)) <$> l) : gmap Z Z) !! b =
  if bool_decide (b ∈ l) then Some (f b) else None.
Proof.
  induction l as [|a l IH]; [done|].
  rewrite fmap_cons, list_to_map_cons. destruct (decide (a = b)) as [->|Hab].
  - rewrite lookup_insert_eq, bool_decide_eq_true_2; [done|left].
  - rewrite lookup_insert_ne by done. rewrite IH.
    repeat case_bool_decide; try done; set_solver.
Qed.

Lemma active_graph_spec g :
  (∀ x, x ∈ Nx.nodes (get_active_graph g) ↔
        x ∈ Nx.nodes (G g)
        ∨ ∃ l, l ∈ lines g ∧ in_service l = true ∧ (from_bus l = x ∨ to_bus l = x))
  ∧ (∀ x y, adj (get_active_graph g) x y ↔ live g x y)
  ∧ adj_closed (get_active_graph g).
Proof.
  destruct (add_nodes_from_spec [] (Nx.nodes (G g))) as [Hn0 Ha0].
  destruct (active_fold (lines g) (Nx.add_nodes_from [] (Nx.nodes (G g))))
    as (Hn & Ha & Hc).
  split; [|split].
  - intros x. unfold get_active_graph. rewrite Hn, Hn0.
    simpl. rewrite elem_of_nil. tauto.
  - intros x y. unfold get_active_graph. rewrite Ha.
    unfold adj, live. rewrite Ha0. simpl. rewrite elem_of_nil. tauto.
  - apply Hc. intros x y. unfold adj. rewrite Ha0. simpl. by rewrite elem_of_nil.
Qed.

Lemma rtc_iff {A} (R1 R2 : relation A) x y :
  (∀ a b, R1 a b ↔ R2 a b) → rtc R1 x y ↔ rtc R2 x y.
Proof.
  intros HR. split; intros Hp; induction Hp; try done;
    (eapply rtc_l; [by apply HR|done]).
Qed.

(** What [get_energized_status] answers, for any grid whatsoever: a bus is
    reported live exactly when the source is not negative, is a node of the
    active graph, and reaches the bus through in-service lines. *)
Lemma get_energized_status_lookup g b :
  b ∈ Nx.nodes (G g) →
  (get_energized_status g !! b = Some 1
   ∧ 0 ≤ ext_grid_bus g
   ∧ ext_grid_bus g ∈ Nx.nodes (get_active_graph g)
   ∧ energized g b)
  ∨ (get_energized_status g !! b = Some 0
     ∧ ¬ (0 ≤ ext_grid_bus g
          ∧ ext_grid_bus g ∈ Nx.nodes (get_active_graph g)
          ∧ energized g b)).
Proof.
  intros Hb. destruct (active_graph_spec g) as (Hn & Ha & Hc).
  unfold get_energized_status, Nx.has_node.
  destruct (Z.ltb_spec (ext_grid_bus g) 0) as [Hneg|Hpos]; simpl.
  { right. rewrite lookup_status, bool_decide_eq_true_2 by done.
    split; [done|]. intros (? & _). lia. }
  case_bool_decide as Hsrc; simpl.
  2:{ right. rewrite lookup_status, bool_decide_eq_true_2 by done.
      split; [done|]. by intros (_ & ? & _). }
  unfold reachable_from, Traversal.descendants, Nx.has_node.
  rewrite bool_decide_eq_true_2 by done. simpl.
  rewrite lookup_status, bool_decide_eq_true_2 by done.
  destruct (visit_order_spec _ _ Hc Hsrc) as (_ & _ & Hreach & _).
  assert (b ∈ (list_to_set (Traversal.visit_order (get_active_graph g) (ext_grid_bus g))
                 ∖ {[ext_grid_bus g]} ∪ {[ext_grid_bus g]} : gset Z)
          ↔ energized g b) as Hiff.
  { unfold energized. rewrite <-(rtc_iff _ _ _ _ Ha), <-Hreach.
    rewrite elem_of_union, elem_of_difference, elem_of_list_to_set,
      elem_of_singleton.
    split.
    - intros [[? _]| ->]; [done|]. by apply Hreach.
    - intros Hin. destruct (decide (b = ext_grid_bus g)); auto. }
  case_bool_decide as Hin.
  - left. rewrite Hiff in Hin. done.
  - right. rewrite Hiff in Hin. split; [done|]. by intros (_ & _ & ?).
Qed.

Lemma live_on_buses g u v :
  lines_on_buses g → live g u v → u ∈ Nx.nodes (G g) ∧ v ∈ Nx.nodes (G g).
Proof.
  intros Hl (l & Hin & _ & Hj). unfold lines_on_buses in Hl.
  rewrite Forall_forall in Hl. destruct (Hl l Hin) as [Hf Ht].
  apply joins_spec in Hj as [[<- <-]|[<- <-]]; done.
Qed.

Lemma energized_on_buses g b :
  lines_on_buses g → energized g b → b ∈ Nx.nodes (G g) →
  ext_grid_bus g ∈ Nx.nodes (G g).
Proof.
  intros Hl Hp Hb. unfold energized in Hp.
  destruct Hp as [|x y z Hxy _]; [done|].
  by destruct (live_on_buses _ _ _ Hl Hxy).
Qed.

(** The status of a bus of a grid of the data model. *)
Lemma status_of_bus (g : GridNetwork) (b : Z) :
  bus_ids_nonneg g → lines_on_buses g → b ∈ Nx.nodes (G g) →
  (get_energized_status g !! b = Some 1 ↔ energized g b)
  ∧ (get_energized_status g !! b = Some 0 ↔ ¬ energized g b).
Proof.
  intros Hpos Hl Hb.
  destruct (get_energized_status_lookup g b Hb)
    as [(-> & _ & _ & Hp)|(-> & Hn)].
  - split; split; done.
  - assert (¬ energized g b) as Hne.
    { intros Hp. apply Hn.
      pose proof (energized_on_buses _ _ Hl Hp Hb) as Hin.
      unfold bus_ids_nonneg in Hpos. rewrite Forall_forall in Hpos.
      split; [by apply Hpos|]. split; [|done].
      destruct (active_graph_spec g) as (Hnodes & _). apply Hnodes. by left. }
    split; split; try done.
Qed.

(** C1.  On a grid of the data model, [get_energized_status] maps a bus
    to 1 exactly when it is reachable from the source through in-service
    lines taken in either direction (the source itself included), and to 0
    otherwise; its keys are the buses; and when the source is not a bus
    every bus is mapped to 0. *)
Theorem get_energized_status_reachable (g : GridNetwork) :
  bus_ids_nonneg g → lines_on_buses g →
  (∀ b, b ∈ Nx.nodes (G g) →
        (get_energized_status g !! b = Some 1 ↔ energized g b)
        ∧ (get_energized_status g !! b = Some 0 ↔ ¬ energized g b))
  ∧ (∀ b, b ∉ Nx.nodes (G g) → get_energized_status g !! b = None)
  ∧ (ext_grid_bus g ∉ Nx.nodes (G g) →
     ∀ b, b ∈ Nx.nodes (G g) → get_energized_status g !! b = Some 0).
Proof.
  intros Hpos Hl. split; [|split].
  - intros b Hb. by apply status_of_bus.
  - intros b Hb. unfold get_energized_status.
    destruct (_ || _); rewrite lookup_status, bool_decide_eq_false_2; done.
  - intros Hsrcout b Hb. apply status_of_bus; [done..|].
    intros Hp. apply Hsrcout. by apply (energized_on_buses g b).
Qed.

Lemma get_energized_status_reachable_witness :
  get_energized_status (Demo.cut (Demo.path 5) 2%nat) !! 2 = Some 1
  ∧ energized (Demo.cut (Demo.path 5) 2%nat) 2
  ∧ get_energized_status (Demo.cut (Demo.path 5) 2%nat) !! 3 = Some 0
  ∧ ¬ energized (Demo.cut (Demo.path 5) 2%nat) 3.
Proof.
  destruct (get_energized_status_reachable (Demo.cut (Demo.path 5) 2%nat))
    as (Hmain & _ & _).
  - unfold bus_ids_nonneg. by_compute.
  - unfold lines_on_buses. by_compute.
  - assert (get_energized_status (Demo.cut (Demo.path 5) 2%nat) !! 2 = Some 1)
      as H2 by (vm_compute; reflexivity).
    assert (get_energized_status (Demo.cut (Demo.path 5) 2%nat) !! 3 = Some 0)
      as H3 by (vm_compute; reflexivity).
    assert (2 ∈ Nx.nodes (G (Demo.cut (Demo.path 5) 2%nat))) as Hin2
      by by_compute.
    assert (3 ∈ Nx.nodes (G (Demo.cut (Demo.path 5) 2%nat))) as Hin3
      by by_compute.
    split; [exact H2|]. split; [by apply (Hmain 2 Hin2)|].
    split; [exact H3|]. by apply (Hmain 3 Hin3).
Defined.

(** ** C3: [place_sensors_sqrt_n] *)

Lemma ceil_sqrt_spec n :
  (0 < n)%nat →
  (0 < ceil_sqrt n ∧ n ≤ ceil_sqrt n * ceil_sqrt n
   ∧ (ceil_sqrt n - 1) * (ceil_sqrt n - 1) < n)%nat.
Proof.
  intros Hn. unfold ceil_sqrt.
  pose proof (Nat.sqrt_spec n ltac:(lia)) as [Hlo Hhi].
  destruct (Nat.eqb_spec (Nat.sqrt n * Nat.sqrt n) n) as [Heq|Hne].
  - assert (0 < Nat.sqrt n)%nat by (destruct (Nat.sqrt n); simpl in *; lia).
    split; [done|]. split; [lia|]. nia.
  - split; [lia|]. split; [lia|].
    replace (S (Nat.sqrt n) - 1)%nat with (Nat.sqrt n) by lia. lia.
Qed.

Lemma ceil_div_0 k : (0 < k)%nat → ceil_div 0 k = 0%nat.
Proof. intros. unfold ceil_div. apply Nat.div_small. lia. Qed.

Lemma ceil_div_step m k :
  (0 < m)%nat → (0 < k)%nat → ceil_div m k = S (ceil_div (m - k) k).
Proof.
  intros Hm Hk. unfold ceil_div. destruct (decide (k ≤ m)%nat) as [Hle|Hlt].
  - replace (m + k - 1)%nat with ((m - k + k - 1) + 1 * k)%nat by lia.
    rewrite Nat.div_add by lia. lia.
  - replace (m - k)%nat with 0%nat by lia.
    rewrite (Nat.div_small (0 + k - 1)) by lia.
    symmetry. apply (Nat.div_unique _ _ 1 (m - 1))%nat; lia.
Qed.

Lemma blocks_from_spec (l : list Z) k :
  (0 < k)%nat →
  ∀ fuel i, (length l - i ≤ fuel)%nat →
    concat (blocks_from l fuel i k) = drop i l
    ∧ length (blocks_from l fuel i k) = ceil_div (length l - i) k
    ∧ (∀ j b, blocks_from l fuel i k !! j = Some b →
              (1 ≤ length b ≤ k)%nat
              ∧ ((S j < length (blocks_from l fuel i k))%nat → length b = k)).
Proof.
  intros Hk fuel. unfold blocks_from.
  induction fuel as [|fuel IH]; intros i Hfuel.
  - simpl. rewrite drop_ge by lia.
    replace (length l - i)%nat with 0%nat by lia.
    rewrite ceil_div_0 by done. repeat split; try done.
  - simpl. destruct (Nat.ltb_spec i (length l)) as [Hi|Hi].
    + destruct (IH (i + k)%nat ltac:(lia)) as (Hcat & Hlen & Hblk).
      rewrite fmap_cons. simpl. rewrite Hcat, Hlen.
      assert (length (slice l i (i + k)) = Nat.min k (length l - i)) as Hsl.
      { unfold slice. rewrite length_take, length_drop. lia. }
      split; [|split].
      * unfold slice. replace (i + k - i)%nat with k by lia.
        rewrite <-(take_drop k (drop i l)) at 2. by rewrite drop_drop.
      * rewrite (ceil_div_step (length l - i) k) by lia.
        do 2 f_equal. lia.
      * intros [|j] b Hb; simpl in Hb.
        -- injection Hb as <-. rewrite Hsl. split; [lia|].
           intros Hmore.
           destruct (decide (k ≤ length l - i)%nat); [lia|].
           exfalso. revert Hmore.
           replace (length l - (i + k))%nat with 0%nat by lia.
           rewrite ceil_div_0 by done. lia.
        -- destruct (Hblk j b Hb) as [Hsz Hfull]. split; [done|].
           intros Hmore. apply Hfull. rewrite Hlen. lia.
    + rewrite drop_ge by lia.
      replace (length l - i)%nat with 0%nat by lia.
      rewrite ceil_div_0 by done. repeat split; try done.
Qed.

Lemma getitem_last {A} (l : list A) (x : A) :
  last l = Some x → getitem l (-1) = Ret x.
Proof.
  intros Hlast. unfold getitem. simpl.
  assert (0 < length l)%nat as Hlen by (destruct l; simpl; [done|lia]).
  destruct (Z.leb_spec 0 (Z.of_nat (length l) + -1)) as [_|?]; [|lia].
  destruct (Z.ltb_spec (Z.of_nat (length l) + -1) (Z.of_nat (length l))) as [_|?];
    [|lia].
  simpl. rewrite last_lookup in Hlast.
  replace (Z.to_nat (Z.of_nat (length l) + -1)) with (Nat.pred (length l)) by lia.
  by rewrite Hlast.
Qed.

Lemma mapM_py_Ret {A B} (f : A → py B) (h : A → option B) (l : list A) :
  (∀ a, a ∈ l → ∃ b, h a = Some b ∧ f a = Ret b) →
  ∃ bs, mapM f l = Ret bs ∧ length bs = length l
        ∧ ∀ i a, l !! i = Some a → bs !! i = h a.
Proof.
  induction l as [|a l IH]; intros Hall.
  - exists []. repeat split; try done.
  - destruct (Hall a ltac:(left)) as (b & Hb & Hfa).
    destruct IH as (bs & Hbs & Hlen & Hnth).
    { intros a' Ha'. apply Hall. by right. }
    exists (b :: bs). split; [|split].
    + simpl. rewrite Hfa. simpl. rewrite Hbs. done.
    + simpl. by rewrite Hlen.
    + intros [|i] a' Ha'; simpl in *.
      * by injection Ha' as <-.
      * by apply Hnth.
Qed.

Lemma visit_order_connected G s :
  nx_graph G → connected G → s ∈ Nx.nodes G →
  Traversal.visit_order G s ≡ₚ Nx.nodes G.
Proof.
  intros (Hnd & Hcl & _) Hconn Hs.
  destruct (visit_order_spec G s Hcl Hs) as (Hnd' & Hsub & Hreach & _).
  apply NoDup_Permutation; [done..|].
  intros x. split; [apply Hsub|]. intros Hx. apply Hreach. by apply Hconn.
Qed.

(** C3.  On a grid whose full graph is connected and whose source is one
    of its [n >= 1] buses, [place_sensors_sqrt_n] returns [ceil(n / k)]
    blocks for [k = ceil(sqrt(n))]; every block but the last has [k] buses
    and the last between 1 and [k]; the blocks put end to end are the
    depth-first preorder of the full graph from the source, which lists
    every bus once; and the sensor of a block is its last bus.  Depth
    first: the order starts with the source, each later bus is the first
    neighbour not yet listed, in adjacency order, of the last listed bus
    that still has one, and no listed bus has a neighbour left out; no
    other order has these properties. *)
Theorem place_sensors_sqrt_n_blocks (g : GridNetwork) :
  nx_graph (G g) → bus_ids_nonneg g →
  connected (G g) → ext_grid_bus g ∈ Nx.nodes (G g) →
  let n := length (Nx.nodes (G g)) in
  let k := ceil_sqrt n in
  (n ≤ k * k ∧ (k - 1) * (k - 1) < n)%nat
  ∧ ∃ sensors blocks ordering,
      place_sensors_sqrt_n g = Ret (sensors, blocks)
      ∧ Traversal.dfs_preorder_nodes (G g) (ext_grid_bus g) = Ret ordering
      ∧ length blocks = ceil_div n k
      ∧ (∀ i b, blocks !! i = Some b →
                (1 ≤ length b ≤ k)%nat
                ∧ ((S i < length blocks)%nat → length b = k))
      ∧ concat blocks = ordering
      ∧ depth_first_preorder (G g) (ext_grid_bus g) (concat blocks)
      ∧ (∀ order, depth_first_preorder (G g) (ext_grid_bus g) order →
                  order = concat blocks)
      ∧ ordering ≡ₚ Nx.nodes (G g)
      ∧ NoDup (concat blocks)
      ∧ length sensors = length blocks
      ∧ (∀ i b, blocks !! i = Some b → sensors !! i = last b).
Proof.
  intros Hwf Hpos Hconn Hsrc n k.
  assert (0 < n)%nat as Hn.
  { unfold n. destruct (Nx.nodes (G g)); [by apply elem_of_nil in Hsrc|simpl; lia]. }
  destruct (ceil_sqrt_spec n Hn) as (Hk & Hksq & Hksq').
  split; [done|].
  pose proof (visit_order_connected _ _ Hwf Hconn Hsrc) as Hperm.
  assert (length (Traversal.visit_order (G g) (ext_grid_bus g)) = n) as Hlen
    by by rewrite Hperm.
  unfold place_sensors_sqrt_n, Traversal.dfs_preorder_nodes, Nx.has_node.
  unfold bus_ids_nonneg in Hpos. rewrite Forall_forall in Hpos.
  destruct (Z.ltb_spec (ext_grid_bus g) 0) as [?|_];
    [specialize (Hpos _ Hsrc); lia|].
  rewrite bool_decide_eq_true_2 by done. simpl.
  rewrite Hlen. destruct (Nat.eqb_spec n 0) as [?|_]; [lia|].
  fold k.
  set (ordering := Traversal.visit_order (G g) (ext_grid_bus g)) in *.
  assert ((λ i, slice ordering i (i + k)) <$> range_step n 0 n k
          = blocks_from ordering n 0 k) as ->
    by (unfold blocks_from; by rewrite Hlen).
  destruct (blocks_from_spec ordering k Hk n 0 ltac:(lia)) as (Hcat & Hnum & Hblk).
  rewrite drop_0 in Hcat. rewrite Nat.sub_0_r, Hlen in Hnum.
  destruct (mapM_py_Ret (λ block : list Z, getitem block (-1)) last
              (blocks_from ordering n 0 k)) as (sensors & -> & Hslen & Hsnth).
  { intros b [j Hj]%list_elem_of_lookup.
    destruct (Hblk j b Hj) as [[Hb1 _] _].
    destruct (last b) as [x|] eqn:Hlast.
    - exists x. split; [done|]. by apply getitem_last.
    - apply last_None in Hlast. subst b. simpl in Hb1. lia. }
  simpl. exists sensors, (blocks_from ordering n 0 k), ordering.
  destruct Hwf as (_ & Hcl & _).
  pose proof (visit_order_depth_first _ _ Hcl Hsrc) as Hdfs.
  fold ordering in Hdfs.
  split; [done|]. split; [done|]. split; [done|]. split; [done|].
  split; [done|]. rewrite Hcat.
  split; [done|]. split.
  { intros order Horder. by apply (depth_first_preorder_unique (G g) (ext_grid_bus g)). }
  split; [done|]. split; [|done].
  by destruct (visit_order_spec _ _ Hcl Hsrc).
Qed.

(** ** Well-formed graphs *)

Lemma nodes_add_node G u :
  Nx.nodes (Nx.add_node G u) =
  if bool_decide (u ∈ Nx.nodes G) then Nx.nodes G else Nx.nodes G ++ [u].
Proof.
  unfold Nx.add_node, Nx.has_node. case_bool_decide; [done|].
  unfold Nx.nodes. by rewrite fmap_app.
Qed.

Lemma NoDup_nodes_add_node G u :
  NoDup (Nx.nodes G) → NoDup (Nx.nodes (Nx.add_node G u)).
Proof.
  intros Hnd. rewrite nodes_add_node. case_bool_decide as Hu; [done|].
  apply NoDup_app. repeat split; [done| |apply NoDup_singleton].
  by intros x Hx ->%list_elem_of_singleton.
Qed.

Lemma nx_graph_nil : nx_graph [].
Proof.
  repeat split; [apply NoDup_nil_2|..]; intros u v Huv; by apply elem_of_nil in Huv.
Qed.

Lemma nx_graph_add_node G u : nx_graph G → nx_graph (Nx.add_node G u).
Proof.
  intros (Hnd & Hcl & Hsym). split; [|split].
  - by apply NoDup_nodes_add_node.
  - by apply adj_closed_add_node.
  - intros x y. unfold adj. rewrite !neighbors_add_node. apply Hsym.
Qed.

Lemma nx_graph_add_edge G u v : nx_graph G → nx_graph (Nx.add_edge G u v).
Proof.
  intros (Hnd & Hcl & Hsym). split; [|split].
  - unfold Nx.add_edge. rewrite !nodes_link.
    by do 2 apply NoDup_nodes_add_node.
  - by apply adj_closed_add_edge.
  - intros x y. rewrite !adj_add_edge.
    intros [?|[[-> ->]|[-> ->]]]; auto.
Qed.

Lemma nx_graph_add_nodes_from G us : nx_graph G → nx_graph (Nx.add_nodes_from G us).
Proof.
  unfold Nx.add_nodes_from. revert G.
  induction us as [|u us IH]; intros G HG; [done|].
  simpl. by apply IH, nx_graph_add_node.
Qed.

Lemma nx_graph_add_edges G (es : list (Z * Z)) :
  nx_graph G → nx_graph (foldl (λ G e, Nx.add_edge G e.1 e.2) G es).
Proof.
  revert G. induction es as [|e es IH]; intros G HG; [done|].
  simpl. by apply IH, nx_graph_add_edge.
Qed.

Lemma rtc_sym {A} (R : relation A) x y :
  (∀ a b, R a b → R b a) → rtc R x y → rtc R y x.
Proof.
  intros Hsym Hp. induction Hp as [|x y z Hxy _ IH]; [done|].
  eapply rtc_r; [done|]. by apply Hsym.
Qed.

(** A graph in which the search from one node meets every node is
    connected. *)
Lemma connected_by_search G s :
  nx_graph G → s ∈ Nx.nodes G →
  Forall (λ x, x ∈ Traversal.visit_order G s) (Nx.nodes G) →
  connected G.
Proof.
  intros (_ & Hcl & Hsym) Hs Hall u v Hu Hv.
  rewrite Forall_forall in Hall.
  destruct (visit_order_spec G s Hcl Hs) as (_ & _ & Hreach & _).
  transitivity s.
  - apply rtc_sym; [done|]. by apply Hreach, Hall.
  - by apply Hreach, Hall.
Qed.

Lemma nx_graph_demo buses edges source :
  nx_graph (G (Demo.grid_of buses edges source)).
Proof.
  simpl. apply nx_graph_add_edges, nx_graph_add_nodes_from, nx_graph_nil.
Qed.

Lemma place_sensors_sqrt_n_blocks_witness :
  place_sensors_sqrt_n
    (Demo.grid_of [0; 1; 2; 3; 4; 5] [(2, 3); (3, 4); (4, 0); (0, 1); (2, 5)] 2)
  = Ret ([4; 5], [[2; 3; 4]; [0; 1; 5]])
  ∧ depth_first_preorder
      (G (Demo.grid_of [0; 1; 2; 3; 4; 5]
                       [(2, 3); (3, 4); (4, 0); (0, 1); (2, 5)] 2))
      2 [2; 3; 4; 0; 1; 5]
  ∧ ¬ depth_first_preorder
        (G (Demo.grid_of [0; 1; 2; 3; 4; 5]
                         [(2, 3); (3, 4); (4, 0); (0, 1); (2, 5)] 2))
        2 [2; 3; 5; 4; 0; 1].
Proof.
  assert (place_sensors_sqrt_n
            (Demo.grid_of [0; 1; 2; 3; 4; 5]
                          [(2, 3); (3, 4); (4, 0); (0, 1); (2, 5)] 2)
          = Ret ([4; 5], [[2; 3; 4]; [0; 1; 5]])) as Hrun0
    by (vm_compute; reflexivity).
  destruct (place_sensors_sqrt_n_blocks
              (Demo.grid_of [0; 1; 2; 3; 4; 5]
                            [(2, 3); (3, 4); (4, 0); (0, 1); (2, 5)] 2))
    as (_ & sensors & blocks & ordering & Hrun & _ & _ & _ & _ & Hdfs & Huniq & _).
  - apply nx_graph_demo.
  - unfold bus_ids_nonneg. by_compute.
  - apply (connected_by_search _ 2); [apply nx_graph_demo|by_compute|by_compute].
  - by_compute.
  - rewrite Hrun0 in Hrun. injection Hrun as <- <-.
    split; [exact Hrun0|]. split; [exact Hdfs|].
    intros Hbad. apply Huniq in Hbad. discriminate Hbad.
Defined.

(** The plan of the nine-bus path, as the code computes it. *)
Example place_sensors_path9 :
  place_sensors_sqrt_n (Demo.path 9)
  = Ret ([2; 5; 8], [[0; 1; 2]; [3; 4; 5]; [6; 7; 8]]).
Proof. vm_compute. reflexivity. Qed.

(** ** C8: [parse_voltage_kv] *)





Lemma mapM_py_inv {A B} (f : A → py B) (l : list A) :
  match mapM f l with
  | Ret bs => Forall2 (λ a b, f a = Ret b) l bs
  | Raise e => ∃ a, a ∈ l ∧ f a = Raise e
  end.
Proof.
  induction l as [|a l IH]; simpl; [constructor|].
  destruct (f a) as [b|e] eqn:Hfa; simpl.
  - destruct (mapM f l) as [bs|e]; simpl.
    + by constructor.
    + destruct IH as (a' & Ha' & Hf). exists a'. split; [by right|done].
  - exists a. split; [left|done].
Qed.

Lemma read_digits_raises st cs e :
  PyStr.read_digits st cs = Raise e → e = ValueError.
Proof.
  revert st. induction cs as [|c cs IH]; intros st; simpl; [done|].
  destruct (PyStr.is_decimal c); [apply IH|].
  destruct (_ && _); [apply IH|]. by intros [= <-].
Qed.

Lemma to_float_raises cs e : PyStr.to_float cs = Raise e → e = ValueError.
Proof.
  unfold PyStr.to_float.
  destruct (PyStr.read_digits _ cs) as [st|e'] eqn:Hrd; simpl.
  - destruct (existsb _ cs); [done|]. by intros [= <-].
  - intros [= <-]. by eapply read_digits_raises.
Qed.




(** The parsing that the specification words gives the four results of
    its examples. *)
Example spec_parse_voltage_examples :
  spec_parse_voltage "" = PyFloat.of_Z 11
  ∧ spec_parse_voltage "400000" = PyFloat.of_Z 400
  ∧ spec_parse_voltage "11000;33000" = PyFloat.of_Z 33
  ∧ spec_parse_voltage "abc" = PyFloat.of_Z 11.
Proof. repeat split; by vm_compute. Qed.


(** A token with two points is not ignored: it sends the whole string to
    the default. *)
Example parse_voltage_kv_two_points :
  parse_voltage_kv "33000;1.2.3" = Ret (PyFloat.of_Z 11)
  ∧ spec_parse_voltage "33000;1.2.3" = PyFloat.of_Z 33.
Proof. split; by vm_compute. Qed.

(** ** The builder: what every step keeps true *)

Lemma for_each_inv {A S} (f : S → A → py S) (P : S → Prop) xs :
  (∀ st x st', x ∈ xs → P st → f st x = Ret st' → P st') →
  ∀ st st', P st → for_each f st xs = Ret st' → P st'.
Proof.
  induction xs as [|x xs IH]; intros Hstep st st' HP Hrun; simpl in Hrun.
  - by injection Hrun as <-.
  - destruct (f st x) as [st1|e] eqn:Hf; simpl in Hrun; [|done].
    apply (IH (λ st x st', Hstep st x st' ∘ list_elem_of_further _ _ _) st1); [|done].
    apply (Hstep st x); [left|done..].
Qed.

Lemma nodes_add_edge_present G u v :
  u ∈ Nx.nodes G → v ∈ Nx.nodes G → Nx.nodes (Nx.add_edge G u v) = Nx.nodes G.
Proof.
  intros Hu Hv. unfold Nx.add_edge. rewrite !nodes_link, !nodes_add_node.
  rewrite (bool_decide_eq_true_2 _ Hu), (bool_decide_eq_true_2 _ Hv). done.
Qed.

Lemma lines_on_buses_of_match g :
  nx_graph (G g) → lines_match g → lines_on_buses g.
Proof.
  intros (_ & Hcl & Hsym) Hm. apply Forall_forall. intros l Hl.
  assert (adj (G g) (from_bus l) (to_bus l)) as Hadj.
  { apply Hm. exists l. split; [done|]. apply joins_spec. by left. }
  split; [apply (Hcl (to_bus l)); by apply Hsym | by apply (Hcl (from_bus l))].
Qed.

Lemma reindex_spec h refs :
  NoDup refs →
  (∀ i r, refs !! i = Some r → reindex h refs r = set_idx (Z.of_nat i) (h r))
  ∧ (∀ r, r ∉ refs → reindex h refs r = h r).
Proof.
  unfold reindex.
  assert (∀ (k : nat) refs h, NoDup refs →
    let h' := foldl (λ h '(i, r), store_set h r (set_idx (Z.of_nat i) (h r)))
                    h (imap (λ i r, (k + i, r)%nat) refs) in
    (∀ i r, refs !! i = Some r → h' r = set_idx (Z.of_nat (k + i)) (h r))
    ∧ (∀ r, r ∉ refs → h' r = h r)) as Hgen.
  { clear. intros k refs. revert k.
    induction refs as [|r0 refs IH]; intros k h Hnd; simpl.
    - split; [done|done].
    - apply NoDup_cons in Hnd as [Hr0 Hnd].
      rewrite (imap_ext _ (λ i r, (S k + i, r)%nat)) by (intros; simpl; f_equal; lia).
      destruct (IH (S k) (store_set h r0 (set_idx (Z.of_nat (k + 0)) (h r0))) Hnd)
        as [Hin Hout].
      split.
      + intros [|i] r Hr; simpl in Hr.
        * injection Hr as <-. rewrite Hout by done. by rewrite store_set_eq.
        * rewrite (Hin i r Hr).
          rewrite store_set_ne.
          -- do 2 f_equal. lia.
          -- intros ->. apply Hr0. by eapply list_elem_of_lookup_2.
      + intros r Hr. apply not_elem_of_cons in Hr as [Hne Hr].
        rewrite Hout by done. by apply store_set_ne. }
  intros Hnd. apply (Hgen 0%nat refs h Hnd).
Qed.

Lemma set_idx_fields i l :
  from_bus (set_idx i l) = from_bus l ∧ to_bus (set_idx i l) = to_bus l
  ∧ in_service (set_idx i l) = in_service l ∧ idx (set_idx i l) = i
  ∧ length_km (set_idx i l) = length_km l.
Proof. done. Qed.

Lemma getitem_elem {A} (l : list A) (i : Z) (a : A) :
  getitem l i = Ret a → a ∈ l.
Proof.
  unfold getitem. destruct (_ && _); [|done].
  destruct (l !! _) as [a'|] eqn:Hl; [|done].
  intros [= <-]. by eapply list_elem_of_lookup_2.
Qed.

Lemma seq_Z_snoc (n : Z) :
  0 ≤ n →
  Z.of_nat <$> seq 0 (Z.to_nat (n + 1)) = (Z.of_nat <$> seq 0 (Z.to_nat n)) ++ [n].
Proof.
  intros Hn. replace (Z.to_nat (n + 1)) with (S (Z.to_nat n)) by lia.
  rewrite seq_S, fmap_app. simpl. do 2 f_equal. lia.
Qed.

Lemma not_elem_of_seq_Z (n : Z) : n ∉ Z.of_nat <$> seq 0 (Z.to_nat n).
Proof.
  intros (i & -> & Hi)%list_elem_of_fmap. apply elem_of_seq in Hi. lia.
Qed.

Section BuilderProofs.

Context {Key : Type} `{Countable Key}.
Variable round_key : float → float → Key.
Variable math_radians : float → float.
Variable math_sin math_cos math_sqrt : float → py float.
Variable math_atan2 : float → float → float.
Variable square : float → float.
Variable format_float : float → string.

Local Abbreviation visit_segment' :=
  (visit_segment math_radians math_sin math_cos math_sqrt math_atan2 square
                 format_float).
Local Abbreviation visit_feature' :=
  (visit_feature round_key math_radians math_sin math_cos math_sqrt math_atan2
                 square format_float).
Local Abbreviation build' :=
  (build_grid_from_geojson round_key math_radians math_sin math_cos math_sqrt
                           math_atan2 square format_float).
Local Abbreviation build_lines' :=
  (build_lines round_key math_radians math_sin math_cos math_sqrt math_atan2
               square format_float).

Lemma build_inv_init : build_inv (mkBuild empty_grid (∅ : gmap Key Z) 0 0).
Proof.
  split; simpl; try done.
  split; simpl.
  - apply nx_graph_nil.
  - by apply Forall_nil.
  - apply NoDup_nil_2.
  - done.
  - by intros r ?%elem_of_nil.
  - intros x y. split; [by intros ?%elem_of_nil|].
    by intros (l & ?%elem_of_nil & _).
Qed.

Lemma visit_coord_inv voltage_kv st coord :
  coords_inv st → coords_inv (visit_coord round_key voltage_kv st coord).
Proof.
  destruct st as [b ids]. intros [Hb Hids]. simpl in Hb, Hids.
  unfold visit_coord.
  destruct coord as [|lon [|lat ?]]; [done..|].
  destruct (coord_to_bus b !! round_key lon lat) as [bid|] eqn:Hkey.
  - split; [done|]. simpl. apply Forall_app. split; [done|].
    apply Forall_singleton. by eapply bi_c2b.
  - destruct Hb as [[Hg Hids' Hrefs Hidx Hlive Hlines] Hseq Hnodes Hcnt Hli Hc2b].
    assert (bus_counter b ∉ Nx.nodes (G (grid b))) as Hfresh
      by (rewrite Hnodes; apply not_elem_of_seq_Z).
    assert (Nx.nodes (Nx.add_node (G (grid b)) (bus_counter b))
            = Nx.nodes (G (grid b)) ++ [bus_counter b]) as Hnodes'.
    { rewrite nodes_add_node. by rewrite bool_decide_eq_false_2. }
    split.
    + split; simpl; try done.
      * split; simpl; try done.
        -- by apply nx_graph_add_node.
        -- unfold bus_ids_nonneg. simpl. rewrite Hnodes'.
           apply Forall_app. split; [done|]. by apply Forall_singleton.
        -- intros x y. unfold adj. simpl. rewrite neighbors_add_node. apply Hlines.
      * rewrite Hnodes', Hnodes. by rewrite seq_Z_snoc.
      * lia.
      * intros k v. rewrite Hnodes', elem_of_app, list_elem_of_singleton.
        intros [[_ <-]|[_ Hv]]%lookup_insert_Some; [by right|].
        left. by eapply Hc2b.
    + simpl. rewrite Hnodes'. apply Forall_app. split.
      * eapply Forall_impl; [done|]. intros v Hv. simpl in Hv.
        apply elem_of_app. by left.
      * apply Forall_singleton, elem_of_app. right. left.
Qed.

Lemma visit_coords_inv voltage_kv coords st :
  coords_inv st → coords_inv (foldl (visit_coord round_key voltage_kv) st coords).
Proof.
  revert st. induction coords as [|c coords IH]; intros st Hst; [done|].
  apply IH. by apply visit_coord_inv.
Qed.

Lemma fmap_store_snoc (h : ref → Line) (refs : list ref) (m : ref) (l : Line) :
  m ∉ refs → store_set h m l <$> (refs ++ [m]) = (h <$> refs) ++ [l].
Proof.
  intros Hm. rewrite fmap_app. simpl. rewrite store_set_eq. f_equal.
  apply list_fmap_ext. intros i r Hr. apply store_set_ne.
  intros ->. apply Hm. by eapply list_elem_of_lookup_2.
Qed.

Lemma visit_segment_inv feat_id power_type voltage_kv ids (b : @Build Key _ _) i b' :
  build_inv b → Forall (λ v, v ∈ Nx.nodes (G (grid b))) ids →
  visit_segment' feat_id power_type voltage_kv ids b i = Ret b' →
  build_inv b' ∧ Nx.nodes (G (grid b')) = Nx.nodes (G (grid b)).
Proof.
  intros Hb Hids. unfold visit_segment.
  destruct (getitem ids (Z.of_nat i)) as [fb|] eqn:Hfb; simpl; [|done].
  destruct (getitem ids (Z.of_nat i + 1)) as [tb|] eqn:Htb; simpl; [|done].
  case_bool_decide as Hne; [by intros [= <-]|].
  destruct (dict_get _ fb) as [geo_fb|]; simpl; [|done].
  destruct (dict_get _ tb) as [geo_tb|]; simpl; [|done].
  destruct (_haversine _ _ _ _ _ _ _ _ _ _) as [distance|]; simpl; [|done].
  intros [= <-].
  rewrite Forall_forall in Hids.
  pose proof (Hids _ (getitem_elem _ _ _ Hfb)) as Hfbn.
  pose proof (Hids _ (getitem_elem _ _ _ Htb)) as Htbn.
  destruct Hb as [[Hg Hids' Hrefs Hidx Hlive Hlines] Hseq Hnodes Hcnt Hli Hc2b].
  pose proof (nodes_add_edge_present _ _ _ Hfbn Htbn) as Hsame.
  set (line_info := mkLine _ _ _ _ _ _ _ _).
  split; [|done].
  split; simpl; try done.
  - split; simpl.
    + by apply nx_graph_add_edge.
    + unfold bus_ids_nonneg. simpl. by rewrite Hsame.
    + rewrite Hseq, length_seq, <-seq_S. apply NoDup_seq.
    + intros j r Hr. apply lookup_app_Some in Hr as [Hr|[Hj Hr]].
      * rewrite store_set_ne; [by apply Hidx|].
        apply lookup_lt_Some in Hr as Hlt. rewrite Hseq in Hr.
        apply lookup_seq in Hr as [-> _]. lia.
      * apply list_lookup_singleton_Some in Hr as [Hj' <-].
        rewrite store_set_eq. simpl. rewrite Hli. f_equal. lia.
    + intros r [Hr| ->%list_elem_of_singleton]%elem_of_app.
      * rewrite store_set_ne; [by apply Hlive|].
        rewrite Hseq in Hr. apply elem_of_seq in Hr. lia.
      * by rewrite store_set_eq.
    + intros x y. unfold lines. simpl. rewrite fmap_store_snoc.
      2:{ rewrite Hseq, elem_of_seq, length_seq. lia. }
      fold (lines (grid b)). rewrite adj_add_edge, (Hlines x y). split.
      * intros [(l & Hl & Hj)|Hnew].
        -- exists l. split; [|done]. apply elem_of_app. by left.
        -- exists line_info. split; [apply elem_of_app; right; left|].
           apply joins_spec. simpl. naive_solver.
      * intros (l & [Hl| ->%list_elem_of_singleton]%elem_of_app & Hj).
        -- left. by exists l.
        -- right. apply joins_spec in Hj. simpl in Hj. naive_solver.
  - by rewrite length_app, Hseq, length_seq, <-seq_S, Nat.add_1_r.
  - by rewrite Hsame.
  - rewrite Hli, length_app. simpl. lia.
  - intros k v Hk. rewrite Hsame. by eapply Hc2b.
Qed.

Lemma visit_feature_inv b item b' :
  build_inv b → visit_feature' b item = Ret b' → build_inv b'.
Proof.
  intros Hb. unfold visit_feature. destruct item as [feat_i feat].
  destruct (parse_voltage_kv _) as [voltage_kv|]; simpl; [|done].
  destruct (_ <? _)%nat; [by intros [= <-]|].
  destruct (visit_coords_inv voltage_kv (lf_coordinates feat) (b, []))
    as [Hb1 Hids]; [by split|].
  destruct (foldl _ _ _) as [b1 ids]. simpl in Hb1, Hids.
  intros Hrun.
  enough (build_inv b' ∧ Nx.nodes (G (grid b')) = Nx.nodes (G (grid b1)))
    as [? _] by done.
  eapply (for_each_inv _
            (λ st, build_inv st ∧ Nx.nodes (G (grid st)) = Nx.nodes (G (grid b1))));
    [|split; [exact Hb1|reflexivity]|exact Hrun].
  intros st x st' _ [Hst Hn] Hstep.
  apply visit_segment_inv in Hstep as [Hst' Hn']; [|done|by rewrite Hn].
  split; [done|]. by rewrite Hn'.
Qed.

(** *** Pruning *)

Lemma nodes_remove_nodes_from G rm :
  Nx.nodes (Nx.remove_nodes_from G rm) = filter (λ v, v ∉ rm) (Nx.nodes G).
Proof.
  unfold Nx.nodes, Nx.remove_nodes_from.
  induction G as [|[n nbrs] G IH]; [done|].
  rewrite fmap_cons, !filter_cons. simpl.
  case_decide; [rewrite !fmap_cons; simpl; by rewrite IH|done].
Qed.

Lemma neighbors_remove_nodes_from G rm x :
  Nx.neighbors (Nx.remove_nodes_from G rm) x =
  if bool_decide (x ∈ rm) then [] else filter (λ v, v ∉ rm) (Nx.neighbors G x).
Proof.
  unfold Nx.remove_nodes_from.
  induction G as [|[n nbrs] G IH].
  - simpl. by case_bool_decide.
  - rewrite filter_cons. simpl. destruct (decide (n ∉ rm)) as [Hn|Hn].
    + rewrite fmap_cons. simpl. destruct (decide (n = x)) as [->|Hnx].
      * rewrite !bool_decide_eq_true_2 by done.
        by rewrite bool_decide_eq_false_2.
      * rewrite !(bool_decide_eq_false_2 (n = x)) by done. apply IH.
    + rewrite IH. destruct (decide (x ∈ rm)) as [Hx|Hx].
      * by rewrite !bool_decide_eq_true_2.
      * rewrite !(bool_decide_eq_false_2 (x ∈ rm)) by done.
        rewrite bool_decide_eq_false_2; [done|]. intros ->. by apply Hn.
Qed.

Lemma adj_remove_nodes_from G rm x y :
  adj (Nx.remove_nodes_from G rm) x y ↔ (x ∉ rm) ∧ (y ∉ rm) ∧ adj G x y.
Proof.
  unfold adj. rewrite neighbors_remove_nodes_from.
  case_bool_decide as Hx.
  - split; [by intros ?%elem_of_nil|]. by intros (? & _).
  - rewrite list_elem_of_filter. tauto.
Qed.

Lemma filter_ext_elem {A} (P Q : A → Prop) `{∀ x, Decision (P x)}
    `{∀ x, Decision (Q x)} (l : list A) :
  (∀ x, x ∈ l → (P x ↔ Q x)) → filter P l = filter Q l.
Proof.
  induction l as [|a l IH]; intros HPQ; [done|].
  rewrite !filter_cons.
  rewrite IH by (intros x Hx; apply HPQ; by right).
  destruct (decide (P a)) as [HP|HP], (decide (Q a)) as [HQ|HQ]; try done.
  - exfalso. apply HQ. by apply (HPQ a); [left|].
  - exfalso. apply HP. by apply (HPQ a); [left|].
Qed.

Lemma nodes_keep_largest g :
  Nx.nodes (G (keep_largest g))
  = filter (λ v, v ∈ largest_component (G g)) (Nx.nodes (G g)).
Proof.
  unfold keep_largest. simpl. rewrite nodes_remove_nodes_from.
  apply filter_ext_elem. intros x Hx.
  rewrite elem_of_elements, elem_of_difference, elem_of_list_to_set.
  destruct (decide (x ∈ largest_component (G g))); tauto.
Qed.

Lemma filter_fmap_elem {A B} (f : A → B) (P : B → Prop) (Q : A → Prop)
    `{∀ y, Decision (P y)} `{∀ x, Decision (Q x)} (l : list A) :
  (∀ x, x ∈ l → (Q x ↔ P (f x))) → filter P (f <$> l) = f <$> filter Q l.
Proof.
  induction l as [|a l IH]; intros HPQ; [done|].
  rewrite fmap_cons, !filter_cons.
  rewrite IH by (intros x Hx; apply HPQ; by right).
  pose proof (HPQ a ltac:(left)) as Ha.
  destruct (decide (P (f a))) as [HP|HP], (decide (Q a)) as [HQ|HQ];
    try done; tauto.
Qed.

Lemma filter_all {A} (P : A → Prop) `{∀ x, Decision (P x)} (l : list A) :
  (∀ x, x ∈ l → P x) → filter P l = l.
Proof.
  induction l as [|a l IH]; intros HP; [done|].
  rewrite filter_cons_True by (apply HP; left).
  f_equal. apply IH. intros x Hx. apply HP. by right.
Qed.

Lemma imap_set_idx_id (ls : list Line) :
  idx <$> ls = Z.of_nat <$> seq 0 (length ls) →
  imap (λ i l, set_idx (Z.of_nat i) l) ls = ls.
Proof.
  intros Hidx. apply list_eq. intros i. rewrite list_lookup_imap.
  destruct (ls !! i) as [l|] eqn:Hl; [|done]. simpl. f_equal.
  assert ((idx <$> ls) !! i = Some (idx l)) as Hi
    by by rewrite list_lookup_fmap, Hl.
  rewrite Hidx, list_lookup_fmap in Hi.
  rewrite (lookup_seq_lt _ _ _ (lookup_lt_Some _ _ _ Hl)) in Hi.
  simpl in Hi. injection Hi as Hi. rewrite Hi. by destruct l.
Qed.

Lemma grid_ok_indices g :
  grid_ok g → idx <$> lines g = Z.of_nat <$> seq 0 (length (line_list g)).
Proof.
  intros Hok. apply list_eq. intros i. unfold lines.
  rewrite !list_lookup_fmap.
  destruct (line_list g !! i) as [r|] eqn:Hr; simpl.
  - rewrite (ok_idx _ Hok i r Hr).
    rewrite (lookup_seq_lt _ _ _ (lookup_lt_Some _ _ _ Hr)). done.
  - rewrite lookup_seq_ge; [done|]. by apply lookup_ge_None.
Qed.

(** The line records that pruning keeps: those of the list whose two ends
    stay, in the order of the list, each with its position for index. *)
Lemma lines_keep_largest g :
  grid_ok g →
  lines (keep_largest g)
  = imap (λ i l, set_idx (Z.of_nat i) l)
         (filter (λ l, from_bus l ∈ Nx.nodes (G (keep_largest g))
                       ∧ to_bus l ∈ Nx.nodes (G (keep_largest g)))
                 (lines g)).
Proof.
  intros Hok.
  pose proof (lines_on_buses_of_match g (ok_graph _ Hok) (ok_lines _ Hok)) as Hon.
  unfold lines_on_buses in Hon. rewrite Forall_forall in Hon.
  rewrite nodes_keep_largest. unfold lines at 2.
  rewrite (filter_fmap_elem (line_obj g) _
             (λ r, bool_decide (from_bus (line_obj g r) ∈ largest_component (G g))
                   && bool_decide (to_bus (line_obj g r) ∈ largest_component (G g)))).
  2:{ intros r Hr.
      destruct (Hon (line_obj g r)) as [Hf Ht].
      { unfold lines. apply list_elem_of_fmap. by exists r. }
      rewrite andb_True, !bool_decide_spec, !list_elem_of_filter. tauto. }
  unfold lines, keep_largest. simpl.
  set (refs' := filter _ (line_list g)).
  assert (NoDup refs') as Hnd by (apply NoDup_filter, Hok).
  destruct (reindex_spec (line_obj g) refs' Hnd) as [Hre _].
  rewrite imap_fmap. apply list_eq. intros i.
  rewrite list_lookup_fmap, list_lookup_imap.
  destruct (refs' !! i) as [r|] eqn:Hr; [|done]. simpl.
  by rewrite (Hre i r Hr).
Qed.

Lemma adj_is_node G x y : adj G x y → x ∈ Nx.nodes G.
Proof.
  unfold adj. intros Hxy. destruct (decide (x ∈ Nx.nodes G)) as [|Hx]; [done|].
  rewrite neighbors_not_node in Hxy by done. by apply elem_of_nil in Hxy.
Qed.

(** The component of a node is the set of the nodes it reaches. *)
Lemma elem_of_node_component G v x :
  nx_graph G → v ∈ Nx.nodes G →
  x ∈ Traversal.node_component G v ↔ rtc (adj G) v x.
Proof.
  intros (_ & Hcl & _) Hv. unfold Traversal.node_component.
  rewrite elem_of_list_to_set.
  by destruct (visit_order_spec G v Hcl Hv) as (_ & _ & Hreach & _).
Qed.

Lemma components_from_elem G vs seen c :
  c ∈ Traversal.components_from G vs seen →
  ∃ v, v ∈ vs ∧ c = Traversal.node_component G v.
Proof.
  revert seen. induction vs as [|v vs IH]; intros seen; simpl.
  - by intros ?%elem_of_nil.
  - case_bool_decide.
    + intros (v' & ? & ?)%IH. exists v'. split; [by right|done].
    + intros [->|(v' & ? & ?)%IH]%elem_of_cons.
      * exists v. split; [left|done].
      * exists v'. split; [by right|done].
Qed.

Lemma max_by_size_elem best xs : max_by_size best xs ∈ best :: xs.
Proof.
  revert best. induction xs as [|x xs IH]; intros best; simpl; [left|].
  specialize (IH (if bool_decide (size best < size x)%nat then x else best)).
  apply elem_of_cons in IH as [->|IH].
  - case_bool_decide; [right; left|left].
  - by do 2 right.
Qed.

Lemma largest_component_root G :
  Nx.nodes G ≠ [] →
  ∃ r, r ∈ Nx.nodes G ∧ largest_component G = Traversal.node_component G r.
Proof.
  intros Hne. unfold largest_component.
  destruct (Traversal.connected_components G) as [|c cs] eqn:Hcs.
  - exfalso. unfold Traversal.connected_components in Hcs.
    destruct (Nx.nodes G) as [|v vs]; [done|]. simpl in Hcs. done.
  - apply (components_from_elem G (Nx.nodes G) ∅).
    fold (Traversal.connected_components G). rewrite Hcs. apply max_by_size_elem.
Qed.

(** Inside the set of the nodes reached from [r], any two nodes are joined
    by a chain that stays inside. *)
Lemma component_connected G (r : Z) (C : gset Z) G' :
  (∀ u v, adj G u v → adj G v u) →
  (∀ x, x ∈ C ↔ rtc (adj G) r x) →
  (∀ x y, adj G' x y ↔ x ∈ C ∧ y ∈ C ∧ adj G x y) →
  ∀ u v, u ∈ C → v ∈ C → rtc (adj G') u v.
Proof.
  intros Hsym HC Hadj.
  assert (∀ x, rtc (adj G) r x → rtc (adj G') r x) as Hin.
  { apply (rtc_ind_r (λ x, rtc (adj G') r x)); [done|].
    intros y z Hry Hyz IH. eapply rtc_r; [done|].
    apply Hadj. split; [by apply HC|]. split; [|done].
    apply HC. by eapply rtc_r. }
  intros u v Hu Hv. transitivity r.
  - apply rtc_sym; [|apply Hin; by apply HC].
    intros a b (? & ? & ?)%Hadj. apply Hadj. auto.
  - apply Hin. by apply HC.
Qed.

Lemma keep_largest_ok g :
  grid_ok g → Nx.nodes (G g) ≠ [] →
  grid_ok (keep_largest g) ∧ connected (G (keep_largest g))
  ∧ Nx.nodes (G (keep_largest g)) ≠ [].
Proof.
  intros [Hg Hids Hrefs Hidx Hlive Hlines] Hne.
  destruct (largest_component_root (G g) Hne) as (r & Hr & HC).
  assert (∀ x, x ∈ largest_component (G g) ↔ rtc (adj (G g)) r x) as Hreach.
  { intros x. rewrite HC. by apply elem_of_node_component. }
  destruct Hg as (Hnd & Hcl & Hsym).
  unfold keep_largest.
  set (C := largest_component (G g)) in *.
  set (rm := elements (list_to_set (Nx.nodes (G g)) ∖ C)).
  assert (∀ x, x ∈ rm ↔ x ∈ Nx.nodes (G g) ∧ x ∉ C) as Hrm.
  { intros x. unfold rm.
    by rewrite elem_of_elements, elem_of_difference, elem_of_list_to_set. }
  set (G' := Nx.remove_nodes_from (G g) rm).
  assert (∀ x y, adj G' x y ↔ x ∈ C ∧ y ∈ C ∧ adj (G g) x y) as Hadj.
  { intros x y. unfold G'. rewrite adj_remove_nodes_from, !Hrm. split.
    - intros (Hx & Hy & Hxy). pose proof (adj_is_node _ _ _ Hxy).
      pose proof (Hcl _ _ Hxy).
      destruct (decide (x ∈ C)), (decide (y ∈ C)); tauto.
    - intros (Hx & Hy & Hxy). tauto. }
  assert (∀ x, x ∈ Nx.nodes G' ↔ x ∈ Nx.nodes (G g) ∧ x ∈ C) as Hnodes.
  { intros x. unfold G'.
    rewrite nodes_remove_nodes_from, list_elem_of_filter, Hrm.
    destruct (decide (x ∈ C)); tauto. }
  assert (NoDup (Nx.nodes G')) as HndG'.
  { unfold G'. rewrite nodes_remove_nodes_from. by apply NoDup_filter. }
  set (refs' := filter _ (line_list g)).
  assert (NoDup refs') as Hnd' by by apply NoDup_filter.
  assert (∀ r0, r0 ∈ refs' ↔
                (from_bus (line_obj g r0) ∈ C ∧ to_bus (line_obj g r0) ∈ C)
                ∧ r0 ∈ line_list g) as Hrefs'.
  { intros r0. unfold refs'. rewrite list_elem_of_filter.
    by rewrite andb_True, !bool_decide_spec. }
  destruct (reindex_spec (line_obj g) refs' Hnd') as [Hre _].
  set (h' := reindex (line_obj g) refs') in *.
  assert (∀ l', l' ∈ h' <$> refs' ↔
                ∃ i r, refs' !! i = Some r ∧ l' = set_idx (Z.of_nat i) (line_obj g r))
    as Hlines'.
  { intros l'. rewrite list_elem_of_fmap. split.
    - intros (r0 & -> & [i Hi]%list_elem_of_lookup).
      exists i, r0. split; [done|]. by apply Hre.
    - intros (i & r0 & Hi & ->). exists r0.
      split; [symmetry; by apply Hre|]. by eapply list_elem_of_lookup_2. }
  clearbody h' refs' G' rm.
  split; [|split].
  - split; simpl.
    + split; [done|split].
      * intros x y (_ & Hy & Hxy)%Hadj. apply Hnodes. split; [|done].
        by apply (Hcl x).
      * intros x y (Hx & Hy & Hxy)%Hadj. apply Hadj. auto.
    + unfold bus_ids_nonneg in *. simpl. rewrite Forall_forall in Hids.
      apply Forall_forall. intros x [Hx _]%Hnodes. by apply Hids.
    + done.
    + intros i r0 Hi. rewrite (Hre i r0 Hi). done.
    + intros r0 Hr0. pose proof Hr0 as [i Hi]%list_elem_of_lookup.
      rewrite (Hre i r0 Hi). simpl.
      apply Hlive. by apply Hrefs' in Hr0 as [_ ?].
    + intros x y. unfold lines. simpl.
      rewrite Hadj. split.
      * intros (Hx & Hy & (l & [r0 [-> Hr0]]%list_elem_of_fmap & Hj)%Hlines).
        assert (r0 ∈ refs') as [i Hi]%list_elem_of_lookup.
        { apply Hrefs'. split; [|done].
          apply joins_spec in Hj as [[-> ->]|[-> ->]]; done. }
        exists (set_idx (Z.of_nat i) (line_obj g r0)). split; [|done].
        apply Hlines'. by exists i, r0.
      * intros (l' & (i & r0 & Hi & ->)%Hlines' & Hj).
        apply list_elem_of_lookup_2, Hrefs' in Hi as [[Hf Ht] Hr0].
        assert (joins x y (line_obj g r0) = true) as Hj' by done.
        assert (adj (G g) x y) as Hxy.
        { apply Hlines. exists (line_obj g r0). split; [|done].
          apply list_elem_of_fmap. by exists r0. }
        apply joins_spec in Hj' as [[<- <-]|[<- <-]]; auto.
  - simpl. intros u v [_ Hu]%Hnodes [_ Hv]%Hnodes.
    by apply (component_connected (G g) r C).
  - simpl. assert (r ∈ Nx.nodes G') as Hin.
    { apply Hnodes. split; [done|]. by apply Hreach. }
    intros Heq. rewrite Heq in Hin. by apply elem_of_nil in Hin.
Qed.

Lemma is_connected_connected G :
  nx_graph G → Traversal.is_connected G = true → connected G.
Proof.
  intros Hg. unfold Traversal.is_connected.
  destruct (Nx.nodes G) as [|v vs] eqn:Hnodes; [done|].
  intros Hsize%bool_decide_eq_true.
  assert (v ∈ Nx.nodes G) as Hv by (rewrite Hnodes; left).
  pose proof Hg as (Hnd & Hcl & _).
  destruct (visit_order_spec G v Hcl Hv) as (Hnd' & Hsub & _ & _).
  unfold Traversal.node_component in Hsize.
  rewrite size_list_to_set in Hsize by done.
  apply (connected_by_search G v); [done..|].
  assert (Traversal.visit_order G v ⊆+ Nx.nodes G) as Hsm by by apply NoDup_submseteq.
  apply submseteq_length_Permutation in Hsm.
  - apply Forall_forall. intros x Hx. by rewrite Hsm.
  - unfold Nx.nodes. rewrite length_fmap. lia.
Qed.

(** *** The source and the whole build *)

Lemma find_best_source_bus_in g subs (c2b : gmap Key Z) bus :
  _find_best_source_bus round_key g subs c2b = Ret bus → bus ∈ Nx.nodes (G g).
Proof.
  unfold _find_best_source_bus.
  destruct (for_each _ _ subs) as [[best_bus best_v]|] eqn:Hloop; simpl; [|done].
  assert (∀ bus', best_bus = Some bus' → bus' ∈ Nx.nodes (G g)) as Hbest.
  { change best_bus with ((best_bus, best_v).1).
    eapply (for_each_inv _
              (λ st : option Z * float,
                 ∀ bus', st.1 = Some bus' → bus' ∈ Nx.nodes (G g)));
      [| |exact Hloop].
    2:{ intros bus' Hb. simpl in Hb. discriminate Hb. }
    intros st feat st' _ Hst. unfold visit_substation.
    destruct (parse_voltage_kv _) as [kv|]; simpl; [|done].
    destruct (substation_coord _) as [[[lon lat]|]|]; simpl;
      [|by intros [= <-]|done].
    destruct (c2b !! _) as [bus_id|]; [|by intros [= <-]].
    unfold Nx.has_node. case_bool_decide as Hin; simpl; [|by intros [= <-]].
    destruct (PyFloat.gtb _ _); intros [= <-]; [|done].
    simpl. by intros bus' [= <-]. }
  destruct best_bus as [bus'|].
  - intros [= <-]. by apply Hbest.
  - apply getitem_elem.
Qed.

Lemma grid_ok_with_ext_grid_bus g bus :
  grid_ok g → grid_ok (with_ext_grid_bus g bus).
Proof. intros [? ? ? ? ? ?]. by split. Qed.

(** Every grid the builder returns is sound; when it has a bus, its full
    graph is connected and its source is one of its buses. *)
Lemma build_ok cf max_lines g :
  build' cf max_lines = Ret g →
  grid_ok g
  ∧ (Nx.nodes (G g) ≠ [] → connected (G g) ∧ ext_grid_bus g ∈ Nx.nodes (G g)).
Proof.
  unfold build_grid_from_geojson, build_lines.
  destruct (for_each _ _ _) as [b|] eqn:Hloop; simpl; [|done].
  assert (build_inv b) as Hb.
  { eapply (for_each_inv _ build_inv); [|apply build_inv_init|exact Hloop].
    intros st x st' _ Hst Hstep. by eapply visit_feature_inv. }
  destruct (Z.eqb_spec (bus_counter b) 0) as [H0|H0].
  { intros [= <-]. split; [apply Hb|].
    rewrite (bi_nodes _ Hb), H0. done. }
  assert (Nx.nodes (G (grid b)) ≠ []) as Hne.
  { rewrite (bi_nodes _ Hb). pose proof (bi_counter _ Hb).
    destruct (Z.to_nat (bus_counter b)) eqn:Hn; [lia|done]. }
  set (g0 := if Traversal.is_connected (G (grid b)) then grid b
             else keep_largest (grid b)).
  assert (grid_ok g0 ∧ connected (G g0) ∧ Nx.nodes (G g0) ≠ [])
    as (Hok & Hconn & Hne0).
  { unfold g0. destruct (Traversal.is_connected _) eqn:Hc.
    - split; [apply Hb|]. split; [|done].
      apply is_connected_connected; [apply Hb|done].
    - apply keep_largest_ok; [apply Hb|done]. }
  clearbody g0.
  destruct (_find_best_source_bus _ _ _ _) as [bus|] eqn:Hsrc; simpl; [|done].
  intros [= <-]. split; [by apply grid_ok_with_ext_grid_bus|].
  intros _. split; [done|]. simpl. by eapply find_best_source_bus_in.
Qed.

(** ** C7: the indices of the line records *)

(** What the builder returns, from the state [b] of its first loop. *)
Lemma build_lines_kept cf max_lines g :
  build' cf max_lines = Ret g →
  ∃ b, build_lines' cf max_lines = Ret b
       ∧ build_inv b
       ∧ lines g
         = imap (λ i l, set_idx (Z.of_nat i) l)
                (filter (λ l, from_bus l ∈ Nx.nodes (G g)
                              ∧ to_bus l ∈ Nx.nodes (G g))
                        (lines (grid b))).
Proof.
  unfold build_grid_from_geojson.
  destruct (build_lines' cf max_lines) as [b|] eqn:Hloop; simpl; [|done].
  assert (build_inv b) as Hb.
  { unfold build_lines in Hloop.
    eapply (for_each_inv _ build_inv); [|apply build_inv_init|exact Hloop].
    intros st x st' _ Hst Hstep. by eapply visit_feature_inv. }
  pose proof (bi_ok _ Hb) as Hok.
  pose proof (lines_on_buses_of_match _ (ok_graph _ Hok) (ok_lines _ Hok)) as Hon.
  unfold lines_on_buses in Hon. rewrite Forall_forall in Hon.
  assert (lines (grid b)
          = imap (λ i l, set_idx (Z.of_nat i) l)
                 (filter (λ l, from_bus l ∈ Nx.nodes (G (grid b))
                               ∧ to_bus l ∈ Nx.nodes (G (grid b)))
                         (lines (grid b)))) as Hall.
  { rewrite filter_all by done. symmetry. apply imap_set_idx_id.
    rewrite (grid_ok_indices _ Hok). unfold lines. by rewrite length_fmap. }
  destruct (Z.eqb_spec (bus_counter b) 0) as [H0|H0].
  { intros [= <-]. by exists b. }
  destruct (_find_best_source_bus _ _ _ _) as [bus|] eqn:Hsrc; simpl; [|done].
  intros [= <-]. exists b. split; [done|]. split; [done|].
  destruct (Traversal.is_connected _); simpl.
  - exact Hall.
  - change (lines (with_ext_grid_bus (keep_largest (grid b)) bus))
      with (lines (keep_largest (grid b))).
    by apply lines_keep_largest.
Qed.

(** C7, as the code has it.  In every grid the builder returns, the
    record at position [i] of [line_list] carries the index [i], so that
    the indices are exactly [0 .. len(line_list) - 1], each record being
    listed once.  The records are in the order of their creation: with
    [b] the local variables of the builder after its first loop, where
    each record was appended to [line_list] when it was created and the
    record created as the number [k] carries the index [k], the records
    of the returned grid are those of [b] whose two ends are buses of the
    returned grid, in the same order, each with its new position for
    index. *)
Theorem build_indices_contiguous cf max_lines g :
  build' cf max_lines = Ret g →
  idx <$> lines g = Z.of_nat <$> seq 0 (length (line_list g))
  ∧ NoDup (line_list g)
  ∧ ∃ b, build_lines' cf max_lines = Ret b
         ∧ idx <$> lines (grid b)
           = Z.of_nat <$> seq 0 (length (line_list (grid b)))
         ∧ lines g
           = imap (λ i l, set_idx (Z.of_nat i) l)
                  (filter (λ l, from_bus l ∈ Nx.nodes (G g)
                                ∧ to_bus l ∈ Nx.nodes (G g))
                          (lines (grid b))).
Proof.
  intros Hrun. pose proof Hrun as [Hok _]%build_ok.
  split; [by apply grid_ok_indices|]. split; [apply Hok|].
  destruct (build_lines_kept _ _ _ Hrun) as (b & Hloop & Hb & Hkept).
  exists b. split; [done|]. split; [|done].
  apply grid_ok_indices, Hb.
Qed.

(** ** C2: the built graph is connected *)

Lemma grid_ok_live g x y :
  grid_ok g → live g x y ↔ adj (G g) x y.
Proof.
  intros Hok. rewrite (ok_lines _ Hok x y). unfold live. split.
  - intros (l & Hl & _ & Hj). by exists l.
  - intros (l & Hl & Hj). exists l. split; [done|]. split; [|done].
    unfold lines in Hl. apply list_elem_of_fmap in Hl as (r & -> & Hr).
    by apply (ok_live _ Hok).
Qed.

(** C2.  When the grid returned by the builder has at least one bus, its
    source is one of its buses and its full graph is connected: every bus
    is reachable from the source, and, with all lines in service as the
    builder leaves them, [get_energized_status] reports every bus live. *)
Theorem build_connected cf max_lines g :
  build' cf max_lines = Ret g → Nx.nodes (G g) ≠ [] →
  ext_grid_bus g ∈ Nx.nodes (G g)
  ∧ connected (G g)
  ∧ (∀ b, b ∈ Nx.nodes (G g) → rtc (adj (G g)) (ext_grid_bus g) b)
  ∧ (∀ b, b ∈ Nx.nodes (G g) → get_energized_status g !! b = Some 1).
Proof.
  intros [Hok Hconn]%build_ok Hne. destruct (Hconn Hne) as [Hc Hsrc].
  split; [done|]. split; [done|]. split; [intros b Hb; by apply Hc|].
  intros b Hb.
  apply status_of_bus; [apply Hok| |done|].
  - apply lines_on_buses_of_match; apply Hok.
  - unfold energized.
    apply (rtc_iff (live g) (adj (G g))); [intros; by apply grid_ok_live|].
    by apply Hc.
Qed.

End BuilderProofs.

Lemma build_indices_contiguous_witness :
  ∃ g, Demo.build (Demo.two_lines [Demo.coord 77000000 28000000;
                                   Demo.coord 77000000 28100000]
                                  [Demo.coord 78000000 28000000;
                                   Demo.coord 78000000 28100000;
                                   Demo.coord 78100000 28100000]) 5000 = Ret g
       ∧ (λ l, (idx l, from_bus l, to_bus l, name l)) <$> lines g
         = [(0, 2, 3, "L_b_0_33.0kV"); (1, 3, 4, "L_b_1_33.0kV")].
Proof.
  destruct (Demo.build (Demo.two_lines [Demo.coord 77000000 28000000;
                                        Demo.coord 77000000 28100000]
                                       [Demo.coord 78000000 28000000;
                                        Demo.coord 78000000 28100000;
                                        Demo.coord 78100000 28100000]) 5000)
    as [g|e] eqn:Hrun; [|vm_compute in Hrun; discriminate Hrun].
  exists g. split; [reflexivity|].
  destruct (build_indices_contiguous _ _ _ _ _ _ _ _ _ _ g Hrun)
    as (_ & _ & b & Hloop & _ & Hkept).
  rewrite Hkept. clear Hkept.
  assert (Nx.nodes (G g) = [2; 3; 4]) as ->.
  { vm_compute in Hrun. injection Hrun as <-. reflexivity. }
  clear Hrun.
  match type of Hloop with
  | ?run = _ =>
      assert (match run with
              | Ret b0 => (λ l, (idx l, from_bus l, to_bus l, name l))
                            <$> lines (grid b0)
              | Raise _ => []
              end
              = [(0, 0, 1, "L_a_0_33.0kV"); (1, 2, 3, "L_b_0_33.0kV");
                 (2, 3, 4, "L_b_1_33.0kV")]) as Hcreated
        by (vm_compute; reflexivity)
  end.
  rewrite Hloop in Hcreated.
  revert Hcreated. clear Hloop.
  destruct (lines (grid b)) as [|l0 [|l1 [|l2 [|? ?]]]]; try discriminate.
  intros [= Hi0 Hf0 Ht0 Hn0 Hi1 Hf1 Ht1 Hn1 Hi2 Hf2 Ht2 Hn2].
  rewrite !filter_cons, filter_nil, Hf0, Hf1, Ht1, Hf2, Ht2.
  simpl. rewrite Hf1, Ht1, Hn1, Hf2, Ht2, Hn2. reflexivity.
Defined.

(** C7 as stated fails: a line that goes from one point to another and
    back makes two records for one edge of the graph, so that the number
    of records is not [num_lines]. *)
Lemma build_records_exceed_num_lines :
  ∃ g, Demo.build (Demo.one_line [Demo.coord 77000000 28000000;
                                  Demo.coord 77000000 28100000;
                                  Demo.coord 77000000 28000000]) 5000 = Ret g
       ∧ length (lines g) = 2%nat
       ∧ num_lines g = 1%nat.
Proof. eexists. split; [by vm_compute|]. split; by vm_compute. Qed.

Lemma build_connected_witness :
  ∃ g, Demo.build (Demo.one_line [Demo.coord 77000000 28000000;
                                  Demo.coord 77000000 28100000;
                                  Demo.coord 77100000 28100000]) 5000 = Ret g
       ∧ ext_grid_bus g = 0
       ∧ rtc (adj (G g)) 0 2
       ∧ get_energized_status g !! 2 = Some 1.
Proof.
  destruct (Demo.build (Demo.one_line [Demo.coord 77000000 28000000;
                                       Demo.coord 77000000 28100000;
                                       Demo.coord 77100000 28100000]) 5000)
    as [g|e] eqn:Hrun; [|vm_compute in Hrun; discriminate Hrun].
  exists g. split; [reflexivity|].
  assert (Nx.nodes (G g) = [0; 1; 2] ∧ ext_grid_bus g = 0) as [Hnodes Hsrc].
  { vm_compute in Hrun. injection Hrun as <-. by split. }
  destruct (build_connected _ _ _ _ _ _ _ _ _ _ g Hrun) as (_ & _ & Hreach & Hlive).
  { by rewrite Hnodes. }
  split; [exact Hsrc|]. rewrite <-Hsrc at 1.
  split; [apply Hreach|apply Hlive]; rewrite Hnodes; by_compute.
Defined.

(** ** C9: the stored length *)

(** What the guard of the builder does to a length: below 0.001 it
    becomes 0.01, anything else is kept. *)
Lemma stored_length_spec (h : float) :
  PyFloat.ltb (stored_length h) (PyFloat.of_decimal 1 3) = false
  ∧ (PyFloat.ltb h (PyFloat.of_decimal 1 3) = false → stored_length h = h)
  ∧ (PyFloat.ltb h (PyFloat.of_decimal 1 3) = true →
     stored_length h = PyFloat.of_decimal 1 2).
Proof.
  unfold stored_length.
  destruct (PyFloat.ltb h (PyFloat.of_decimal 1 3)) eqn:Hh.
  - split; [by vm_compute|]. by split.
  - split; [done|]. by split.
Qed.

(** C9 fails on the code: two points 4.4 m apart on a meridian fall on
    two buses, and the record that joins them keeps its length, which is
    not below 0.001 km but is below 0.01 km. *)
Theorem build_stores_length_below_minimum :
  ∃ g l, Demo.build (Demo.one_line [Demo.coord 77000000 28000040;
                                    Demo.coord 77000000 28000080]) 5000 = Ret g
         ∧ lines g = [l]
         ∧ PyFloat.ltb (length_km l) (PyFloat.of_decimal 1 3) = false
         ∧ PyFloat.ltb (length_km l) (PyFloat.of_decimal 1 2) = true
         ∧ stored_length (PyFloat.of_decimal 5 3) = PyFloat.of_decimal 5 3.
Proof.
  do 2 eexists. split; [by vm_compute|].
  split; [reflexivity|]. split; [by vm_compute|]. split; by vm_compute.
Qed.

(** ** Removing an edge and putting it back *)

Lemma nodes_unlink G u v : Nx.nodes (Nx.unlink G u v) = Nx.nodes G.
Proof.
  unfold Nx.nodes, Nx.unlink. rewrite <-list_fmap_compose.
  apply list_fmap_ext. by intros i [n nbrs] _.
Qed.

Lemma elem_of_neighbors_unlink G u v x y :
  y ∈ Nx.neighbors (Nx.unlink G u v) x ↔
  y ∈ Nx.neighbors G x ∧ ¬ (x = u ∧ y = v).
Proof.
  induction G as [|[n nbrs] G IH]; simpl.
  - rewrite elem_of_nil. tauto.
  - destruct (decide (n = x)) as [->|Hnx].
    + rewrite !(bool_decide_eq_true_2 (x = x)) by done.
      destruct (decide (x = u)) as [->|Hxu].
      * rewrite bool_decide_eq_true_2 by done.
        rewrite list_elem_of_filter. naive_solver.
      * rewrite bool_decide_eq_false_2 by done. naive_solver.
    + rewrite !(bool_decide_eq_false_2 (n = x)) by done. apply IH.
Qed.

Lemma nodes_remove_edge G u v : Nx.nodes (Nx.remove_edge G u v) = Nx.nodes G.
Proof. unfold Nx.remove_edge. by rewrite !nodes_unlink. Qed.

Lemma adj_remove_edge G u v x y :
  adj (Nx.remove_edge G u v) x y ↔
  adj G x y ∧ ¬ (x = u ∧ y = v) ∧ ¬ (x = v ∧ y = u).
Proof.
  unfold adj, Nx.remove_edge. rewrite !elem_of_neighbors_unlink. tauto.
Qed.

Lemma same_graph_refl G1 : same_graph G1 G1.
Proof. by split. Qed.

Lemma same_graph_nx G1 G2 : same_graph G1 G2 → nx_graph G1 → nx_graph G2.
Proof.
  intros [Hn Ha] (Hnd & Hcl & Hsym). split; [|split].
  - by rewrite <-Hn.
  - intros x y Hxy%Ha. rewrite <-Hn. by apply (Hcl x).
  - intros x y Hxy%Ha. by apply Ha, Hsym.
Qed.

Lemma same_graph_remove_edge G1 G2 u v :
  same_graph G1 G2 → same_graph (Nx.remove_edge G1 u v) (Nx.remove_edge G2 u v).
Proof.
  intros [Hn Ha]. split.
  - by rewrite !nodes_remove_edge.
  - intros x y. rewrite !adj_remove_edge, Ha. done.
Qed.

Lemma nx_graph_remove_edge G1 u v : nx_graph G1 → nx_graph (Nx.remove_edge G1 u v).
Proof.
  intros (Hnd & Hcl & Hsym). split; [|split].
  - by rewrite nodes_remove_edge.
  - intros x y (Hxy & _)%adj_remove_edge. rewrite nodes_remove_edge.
    by apply (Hcl x).
  - intros x y (Hxy & H1 & H2)%adj_remove_edge. apply adj_remove_edge.
    split; [by apply Hsym|]. tauto.
Qed.

(** Removing an edge of the graph and adding it again gives the graph
    back, up to the order of the neighbours. *)
Lemma same_graph_restore G1 u v :
  nx_graph G1 → adj G1 u v →
  same_graph (Nx.add_edge (Nx.remove_edge G1 u v) u v) G1.
Proof.
  intros (Hnd & Hcl & Hsym) Huv. split.
  - rewrite nodes_add_edge_present; rewrite nodes_remove_edge;
      [done|by eapply adj_is_node|by eapply Hcl].
  - intros x y. rewrite adj_add_edge, adj_remove_edge. split.
    + intros [(? & _)|[[-> ->]|[-> ->]]]; [done|done|by apply Hsym].
    + intros Hxy.
      destruct (decide (x = u ∧ y = v)); [tauto|].
      destruct (decide (x = v ∧ y = u)); tauto.
Qed.

(** What the source reaches depends on the nodes and on the adjacency
    only. *)
Lemma reachable_from_same G1 G2 s :
  adj_closed G1 → adj_closed G2 → same_graph G1 G2 →
  reachable_from G1 s = reachable_from G2 s.
Proof.
  intros Hc1 Hc2 [Hn Ha]. unfold reachable_from, Traversal.descendants, Nx.has_node.
  rewrite Hn. case_bool_decide as Hs; [|done]. simpl. f_equal.
  apply set_eq. intros x.
  rewrite !elem_of_union, !elem_of_difference, !elem_of_list_to_set.
  destruct (visit_order_spec G1 s Hc1) as (_ & _ & H1 & _); [by rewrite Hn|].
  destruct (visit_order_spec G2 s Hc2) as (_ & _ & H2 & _); [done|].
  by rewrite H1, H2, (rtc_iff _ _ _ _ Ha).
Qed.

Lemma edges_from_adj G1 seen u v :
  (u, v) ∈ Nx.edges_from G1 seen → ∃ nbrs, (u, nbrs) ∈ G1 ∧ v ∈ nbrs.
Proof.
  revert seen. induction G1 as [|[n nbrs] G1 IH]; intros seen; simpl.
  - by intros ?%elem_of_nil.
  - intros [Hin|Hin]%elem_of_app.
    + apply list_elem_of_fmap in Hin as (w & [= -> ->] & Hw%list_elem_of_filter).
      exists nbrs. split; [left|apply Hw].
    + destruct (IH _ Hin) as (nbrs' & ? & ?). exists nbrs'. split; [by right|done].
Qed.

Lemma neighbors_NoDup_lookup G1 u nbrs :
  NoDup (Nx.nodes G1) → (u, nbrs) ∈ G1 → Nx.neighbors G1 u = nbrs.
Proof.
  induction G1 as [|[n nbrs'] G1 IH]; simpl.
  - by intros _ ?%elem_of_nil.
  - intros [Hn Hnd]%NoDup_cons [[= -> ->]|Hin]%elem_of_cons.
    + by rewrite bool_decide_eq_true_2.
    + rewrite bool_decide_eq_false_2; [by apply IH|].
      intros ->. apply Hn. apply list_elem_of_fmap. by exists (u, nbrs).
Qed.

Lemma edges_adj G1 u v : nx_graph G1 → (u, v) ∈ Nx.edges G1 → adj G1 u v.
Proof.
  intros (Hnd & _) (nbrs & Hin & Hv)%edges_from_adj.
  unfold adj. by rewrite (neighbors_NoDup_lookup G1 u nbrs).
Qed.

Lemma bridges_adj G1 u v : nx_graph G1 → (u, v) ∈ Traversal.bridges G1 → adj G1 u v.
Proof.
  intros HG [_ Hin]%list_elem_of_filter. by apply edges_adj.
Qed.

(** ** C5: [find_bridge_fault] *)

Lemma same_graph_sym G1 G2 : same_graph G1 G2 → same_graph G2 G1.
Proof. intros [Hn Ha]. split; [done|]. intros x y. by rewrite Ha. Qed.

Lemma same_graph_trans G1 G2 G3 :
  same_graph G1 G2 → same_graph G2 G3 → same_graph G1 G3.
Proof.
  intros [Hn Ha] [Hn' Ha']. split; [congruence|].
  intros x y. by rewrite Ha, Ha'.
Qed.

Lemma disconnected_count_same g G1 G2 :
  adj_closed G1 → adj_closed G2 → same_graph G1 G2 →
  disconnected_count g G1 = disconnected_count g G2.
Proof.
  intros Hc1 Hc2 Hsame. unfold disconnected_count.
  rewrite (reachable_from_same G1 G2 _ Hc1 Hc2 Hsame).
  destruct Hsame as [Hn _].
  assert (Nx.number_of_nodes G1 = Nx.number_of_nodes G2) as ->; [|done].
  unfold Nx.number_of_nodes.
  rewrite <-(length_fmap fst G1), <-(length_fmap fst G2).
  unfold Nx.nodes in Hn. by rewrite Hn.
Qed.

Lemma pick_keeps target best cands :
  (∀ c, c ∈ cands → Z.abs (best.2 - target) ≤ Z.abs (c.2 - target)) →
  foldl (pick target) best cands = best.
Proof.
  induction cands as [|c cands IH]; intros Hall; [done|].
  simpl. unfold pick at 2.
  destruct (Z.ltb_spec (Z.abs (c.2 - target)) (Z.abs (best.2 - target))) as [Hlt|_].
  - specialize (Hall c ltac:(left)). lia.
  - apply IH. intros c' Hc'. apply Hall. by right.
Qed.

(** The scan ends on the first candidate of least distance to the target,
    as long as that candidate beats the best it started from. *)
Lemma pick_first_min target cands :
  ∀ best k c,
    cands !! k = Some c →
    Z.abs (c.2 - target) < Z.abs (best.2 - target) →
    (∀ c', c' ∈ cands → Z.abs (c.2 - target) ≤ Z.abs (c'.2 - target)) →
    (∀ j c', (j < k)%nat → cands !! j = Some c' →
             Z.abs (c.2 - target) < Z.abs (c'.2 - target)) →
    foldl (pick target) best cands = c.
Proof.
  induction cands as [|c0 cands IH]; intros best k c Hk Hbeats Hmin Hfirst; [done|].
  destruct k as [|k]; simpl in Hk.
  - injection Hk as ->. simpl. unfold pick at 2.
    destruct (Z.ltb_spec (Z.abs (c.2 - target)) (Z.abs (best.2 - target))); [|lia].
    apply pick_keeps. intros c' Hc'. apply Hmin. by right.
  - simpl. apply (IH _ k); [done| | |].
    + pose proof (Hfirst 0%nat c0 ltac:(lia) eq_refl).
      unfold pick. by destruct (_ <? _).
    + intros c' Hc'. apply Hmin. by right.
    + intros j c' Hj Hc'. apply (Hfirst (S j)); [lia|done].
Qed.

Lemma scan_bridge_step g target st e :
  nx_graph (G g) → adj (G g) e.1 e.2 → same_graph (scan_G st) (G g) →
  same_graph (scan_G (scan_bridge g target st e)) (G g)
  ∧ best_of (scan_bridge g target st e)
    = match candidate g e with
      | Some c => pick target (best_of st) c
      | None => best_of st
      end.
Proof.
  intros Hg Huv Hsame. destruct e as [u v]. simpl in Huv.
  unfold scan_bridge, candidate. simpl.
  destruct (find_line u v 0 (lines g)) as [i|]; [|done].
  assert (nx_graph (scan_G st)) as Hg0
    by (eapply same_graph_nx; [by apply same_graph_sym|done]).
  assert (adj (scan_G st) u v) as Huv0 by by apply Hsame.
  assert (same_graph (Nx.add_edge (Nx.remove_edge (scan_G st) u v) u v) (G g))
    as Hsame'.
  { eapply same_graph_trans; [by apply same_graph_restore|done]. }
  assert (disconnected_count g (Nx.remove_edge (scan_G st) u v)
          = removal_count g (u, v)) as ->.
  { unfold removal_count. apply disconnected_count_same.
    - by apply nx_graph_remove_edge.
    - by apply nx_graph_remove_edge.
    - by apply same_graph_remove_edge. }
  unfold pick, best_of. simpl. by destruct (_ <? _).
Qed.

Lemma scan_fold g target sample :
  nx_graph (G g) → Forall (λ e, adj (G g) e.1 e.2) sample →
  ∀ st, same_graph (scan_G st) (G g) →
    same_graph (scan_G (foldl (scan_bridge g target) st sample)) (G g)
    ∧ best_of (foldl (scan_bridge g target) st sample)
      = foldl (pick target) (best_of st) (candidates g sample).
Proof.
  intros Hg. induction sample as [|e sample IH]; intros Hadj st Hsame; [done|].
  apply Forall_cons in Hadj as [Huv Hadj].
  destruct (scan_bridge_step g target st e Hg Huv Hsame) as [Hsame' Hbest].
  change (foldl (scan_bridge g target) st (e :: sample))
    with (foldl (scan_bridge g target) (scan_bridge g target st e) sample).
  destruct (IH Hadj _ Hsame') as [Hfin Hfold]. split; [done|].
  rewrite Hfold, Hbest. unfold candidates. simpl. fold (candidate g e).
  by destruct (candidate g e).
Qed.

Lemma find_line_lt u v i0 ls i :
  find_line u v i0 ls = Some i → (i0 ≤ i < i0 + length ls)%nat.
Proof.
  revert i0. induction ls as [|l ls IH]; intros i0; simpl; [done|].
  destruct (joins u v l); [intros [= <-]; lia|].
  intros Hi%IH. lia.
Qed.

Lemma candidates_elem g sample c :
  c ∈ candidates g sample →
  ∃ e i, e ∈ sample ∧ find_line e.1 e.2 0 (lines g) = Some i
         ∧ c = (Z.of_nat i, removal_count g e).
Proof.
  unfold candidates. intros (e & He & Hc)%list_elem_of_omap.
  destruct (find_line e.1 e.2 0 (lines g)) as [i|] eqn:Hi; [|done].
  injection Hc as <-. by exists e, i.
Qed.

Section RandomProofs.

Variable Rng : Type.
Variable np_seed : Z → Rng.
Variable np_choice : Rng → list Z → Z * Rng.
Variable np_choice_distinct : Rng → nat → nat → list nat * Rng.

Local Abbreviation find_bridge_fault' :=
  (find_bridge_fault Rng np_seed np_choice np_choice_distinct).
Local Abbreviation trigger_random_fault' :=
  (trigger_random_fault Rng np_seed np_choice).
Local Abbreviation sample_bridges' := (sample_bridges Rng np_choice_distinct).
Local Abbreviation reseed' := (reseed Rng np_seed).

Lemma sample_bridges_spec bridges rng sample rng2 :
  sample_bridges' bridges rng = Ret (sample, rng2) →
  ((length bridges ≤ 50)%nat → sample = bridges ∧ rng2 = rng)
  ∧ (∀ e, e ∈ sample → e ∈ bridges)
  ∧ ((∀ rng n k, length (np_choice_distinct rng n k).1 = k) →
     (length sample ≤ 50)%nat).
Proof.
  unfold sample_bridges. destruct (Nat.ltb_spec 50 (length bridges)) as [Hbig|Hsmall].
  - destruct (np_choice_distinct rng (length bridges) 50) as [indices rng'] eqn:Hch.
    pose proof (mapM_py_inv (λ i : nat, getitem bridges (Z.of_nat i)) indices) as Hinv.
    destruct (mapM _ indices) as [sample'|]; simpl; [|done].
    intros [= <- <-]. split; [lia|]. split.
    + intros e [j Hj]%list_elem_of_lookup.
      destruct (Forall2_lookup_r _ _ _ _ _ Hinv Hj) as (i & _ & Hi).
      by eapply getitem_elem.
    + intros Hlen. rewrite <-(Forall2_length _ _ _ Hinv).
      specialize (Hlen rng (length bridges) 50%nat). rewrite Hch in Hlen.
      simpl in Hlen. lia.
  - intros [= <- <-]. split; [done|]. split; [done|]. intros _. lia.
Qed.

(** C5, as the code has it.  [find_bridge_fault] looks for the bridges of
    the full graph, whatever the service flags.  Without a bridge it is
    [trigger_random_fault].  With bridges, it samples them (all of them,
    in order, when there are at most 50) and scans the sampled bridges
    that have a line record; when the first of those whose removal count
    is nearest to [int(0.10 * n)] is strictly nearer to it than a count of
    zero, the first record of that bridge is the line taken out of
    service, and the fault snapshot is that of this record. *)
Theorem find_bridge_fault_amended (g : GridNetwork) (seed : option Z) (rng : Rng) :
  nx_graph (G g) →
  (Traversal.bridges (G g) = [] →
   find_bridge_fault' g seed rng = trigger_random_fault' g seed rng)
  ∧ (∀ sample rng2,
       sample_bridges' (Traversal.bridges (G g)) (reseed' seed rng) = Ret (sample, rng2) →
       ((length (Traversal.bridges (G g)) ≤ 50)%nat → sample = Traversal.bridges (G g))
       ∧ ((∀ rng n k, length (np_choice_distinct rng n k).1 = k) →
          (length sample ≤ 50)%nat)
       ∧ ∀ k i d,
           Traversal.bridges (G g) ≠ [] →
           candidates g sample !! k = Some (i, d) →
           Z.abs (d - target_count g) < Z.abs (0 - target_count g) →
           (∀ c, c ∈ candidates g sample →
                 Z.abs (d - target_count g) ≤ Z.abs (c.2 - target_count g)) →
           (∀ j c, (j < k)%nat → candidates g sample !! j = Some c →
                   Z.abs (d - target_count g) < Z.abs (c.2 - target_count g)) →
           ∃ r g',
             line_list g !! Z.to_nat i = Some r
             ∧ find_bridge_fault' g seed rng =
                 Ret (g', Faulted (mkFaultInfo i
                                     (from_bus (line_obj g r)) (to_bus (line_obj g r))
                                     (name (line_obj g r)) (voltage_kv (line_obj g r))),
                      rng2)
             ∧ in_service (line_obj g' r) = false
             ∧ same_but_in_service (line_obj g r) (line_obj g' r)
             ∧ (∀ r', r' ≠ r → line_obj g' r' = line_obj g r')
             ∧ line_list g' = line_list g
             ∧ same_graph (G g') (G g)).
Proof.
  intros Hg. split.
  { intros Hnone. unfold find_bridge_fault. by rewrite Hnone. }
  intros sample rng2 Hsample.
  destruct (sample_bridges_spec _ _ _ _ Hsample) as (Hall & Hsub & Hlen).
  split; [intros Hle; by apply Hall|]. split; [done|].
  intros k i d Hne Hk Hbeats Hmin Hfirst.
  unfold find_bridge_fault.
  destruct (Traversal.bridges (G g)) as [|[u0 v0] bs] eqn:Hbridges; [done|].
  rewrite Hsample. simpl.
  destruct (scan_fold g (target_count g) sample Hg) with (st := mkScan (G g) (-1) 0)
    as [Hsame Hbest].
  { apply Forall_forall. intros [u v] He. simpl.
    apply bridges_adj; [done|]. rewrite Hbridges. by apply Hsub. }
  { apply same_graph_refl. }
  rewrite (pick_first_min _ _ _ k (i, d)) in Hbest; [|done..].
  set (st := foldl _ _ sample) in *.
  injection Hbest as Hi Hd.
  destruct (candidates_elem g sample (i, d)) as (e & i' & He & Hfind & [= -> ->]);
    [by eapply list_elem_of_lookup_2|].
  apply find_line_lt in Hfind. unfold lines in Hfind. rewrite length_fmap in Hfind.
  rewrite Hi. destruct (Z.leb_spec 0 (Z.of_nat i')) as [_|?]; [|lia].
  destruct (trigger_fault_in_range (with_G g (scan_G st)) (Z.of_nat i'))
    as (r & g' & Hr & -> & Hstore & Hoff & Hfields & Hothers).
  { simpl. lia. }
  simpl in *. exists r, g'. split; [done|]. split; [done|].
  split; [done|]. split; [done|]. split; [done|].
  destruct Hstore as (HG & _ & _ & _ & Hll & _). simpl in HG, Hll.
  split; [done|]. by rewrite HG.
Qed.

End RandomProofs.

Lemma find_bridge_fault_amended_witness :
  ∃ g', Demo.find_bridge_fault (Demo.path 10) (Some 42) =
          Ret (g', Faulted (mkFaultInfo 8 8 9 "L" (PyFloat.of_Z 11)), tt)
        ∧ in_service (line_obj g' 8%nat) = false
        ∧ in_service (line_obj g' 7%nat) = true.
Proof.
  destruct (find_bridge_fault_amended unit Demo.np_seed Demo.np_choice
              Demo.np_choice_distinct (Demo.path 10) (Some 42) tt)
    as [_ Hscan]; [apply nx_graph_demo|].
  destruct (Hscan (Traversal.bridges (G (Demo.path 10))) tt) as (_ & _ & Hpick).
  { by vm_compute. }
  assert (candidates (Demo.path 10) (Traversal.bridges (G (Demo.path 10)))
          = [(0, 9); (1, 8); (2, 7); (3, 6); (4, 5); (5, 4); (6, 3); (7, 2); (8, 1)])
    as Hcands by (vm_compute; reflexivity).
  assert (target_count (Demo.path 10) = 1) as Htarget by (vm_compute; reflexivity).
  destruct (Hpick 8%nat 8 1) as (r & g' & Hr & Hrun & Hoff & _ & Hothers & _).
  - by vm_compute.
  - by rewrite Hcands.
  - rewrite Htarget. lia.
  - rewrite Hcands, Htarget. intros c Hc.
    repeat (apply elem_of_cons in Hc as [->|Hc]; [simpl; lia|]).
    apply elem_of_nil in Hc. destruct Hc.
  - rewrite Hcands, Htarget. intros j c Hj Hc.
    do 8 (destruct j as [|j]; [injection Hc as <-; simpl; lia|]). lia.
  - injection Hr as <-. exists g'. split; [exact Hrun|]. split; [exact Hoff|].
    rewrite Hothers; [reflexivity|lia].
Defined.

(** C5 as stated fails, twice.  On the path of three buses the code
    faults line 0, whose removal count 2 is further from the target 0
    than the count 1 of line 1.  On the path of ten buses whose last line
    is already out of service the code faults that very line, which is
    not an edge, let alone a bridge, of the in-service subgraph. *)
Lemma find_bridge_fault_not_as_claimed :
  (∃ g', Demo.find_bridge_fault (Demo.path 3) None =
           Ret (g', Faulted (mkFaultInfo 0 0 1 "L" (PyFloat.of_Z 11)), tt))
  ∧ target_count (Demo.path 3) = 0
  ∧ candidates (Demo.path 3) (Traversal.bridges (G (Demo.path 3))) = [(0, 2); (1, 1)]
  ∧ (∃ g', Demo.find_bridge_fault (Demo.cut (Demo.path 10) 8%nat) None =
             Ret (g', Faulted (mkFaultInfo 8 8 9 "L" (PyFloat.of_Z 11)), tt))
  ∧ in_service (line_obj (Demo.cut (Demo.path 10) 8%nat) 8%nat) = false
  ∧ ((8, 9) ∉ Traversal.bridges (get_active_graph (Demo.cut (Demo.path 10) 8%nat)))
  ∧ ((7, 8) ∈ Traversal.bridges (get_active_graph (Demo.cut (Demo.path 10) 8%nat))).
Proof.
  split; [eexists; by vm_compute|]. split; [by vm_compute|].
  split; [by vm_compute|]. split; [eexists; by vm_compute|].
  split; [by vm_compute|]. split; by_compute.
Qed.

(** ** The grids the program works on *)

Lemma grid_wf_same g g' :
  same_graph (G g') (G g) → same_ends g g' → grid_wf g → grid_wf g'.
Proof.
  intros Hsame [Hll Hends] (Hg & Hids & Hl). destruct (Hsame) as [Hn _].
  split; [|split].
  - eapply same_graph_nx; [by apply same_graph_sym|done].
  - unfold bus_ids_nonneg. by rewrite Hn.
  - unfold lines_on_buses, lines in *. rewrite Hn, Hll.
    rewrite Forall_fmap in Hl. apply Forall_fmap.
    eapply Forall_impl; [done|]. intros r. simpl.
    destruct (Hends r) as [-> ->]. done.
Qed.

Lemma same_ends_set_in_service g r b :
  same_ends g (with_line_obj g (store_set (line_obj g) r
                                          (set_in_service b (line_obj g r)))).
Proof.
  split; [done|]. intros r'. simpl. unfold store_set.
  case_bool_decide as Hr; [subst r'|]; done.
Qed.

Lemma set_line_in_service_wf g line_idx b g' :
  set_line_in_service g line_idx b = Ret g' → grid_wf g → grid_wf g'.
Proof.
  unfold set_line_in_service. destruct (in_range _ _); [|by intros [= <-]].
  destruct (getitem _ _) as [r|]; simpl; [|done]. intros [= <-].
  apply grid_wf_same; [apply same_graph_refl|apply same_ends_set_in_service].
Qed.

Lemma trigger_fault_wf g line_idx g' out :
  trigger_fault g line_idx = Ret (g', out) → grid_wf g → grid_wf g'.
Proof.
  unfold trigger_fault. destruct (_ || _); [by intros [= <- _]|].
  destruct (getitem _ _) as [r|]; simpl; [|done]. intros [= <- _].
  apply grid_wf_same; [apply same_graph_refl|apply same_ends_set_in_service].
Qed.

Lemma energize_grid_wf g : grid_wf g → grid_wf (energize_grid g).
Proof.
  apply grid_wf_same; [apply same_graph_refl|]. split; [done|].
  unfold energize_grid. simpl. generalize (line_obj g) as h.
  induction (line_list g) as [|r0 refs IH] using rev_ind; intros h r; [done|].
  rewrite foldl_app. cbn [foldl]. destruct (decide (r = r0)) as [->|Hr].
  - rewrite store_set_eq. apply IH.
  - rewrite store_set_ne by done. apply IH.
Qed.

Section GridsOfTheProgram.

Context {Key : Type} `{Countable Key}.
Variable round_key : float → float → Key.
Variable math_radians : float → float.
Variable math_sin math_cos math_sqrt : float → py float.
Variable math_atan2 : float → float → float.
Variable square : float → float.
Variable format_float : float → string.
Variable Rng : Type.
Variable np_seed : Z → Rng.
Variable np_choice : Rng → list Z → Z * Rng.
Variable np_choice_distinct : Rng → nat → nat → list nat * Rng.

(** A grid returned by the builder satisfies the assumptions of C1 and
    C3. *)
Lemma build_grid_wf cf max_lines g :
  build_grid_from_geojson round_key math_radians math_sin math_cos math_sqrt
                          math_atan2 square format_float cf max_lines = Ret g →
  grid_wf g.
Proof.
  intros [Hok _]%build_ok. split; [apply Hok|]. split; [apply Hok|].
  apply lines_on_buses_of_match; apply Hok.
Qed.

Lemma trigger_random_fault_wf g seed rng g' out rng' :
  trigger_random_fault Rng np_seed np_choice g seed rng = Ret (g', out, rng') →
  grid_wf g → grid_wf g'.
Proof.
  unfold trigger_random_fault.
  destruct (in_service_indices 0 (lines g)); [by intros [= <- _ _]|].
  destruct (np_choice _ _) as [line_idx rng1].
  destruct (trigger_fault g line_idx) as [[g1 out1]|] eqn:Hf; simpl; [|done].
  intros [= <- _ _]. by eapply trigger_fault_wf.
Qed.

(** So does the grid a fault operation leaves behind. *)
Lemma find_bridge_fault_wf g seed rng g' out rng' :
  find_bridge_fault Rng np_seed np_choice np_choice_distinct g seed rng
    = Ret (g', out, rng') →
  grid_wf g → grid_wf g'.
Proof.
  unfold find_bridge_fault. intros Hrun Hwf.
  destruct (Traversal.bridges (G g)) as [|[u0 v0] bs] eqn:Hbridges;
    [by eapply trigger_random_fault_wf|].
  destruct (sample_bridges _ _ _ _) as [[sample rng2]|] eqn:Hsample;
    simpl in Hrun; [|done].
  destruct (sample_bridges_spec _ _ _ _ _ _ Hsample) as (_ & Hsub & _).
  destruct (scan_fold g (target_count g) sample) with (st := mkScan (G g) (-1) 0)
    as [Hsame _]; [apply Hwf| |apply same_graph_refl|].
  { apply Forall_forall. intros [u v] He. simpl.
    apply bridges_adj; [apply Hwf|]. rewrite Hbridges. by apply Hsub. }
  set (st := foldl _ _ sample) in *.
  assert (grid_wf (with_G g (scan_G st))) as Hwf1.
  { apply (grid_wf_same g); [done|by split|done]. }
  destruct (0 <=? best_fault_idx st).
  - destruct (trigger_fault _ _) as [[g2 out2]|] eqn:Hf; simpl in Hrun; [|done].
    injection Hrun as <- _ _. by eapply trigger_fault_wf.
  - destruct (find_line u0 v0 0 _).
    + destruct (trigger_fault _ _) as [[g2 out2]|] eqn:Hf; simpl in Hrun; [|done].
      injection Hrun as <- _ _. by eapply trigger_fault_wf.
    + by eapply trigger_random_fault_wf.
Qed.

End GridsOfTheProgram.

(** * More of the fault engine *)

(** ** Grids given by their tables *)

Lemma neighbors_entry G x y :
  y ∈ Nx.neighbors G x → ∃ nbrs, (x, nbrs) ∈ G ∧ y ∈ nbrs.
Proof.
  induction G as [|[n nbrs] G IH]; simpl; [by intros ?%elem_of_nil|].
  case_bool_decide as Hn.
  - subst n. intros Hy. exists nbrs. split; [left|done].
  - intros Hy. destruct (IH Hy) as (nbrs' & Hin & Hy').
    exists nbrs'. split; [by right|done].
Qed.

Lemma lines_match_check g :
  edges_have_lines g → lines_are_edges g → lines_match g.
Proof.
  intros He Hl x y. split.
  - intros (nbrs & Hin & Hy)%neighbors_entry.
    unfold edges_have_lines in He. rewrite Forall_forall in He.
    specialize (He _ Hin). simpl in He. rewrite Forall_forall in He.
    specialize (He _ Hy). apply Exists_exists in He as (l & Hl' & Hj).
    by exists l.
  - intros (l & Hin & Hj). unfold lines_are_edges in Hl.
    rewrite Forall_forall in Hl. destruct (Hl _ Hin) as [H1 H2].
    unfold adj. apply joins_spec in Hj as [[<- <-]|[<- <-]]; done.
Qed.

Lemma rtc_mono {A} (R1 R2 : relation A) x y :
  (∀ a b, R1 a b → R2 a b) → rtc R1 x y → rtc R2 x y.
Proof.
  intros HR Hp. induction Hp as [|a b c Hab _ IH]; [done|].
  eapply rtc_l; [by apply HR|done].
Qed.

Lemma joins_same_ends u v l l' :
  from_bus l' = from_bus l → to_bus l' = to_bus l → joins u v l' = joins u v l.
Proof. unfold joins. by intros -> ->. Qed.

Lemma joins_comm u v l : joins u v l = joins v u l.
Proof. unfold joins. apply orb_comm. Qed.

Lemma live_sym g x y : live g x y → live g y x.
Proof.
  intros (l & Hl & Hs & Hj). exists l. split; [done|]. split; [done|].
  by rewrite joins_comm.
Qed.

(** ** [energize_grid] *)

Lemma energize_store (h : ref → Line) (refs : list ref) (r : ref) :
  let h' := foldl (λ h r, store_set h r (set_in_service true (h r))) h refs in
  same_but_in_service (h r) (h' r)
  ∧ (r ∈ refs → in_service (h' r) = true)
  ∧ (r ∉ refs → h' r = h r).
Proof.
  induction refs as [|r0 refs IH] using rev_ind; simpl.
  - split; [by repeat split|]. split; [by intros ?%elem_of_nil|done].
  - rewrite foldl_app. cbn [foldl].
    destruct IH as (Hs & Hin & Hout).
    destruct (decide (r = r0)) as [->|Hr].
    + rewrite store_set_eq. split; [|split].
      * destruct Hs as (? & ? & ? & ? & ? & ? & ?). by repeat split.
      * done.
      * intros Hn. exfalso. apply Hn. apply elem_of_app. right. left.
    + rewrite store_set_ne by done. split; [done|]. split.
      * intros [?|?%list_elem_of_singleton]%elem_of_app; [by apply Hin|done].
      * intros Hn. apply Hout. intros ?. apply Hn. apply elem_of_app. by left.
Qed.

(** [energize_grid] puts every record of [line_list] in service and
    touches nothing else: the other fields of the records, the records
    that are not listed, the graph, the tables and the source are as
    before. *)
Theorem energize_grid_all_in_service (g : GridNetwork) :
  same_but_store g (energize_grid g)
  ∧ (∀ r, r ∈ line_list g → in_service (line_obj (energize_grid g) r) = true)
  ∧ (∀ r, same_but_in_service (line_obj g r) (line_obj (energize_grid g) r))
  ∧ (∀ r, r ∉ line_list g → line_obj (energize_grid g) r = line_obj g r).
Proof.
  split; [by repeat split|].
  split; [|split]; intros r; unfold energize_grid; simpl;
    destruct (energize_store (line_obj g) (line_list g) r) as (Hs & Hin & Hout);
    done.
Qed.

Lemma energize_grid_live g x y :
  (∃ l, l ∈ lines g ∧ joins x y l = true) → live (energize_grid g) x y.
Proof.
  intros (l & Hl & Hj). unfold lines in Hl.
  apply list_elem_of_fmap in Hl as (r & -> & Hr).
  destruct (energize_store (line_obj g) (line_list g) r) as (Hs & Hin & _).
  exists (line_obj (energize_grid g) r). split; [|split].
  - unfold lines. apply list_elem_of_fmap. by exists r.
  - by apply Hin.
  - destruct Hs as (_ & Hf & Ht & _).
    unfold energize_grid. simpl. by rewrite (joins_same_ends _ _ _ _ Hf Ht).
Qed.

(** Whatever lines were out of service, once [energize_grid] has run on a
    grid whose full graph is connected and whose source is a bus,
    [get_energized_status] reports every bus live. *)
Theorem energize_grid_restores (g : GridNetwork) :
  nx_graph (G g) → bus_ids_nonneg g → lines_match g →
  connected (G g) → ext_grid_bus g ∈ Nx.nodes (G g) →
  ∀ b, b ∈ Nx.nodes (G g) →
       get_energized_status (energize_grid g) !! b = Some 1.
Proof.
  intros Hg Hids Hm Hconn Hsrc b Hb.
  assert (grid_wf g) as Hwf.
  { split; [done|]. split; [done|]. by apply lines_on_buses_of_match. }
  destruct (energize_grid_wf g Hwf) as (_ & Hids' & Hl').
  apply (status_of_bus (energize_grid g) b Hids' Hl' Hb).
  unfold energized.
  apply (rtc_mono (adj (G g))); [|by apply Hconn].
  intros x y Hxy. apply energize_grid_live. by apply Hm.
Qed.

Lemma energize_grid_restores_witness :
  get_energized_status (Demo.cut (Demo.path 5) 2%nat) !! 4 = Some 0
  ∧ get_energized_status (energize_grid (Demo.cut (Demo.path 5) 2%nat)) !! 4
    = Some 1.
Proof.
  split; [by vm_compute|].
  apply (energize_grid_restores (Demo.cut (Demo.path 5) 2%nat)).
  - apply (nx_graph_demo _ _ 0).
  - unfold bus_ids_nonneg. by_compute.
  - apply lines_match_check.
    + unfold edges_have_lines. by_compute.
    + unfold lines_are_edges. by_compute.
  - apply (connected_by_search _ 0); [apply (nx_graph_demo _ _ 0)|by_compute..].
  - by_compute.
  - by_compute.
Defined.

(** ** [get_active_graph] *)

(** The active graph is a subgraph of the full graph on the same buses:
    it has an edge only where the full graph has one, its adjacency goes
    both ways, and when every line is in service it has exactly the edges
    of the full graph. *)
Theorem get_active_graph_subgraph (g : GridNetwork) :
  nx_graph (G g) → lines_match g →
  (∀ x, x ∈ Nx.nodes (get_active_graph g) ↔ x ∈ Nx.nodes (G g))
  ∧ (∀ x y, adj (get_active_graph g) x y → adj (G g) x y)
  ∧ (∀ x y, adj (get_active_graph g) x y → adj (get_active_graph g) y x)
  ∧ ((∀ l, l ∈ lines g → in_service l = true) →
     ∀ x y, adj (get_active_graph g) x y ↔ adj (G g) x y).
Proof.
  intros Hg Hm.
  pose proof (lines_on_buses_of_match g Hg Hm) as Hl.
  destruct (active_graph_spec g) as (Hn & Ha & _).
  split; [|split; [|split]].
  - intros x. rewrite Hn. split; [|by left].
    intros [Hx|(l & Hin & _ & Hx)]; [done|].
    unfold lines_on_buses in Hl. rewrite Forall_forall in Hl.
    destruct (Hl l Hin) as [Hf Ht]. by destruct Hx as [<-|<-].
  - intros x y (l & Hin & _ & Hj)%Ha. apply Hm. by exists l.
  - intros x y Hxy%Ha. apply Ha. by apply live_sym.
  - intros Hon x y. rewrite Ha. rewrite (Hm x y). split.
    + intros (l & Hin & _ & Hj). by exists l.
    + intros (l & Hin & Hj). exists l. split; [done|]. split; [by apply Hon|done].
Qed.

Lemma get_active_graph_subgraph_witness :
  adj (get_active_graph (Demo.cut (Demo.path 5) 2%nat)) 0 1
  ∧ adj (G (Demo.cut (Demo.path 5) 2%nat)) 0 1.
Proof.
  assert (adj (get_active_graph (Demo.cut (Demo.path 5) 2%nat)) 0 1) as Hact.
  { unfold adj. by_compute. }
  split; [exact Hact|].
  destruct (get_active_graph_subgraph (Demo.cut (Demo.path 5) 2%nat))
    as (_ & Hsub & _).
  - apply (nx_graph_demo _ _ 0).
  - apply lines_match_check.
    + unfold edges_have_lines. by_compute.
    + unfold lines_are_edges. by_compute.
  - exact (Hsub 0 1 Hact).
Defined.

(** ** [get_energized_status] on any grid *)

Lemma get_energized_status_key g b :
  b ∉ Nx.nodes (G g) → get_energized_status g !! b = None.
Proof.
  intros Hb. unfold get_energized_status.
  destruct (_ || _); rewrite lookup_status, bool_decide_eq_false_2; done.
Qed.

(** For every grid, whatever its state: the keys of the status are the
    buses and its values are 0 and 1; a negative source leaves every bus
    at 0; and a source that is a bus with a non-negative id is itself
    live. *)
Theorem get_energized_status_total (g : GridNetwork) :
  (∀ b, is_Some (get_energized_status g !! b) ↔ b ∈ Nx.nodes (G g))
  ∧ (∀ b v, get_energized_status g !! b = Some v → v = 0 ∨ v = 1)
  ∧ (ext_grid_bus g < 0 →
     ∀ b, b ∈ Nx.nodes (G g) → get_energized_status g !! b = Some 0)
  ∧ (0 ≤ ext_grid_bus g → ext_grid_bus g ∈ Nx.nodes (G g) →
     get_energized_status g !! ext_grid_bus g = Some 1).
Proof.
  split; [|split; [|split]].
  - intros b. split.
    + intros [v Hv]. destruct (decide (b ∈ Nx.nodes (G g))) as [|Hn]; [done|].
      rewrite (get_energized_status_key g b Hn) in Hv. done.
    + intros Hb.
      destruct (get_energized_status_lookup g b Hb) as [(-> & _)|(-> & _)]; done.
  - intros b v Hv. destruct (decide (b ∈ Nx.nodes (G g))) as [Hb|Hn].
    + destruct (get_energized_status_lookup g b Hb) as [(Hs & _)|(Hs & _)];
        rewrite Hs in Hv; injection Hv as <-; auto.
    + rewrite (get_energized_status_key g b Hn) in Hv. done.
  - intros Hneg b Hb.
    destruct (get_energized_status_lookup g b Hb) as [(_ & ? & _)|(-> & _)];
      [lia|done].
  - intros Hpos Hsrc.
    destruct (get_energized_status_lookup g _ Hsrc) as [(-> & _)|(_ & Hn)];
      [done|].
    exfalso. apply Hn. split; [done|]. split; [|apply rtc_refl].
    destruct (active_graph_spec g) as (Hnodes & _). apply Hnodes. by left.
Qed.

Lemma get_energized_status_total_witness :
  get_energized_status (Demo.cut (Demo.path 5) 0%nat) !! 0 = Some 1.
Proof.
  destruct (get_energized_status_total (Demo.cut (Demo.path 5) 0%nat))
    as (_ & _ & _ & Hsrc).
  apply Hsrc; [simpl; lia|by_compute].
Defined.

(** ** [get_dead_buses] *)

Lemma elem_of_get_dead_buses (status : gmap Z Z) (b : Z) :
  b ∈ get_dead_buses status ↔ status !! b = Some 0.
Proof.
  unfold get_dead_buses. rewrite elem_of_dom. split.
  - intros [v Hv]. apply map_lookup_filter_Some in Hv as [Hv Hz].
    simpl in Hz. by subst v.
  - intros Hb. exists 0. by apply map_lookup_filter_Some.
Qed.

(** The dead buses of a status are the keys mapped to 0; taken on the
    status of a grid, they are the buses that the source does not reach
    through in-service lines. *)
Theorem get_dead_buses_unreachable (g : GridNetwork) :
  (∀ (status : gmap Z Z) b, b ∈ get_dead_buses status ↔ status !! b = Some 0)
  ∧ (bus_ids_nonneg g → lines_on_buses g →
     ∀ b, b ∈ get_dead_buses (get_energized_status g)
          ↔ b ∈ Nx.nodes (G g) ∧ ¬ energized g b).
Proof.
  split; [apply elem_of_get_dead_buses|].
  intros Hids Hl b. rewrite elem_of_get_dead_buses. split.
  - intros Hb. assert (b ∈ Nx.nodes (G g)) as Hin.
    { destruct (decide (b ∈ Nx.nodes (G g))) as [|Hn]; [done|].
      rewrite (get_energized_status_key g b Hn) in Hb. done. }
    split; [done|]. by apply (status_of_bus g b Hids Hl Hin).
  - intros [Hin Hne]. by apply (status_of_bus g b Hids Hl Hin).
Qed.

Lemma get_dead_buses_unreachable_witness :
  get_dead_buses (get_energized_status (Demo.cut (Demo.path 5) 2%nat)) = {[3; 4]}
  ∧ ¬ energized (Demo.cut (Demo.path 5) 2%nat) 4.
Proof.
  split; [by vm_compute|].
  destruct (get_dead_buses_unreachable (Demo.cut (Demo.path 5) 2%nat))
    as [_ Hdead].
  apply (Hdead ltac:(unfold bus_ids_nonneg; by_compute)
               ltac:(unfold lines_on_buses; by_compute) 4).
  apply elem_of_get_dead_buses. by vm_compute.
Defined.

(** ** What a fault does to the status *)

Lemma live_after_cut g r x y :
  live (with_line_obj g (store_set (line_obj g) r
                                   (set_in_service false (line_obj g r)))) x y →
  ∃ r', r' ∈ line_list g ∧ r' ≠ r
        ∧ in_service (line_obj g r') = true
        ∧ joins x y (line_obj g r') = true.
Proof.
  intros (l & Hl & Hs & Hj). unfold lines in Hl. simpl in Hl.
  apply list_elem_of_fmap in Hl as (r' & -> & Hr').
  destruct (decide (r' = r)) as [->|Hne].
  - rewrite store_set_eq in Hs. done.
  - rewrite store_set_ne in Hs, Hj by done. by exists r'.
Qed.

Lemma trigger_fault_live g line_idx g' out :
  trigger_fault g line_idx = Ret (g', out) →
  G g' = G g ∧ ext_grid_bus g' = ext_grid_bus g
  ∧ ∀ x y, live g' x y → live g x y.
Proof.
  unfold trigger_fault. destruct (_ || _); [by intros [= <- _]|].
  destruct (getitem _ _) as [r|]; simpl; [|done]. intros [= <- _].
  split; [done|]. split; [done|].
  intros x y (r' & Hr' & _ & Hs & Hj)%live_after_cut.
  exists (line_obj g r'). split; [|done].
  unfold lines. apply list_elem_of_fmap. by exists r'.
Qed.

(** A fault never energizes a bus: every bus that [get_energized_status]
    reports live after [trigger_fault] was reported live before it. *)
Theorem trigger_fault_never_energizes (g : GridNetwork) (line_idx : Z)
    (g' : GridNetwork) (out : FaultOutcome) :
  grid_wf g → trigger_fault g line_idx = Ret (g', out) →
  ∀ b, get_energized_status g' !! b = Some 1 →
       get_energized_status g !! b = Some 1.
Proof.
  intros Hwf Hrun b Hb.
  destruct (trigger_fault_wf _ _ _ _ Hrun Hwf) as (_ & Hids' & Hl').
  destruct Hwf as (_ & Hids & Hl).
  destruct (trigger_fault_live _ _ _ _ Hrun) as (HG & Hsrc & Hlive).
  assert (b ∈ Nx.nodes (G g')) as Hin.
  { destruct (decide (b ∈ Nx.nodes (G g'))) as [|Hn]; [done|].
    rewrite (get_energized_status_key g' b Hn) in Hb. done. }
  apply (status_of_bus g' b Hids' Hl' Hin) in Hb.
  rewrite HG in Hin. apply (status_of_bus g b Hids Hl Hin).
  unfold energized in *. rewrite Hsrc in Hb.
  by apply (rtc_mono (live g')).
Qed.

Lemma trigger_fault_never_energizes_witness :
  ∃ g', trigger_fault (Demo.path 5) 2 = Ret (g', Faulted (mkFaultInfo 2 2 3 "L" (PyFloat.of_Z 11)))
        ∧ get_energized_status g' !! 1 = Some 1
        ∧ get_energized_status (Demo.path 5) !! 1 = Some 1.
Proof.
  destruct (trigger_fault (Demo.path 5) 2) as [[g' out]|] eqn:Hrun;
    [|vm_compute in Hrun; discriminate Hrun].
  assert (out = Faulted (mkFaultInfo 2 2 3 "L" (PyFloat.of_Z 11))
          ∧ get_energized_status g' !! 1 = Some 1) as [-> Hb].
  { vm_compute in Hrun. injection Hrun as <- <-. split; [reflexivity|by vm_compute]. }
  exists g'. split; [reflexivity|]. split; [exact Hb|].
  assert (grid_wf (Demo.path 5)) as Hwf.
  { split; [apply (nx_graph_demo _ _ 0)|].
    split; [unfold bus_ids_nonneg; by_compute|unfold lines_on_buses; by_compute]. }
  exact (trigger_fault_never_energizes (Demo.path 5) 2 g' _ Hwf Hrun 1 Hb).
Defined.

Lemma cut_bridge_dead g g' u v :
  nx_graph (G g) → u ∈ Nx.nodes (G g) →
  Traversal.is_bridge (G g) (u, v) = true →
  (∀ x y, live g' x y → adj (Nx.remove_edge (G g) u v) x y) →
  ¬ (energized g' u ∧ energized g' v).
Proof.
  intros Hg Hu Hbr Hlive [Hpu Hpv].
  assert (rtc (live g') u v) as Hp.
  { etrans; [|exact Hpv]. apply rtc_sym; [apply live_sym|exact Hpu]. }
  assert (rtc (adj (Nx.remove_edge (G g) u v)) u v) as Hp'.
  { by apply (rtc_mono (live g')). }
  apply (elem_of_node_component (Nx.remove_edge (G g) u v) u v) in Hp'.
  - unfold Traversal.is_bridge in Hbr. simpl in Hbr.
    by apply bool_decide_eq_true_1 in Hbr.
  - by apply nx_graph_remove_edge.
  - by rewrite nodes_remove_edge.
Qed.

Lemma status_dead_end g u v :
  u ∈ Nx.nodes (G g) → v ∈ Nx.nodes (G g) →
  ¬ (energized g u ∧ energized g v) →
  get_energized_status g !! u = Some 0 ∨ get_energized_status g !! v = Some 0.
Proof.
  intros Hu Hv Hn.
  destruct (get_energized_status_lookup g u Hu) as [(_ & _ & _ & Hpu)|(-> & _)];
    [|by left].
  destruct (get_energized_status_lookup g v Hv) as [(_ & _ & _ & Hpv)|(-> & _)];
    [|by right].
  by destruct Hn.
Qed.

Lemma cut_off_bridge g r e x y :
  lines_match g → no_parallel_lines g → r ∈ line_list g →
  joins e.1 e.2 (line_obj g r) = true →
  live (with_line_obj g (store_set (line_obj g) r
                                   (set_in_service false (line_obj g r)))) x y →
  adj (Nx.remove_edge (G g) e.1 e.2) x y.
Proof.
  intros Hm Hpar Hr Hje (r' & Hr' & Hne & _ & Hj)%live_after_cut.
  apply adj_remove_edge.
  assert (adj (G g) x y) as Hadj.
  { apply Hm. exists (line_obj g r'). split; [|done].
    unfold lines. apply list_elem_of_fmap. by exists r'. }
  split; [done|].
  unfold no_parallel_lines in Hpar. rewrite Forall_forall in Hpar.
  specialize (Hpar r Hr). rewrite Forall_forall in Hpar.
  specialize (Hpar r' Hr').
  destruct e as [u v]. simpl in *.
  apply joins_spec in Hje. apply joins_spec in Hj.
  split; intros [Hx Hy]; subst x y; apply Hne; symmetry; apply Hpar;
    apply joins_spec; destruct Hje as [[-> ->]|[-> ->]]; tauto.
Qed.

(** A fault on the only line record of a bridge of the full graph leaves
    at least one end of that line dead. *)
Theorem trigger_fault_on_bridge (g : GridNetwork) (line_idx : Z) (r : ref) :
  nx_graph (G g) → bus_ids_nonneg g → lines_match g → no_parallel_lines g →
  0 ≤ line_idx → line_list g !! Z.to_nat line_idx = Some r →
  Traversal.is_bridge (G g) (from_bus (line_obj g r), to_bus (line_obj g r)) = true →
  ∃ g' info,
    trigger_fault g line_idx = Ret (g', Faulted info)
    ∧ (get_energized_status g' !! from_bus (line_obj g r) = Some 0
       ∨ get_energized_status g' !! to_bus (line_obj g r) = Some 0).
Proof.
  intros Hg Hids Hm Hpar Hpos Hr Hbr.
  pose proof (lines_on_buses_of_match g Hg Hm) as Hl.
  destruct (trigger_fault_in_range g line_idx)
    as (r0 & g' & Hr0 & Hrun & _ & _ & _ & _).
  { split; [done|]. apply lookup_lt_Some in Hr. lia. }
  rewrite Hr in Hr0. injection Hr0 as <-.
  exists g'. eexists. split; [exact Hrun|].
  assert (r ∈ line_list g) as Hin by by eapply list_elem_of_lookup_2.
  unfold lines_on_buses in Hl. rewrite Forall_forall in Hl.
  destruct (Hl (line_obj g r)) as [Hu Hv].
  { unfold lines. apply list_elem_of_fmap. by exists r. }
  unfold trigger_fault in Hrun.
  destruct (_ || _); [done|].
  destruct (getitem _ _) as [r1|] eqn:Hget; simpl in Hrun; [|done].
  assert (r1 = r) as ->.
  { destruct (getitem_in_range (line_list g) line_idx) as (a & Ha & Hga).
    - split; [done|]. apply lookup_lt_Some in Hr. lia.
    - congruence. }
  injection Hrun as <- _.
  apply status_dead_end; [done..|].
  apply (cut_bridge_dead g); [done..|].
  intros x y. apply (cut_off_bridge g r (_, _)); [done..|].
  simpl. apply joins_spec. by left.
Qed.

Lemma trigger_fault_on_bridge_witness :
  ∃ g' info,
    trigger_fault (Demo.path 5) 2 = Ret (g', Faulted info)
    ∧ (get_energized_status g' !! 2 = Some 0
       ∨ get_energized_status g' !! 3 = Some 0).
Proof.
  apply (trigger_fault_on_bridge (Demo.path 5) 2 2%nat).
  - apply (nx_graph_demo _ _ 0).
  - unfold bus_ids_nonneg. by_compute.
  - apply lines_match_check;
      [unfold edges_have_lines; by_compute|unfold lines_are_edges; by_compute].
  - unfold no_parallel_lines. by_compute.
  - lia.
  - reflexivity.
  - by vm_compute.
Defined.

(** ** A fault and its repair *)

Lemma set_in_service_back (l : Line) :
  in_service l = true → set_in_service true (set_in_service false l) = l.
Proof. destruct l; simpl. by intros ->. Qed.

Lemma set_line_in_service_inside g line_idx b r :
  0 ≤ line_idx → line_list g !! Z.to_nat line_idx = Some r →
  set_line_in_service g line_idx b
  = Ret (with_line_obj g (store_set (line_obj g) r
                                    (set_in_service b (line_obj g r)))).
Proof.
  intros Hpos Hr. unfold set_line_in_service, in_range.
  pose proof (lookup_lt_Some _ _ _ Hr) as Hlt.
  destruct (Z.leb_spec 0 line_idx); [|lia].
  destruct (Z.ltb_spec line_idx (Z.of_nat (length (line_list g)))); [|lia].
  destruct (getitem_in_range (line_list g) line_idx) as (r' & Hr' & ->); [lia|].
  simpl. congruence.
Qed.

Lemma set_line_in_service_outside g line_idx b :
  ¬ (0 ≤ line_idx < Z.of_nat (length (line_list g))) →
  set_line_in_service g line_idx b = Ret g.
Proof.
  intros Hout. unfold set_line_in_service, in_range.
  destruct (Z.leb_spec 0 line_idx); [|done].
  destruct (Z.ltb_spec line_idx (Z.of_nat (length (line_list g)))); [lia|done].
Qed.

Lemma trigger_fault_grid g line_idx g' out :
  trigger_fault g line_idx = Ret (g', out) →
  (¬ (0 ≤ line_idx < Z.of_nat (length (line_list g))) ∧ g' = g)
  ∨ (∃ r, 0 ≤ line_idx ∧ line_list g !! Z.to_nat line_idx = Some r
          ∧ g' = with_line_obj g (store_set (line_obj g) r
                                            (set_in_service false (line_obj g r)))).
Proof.
  unfold trigger_fault.
  destruct (Z.ltb_spec line_idx 0) as [Hneg|Hpos]; simpl.
  { intros [= <- _]. left. split; [lia|done]. }
  destruct (Z.leb_spec (Z.of_nat (length (line_list g))) line_idx) as [Hbig|Hlt];
    simpl.
  { intros [= <- _]. left. split; [lia|done]. }
  destruct (getitem_in_range (line_list g) line_idx) as (r & Hr & ->); [lia|].
  simpl. intros [= <- _]. right. by exists r.
Qed.

(** [trigger_fault] changes the grid exactly as
    [set_line_in_service(line_idx, False)] does, and
    [set_line_in_service(line_idx, True)] undoes the fault of a line that
    was in service: every record of the store is as before the fault. *)
Theorem set_line_in_service_repairs (g : GridNetwork) (line_idx : Z)
    (g1 : GridNetwork) (out : FaultOutcome) :
  trigger_fault g line_idx = Ret (g1, out) →
  set_line_in_service g line_idx false = Ret g1
  ∧ ((∀ r, 0 ≤ line_idx → line_list g !! Z.to_nat line_idx = Some r →
           in_service (line_obj g r) = true) →
     ∃ g2, set_line_in_service g1 line_idx true = Ret g2
           ∧ same_but_store g g2
           ∧ ∀ r, line_obj g2 r = line_obj g r).
Proof.
  intros [[Hout ->]|(r & Hpos & Hr & ->)]%trigger_fault_grid.
  - rewrite !set_line_in_service_outside by done.
    split; [done|]. intros _. exists g. by repeat split.
  - rewrite (set_line_in_service_inside g _ _ r) by done.
    split; [done|]. intros Hon.
    rewrite (set_line_in_service_inside _ _ _ r) by done.
    eexists. split; [reflexivity|]. split; [by repeat split|].
    intros r'. simpl. rewrite store_set_eq.
    destruct (decide (r' = r)) as [->|Hne].
    + rewrite store_set_eq. apply set_in_service_back. by apply Hon.
    + by rewrite !store_set_ne.
Qed.

Lemma set_line_in_service_repairs_witness :
  ∃ g1 g2, trigger_fault (Demo.path 5) 2
             = Ret (g1, Faulted (mkFaultInfo 2 2 3 "L" (PyFloat.of_Z 11)))
           ∧ in_service (line_obj g1 2%nat) = false
           ∧ set_line_in_service g1 2 true = Ret g2
           ∧ line_obj g2 2%nat = line_obj (Demo.path 5) 2%nat.
Proof.
  destruct (trigger_fault (Demo.path 5) 2) as [[g1 out]|] eqn:Hrun;
    [|vm_compute in Hrun; discriminate Hrun].
  destruct (set_line_in_service_repairs _ _ _ _ Hrun) as [_ Hback].
  destruct Hback as (g2 & Hset & _ & Hsame).
  { intros r _ [= <-]. reflexivity. }
  assert (out = Faulted (mkFaultInfo 2 2 3 "L" (PyFloat.of_Z 11))
          ∧ in_service (line_obj g1 2%nat) = false) as [-> Hoff].
  { vm_compute in Hrun. injection Hrun as <- <-. by split. }
  exists g1, g2. split; [reflexivity|]. split; [exact Hoff|].
  split; [exact Hset|apply Hsame].
Defined.

(** ** The random fault and the bridge fault *)

Lemma in_service_indices_spec ls :
  ∀ i0 z, z ∈ in_service_indices i0 ls ↔
          ∃ i l, z = Z.of_nat (i0 + i) ∧ ls !! i = Some l ∧ in_service l = true.
Proof.
  induction ls as [|l ls IH]; intros i0 z; simpl.
  - rewrite elem_of_nil. split; [done|]. by intros (i & l & _ & ? & _).
  - assert (z ∈ in_service_indices (S i0) ls ↔
            ∃ i l', z = Z.of_nat (i0 + S i) ∧ ls !! i = Some l'
                    ∧ in_service l' = true) as IH'.
    { rewrite IH. split; intros (i & l' & -> & ? & ?); exists i, l';
        (split; [f_equal; lia|done]). }
    destruct (in_service l) eqn:Hl.
    + rewrite elem_of_cons, IH'. split.
      * intros [->|(i & l' & -> & ? & ?)].
        -- exists 0%nat, l. split; [f_equal; lia|done].
        -- by exists (S i), l'.
      * intros ([|i] & l' & -> & Hi & Hs); simpl in Hi.
        -- left. f_equal. lia.
        -- right. by exists i, l'.
    + rewrite IH'. split.
      * intros (i & l' & -> & ? & ?). by exists (S i), l'.
      * intros ([|i] & l' & -> & Hi & Hs); simpl in Hi.
        -- injection Hi as <-. congruence.
        -- by exists i, l'.
Qed.

Lemma pick_fold_elem target cands :
  ∀ best, foldl (pick target) best cands = best
          ∨ foldl (pick target) best cands ∈ cands.
Proof.
  induction cands as [|c cands IH]; intros best; simpl; [by left|].
  destruct (IH (pick target best c)) as [->|Hin]; [|right; by right].
  unfold pick. destruct (_ <? _); [right; left|by left].
Qed.

Lemma find_line_spec u v ls :
  ∀ i0 i, find_line u v i0 ls = Some i →
          ∃ l, ls !! (i - i0)%nat = Some l ∧ joins u v l = true.
Proof.
  induction ls as [|l ls IH]; intros i0 i; simpl; [done|].
  destruct (joins u v l) eqn:Hj.
  - intros [= <-]. exists l. by rewrite Nat.sub_diag.
  - intros Hf. pose proof (find_line_lt _ _ _ _ _ Hf) as Hlt.
    destruct (IH _ _ Hf) as (l' & Hl' & Hj'). exists l'. split; [|done].
    replace (i - i0)%nat with (S (i - S i0)) by lia. done.
Qed.

Lemma find_line_complete u v ls l :
  l ∈ ls → joins u v l = true → ∀ i0, ∃ i, find_line u v i0 ls = Some i.
Proof.
  intros Hl Hj. induction ls as [|l0 ls IH]; intros i0; simpl.
  - by apply elem_of_nil in Hl.
  - destruct (joins u v l0) eqn:Hj0; [by eexists|].
    apply elem_of_cons in Hl as [->|Hl]; [congruence|]. by apply IH.
Qed.

Section FaultProofs.

Variable Rng : Type.
Variable np_seed : Z → Rng.
Variable np_choice : Rng → list Z → Z * Rng.
Variable np_choice_distinct : Rng → nat → nat → list nat * Rng.

Local Abbreviation find_bridge_fault' :=
  (find_bridge_fault Rng np_seed np_choice np_choice_distinct).
Local Abbreviation trigger_random_fault' :=
  (trigger_random_fault Rng np_seed np_choice).
Local Abbreviation sample_bridges' := (sample_bridges Rng np_choice_distinct).
Local Abbreviation reseed' := (reseed Rng np_seed).

(** [trigger_random_fault].  When no line is in service it reports so and
    leaves the grid and the generator as they were, seed or no seed.
    Otherwise it draws among the positions of the in-service lines; when
    the draw is one of them, that line, which was in service, is out of
    service afterwards, and no other record changes. *)
Theorem trigger_random_fault_spec (g : GridNetwork) (seed : option Z) (rng : Rng) :
  let a := in_service_indices 0 (lines g) in
  ((∀ r, r ∈ line_list g → in_service (line_obj g r) = false) →
   trigger_random_fault' g seed rng = Ret (g, NoInServiceLines, rng))
  ∧ ((np_choice (reseed' seed rng) a).1 ∈ a →
     ∃ r g' info,
       trigger_random_fault' g seed rng
       = Ret (g', Faulted info, (np_choice (reseed' seed rng) a).2)
       ∧ fi_line_idx info = (np_choice (reseed' seed rng) a).1
       ∧ 0 ≤ fi_line_idx info
       ∧ line_list g !! Z.to_nat (fi_line_idx info) = Some r
       ∧ in_service (line_obj g r) = true
       ∧ in_service (line_obj g' r) = false
       ∧ ∀ r', r' ≠ r → line_obj g' r' = line_obj g r').
Proof.
  intros a. unfold a. clear a.
  remember (in_service_indices 0 (lines g)) as a eqn:Ha.
  split.
  - intros Hoff. unfold trigger_random_fault. rewrite <-Ha.
    destruct a as [|z a']; [done|]. exfalso.
    assert (z ∈ in_service_indices 0 (lines g)) as Hz by (rewrite <-Ha; left).
    apply in_service_indices_spec in Hz as (i & l & _ & Hl & Hs).
    unfold lines in Hl. rewrite list_lookup_fmap in Hl.
    destruct (line_list g !! i) as [r|] eqn:Hr; [|done].
    injection Hl as <-. rewrite Hoff in Hs; [done|].
    by eapply list_elem_of_lookup_2.
  - intros Hdraw. unfold trigger_random_fault. rewrite <-Ha.
    destruct a as [|z a']; [by apply elem_of_nil in Hdraw|].
    destruct (np_choice (reseed' seed rng) (z :: a')) as [line_idx rng'] eqn:Hch.
    simpl in Hdraw. rewrite Ha in Hdraw.
    apply in_service_indices_spec in Hdraw as (i & l & -> & Hl & Hs).
    unfold lines in Hl. rewrite list_lookup_fmap in Hl.
    destruct (line_list g !! i) as [r|] eqn:Hr; [|done].
    injection Hl as <-.
    destruct (trigger_fault_in_range g (Z.of_nat (0 + i)))
      as (r1 & g' & Hr1 & -> & _ & Hoff & _ & Hothers).
    { apply lookup_lt_Some in Hr. lia. }
    rewrite Nat2Z.id in Hr1. simpl in Hr1. rewrite Hr in Hr1.
    injection Hr1 as <-.
    simpl. exists r, g'. eexists. split; [reflexivity|]. simpl.
    rewrite Nat2Z.id. split; [done|]. split; [lia|]. done.
Qed.

(** [find_bridge_fault] on a grid that has a bridge and a line record for
    every edge: whatever the sample, the outcome is a fault, never an
    error, and the line taken out of service joins the two ends of a
    bridge of the full graph.  When no two records join the same pair of
    buses, one end of that bridge is dead afterwards. *)
Theorem find_bridge_fault_cuts_bridge (g : GridNetwork) (seed : option Z)
    (rng : Rng) (sample : list (Z * Z)) (rng2 : Rng) :
  nx_graph (G g) → bus_ids_nonneg g → lines_match g →
  Traversal.bridges (G g) ≠ [] →
  sample_bridges' (Traversal.bridges (G g)) (reseed' seed rng)
  = Ret (sample, rng2) →
  ∃ g' info r e,
    find_bridge_fault' g seed rng = Ret (g', Faulted info, rng2)
    ∧ 0 ≤ fi_line_idx info
    ∧ line_list g !! Z.to_nat (fi_line_idx info) = Some r
    ∧ fi_from_bus info = from_bus (line_obj g r)
    ∧ fi_to_bus info = to_bus (line_obj g r)
    ∧ e ∈ Traversal.bridges (G g)
    ∧ joins e.1 e.2 (line_obj g r) = true
    ∧ in_service (line_obj g' r) = false
    ∧ (∀ r', r' ≠ r → line_obj g' r' = line_obj g r')
    ∧ (no_parallel_lines g →
       get_energized_status g' !! e.1 = Some 0
       ∨ get_energized_status g' !! e.2 = Some 0).
Proof.
  intros Hg Hids Hm Hne Hsample.
  destruct (sample_bridges_spec _ _ _ _ _ _ Hsample) as (_ & Hsub & _).
  destruct (scan_fold g (target_count g) sample Hg) with (st := mkScan (G g) (-1) 0)
    as [Hsame Hbest].
  { apply Forall_forall. intros [u v] He. simpl.
    apply bridges_adj; [done|]. by apply Hsub. }
  { apply same_graph_refl. }
  set (st := foldl _ _ sample) in *.
  unfold best_of in Hbest. simpl in Hbest.
  (* the line that is faulted, and the bridge it lies on *)
  assert (∃ i e, e ∈ Traversal.bridges (G g)
                 ∧ find_line e.1 e.2 0 (lines g) = Some i
                 ∧ find_bridge_fault' g seed rng
                   = '(g2, out) ← trigger_fault (with_G g (scan_G st)) (Z.of_nat i);
                     Ret (g2, out, rng2)) as (i & e & He & Hfind & Hrun).
  { unfold find_bridge_fault.
    destruct (Traversal.bridges (G g)) as [|[u0 v0] bs] eqn:Hbridges; [done|].
    rewrite Hsample. simpl. fold st.
    destruct (Z.leb_spec 0 (best_fault_idx st)) as [Hpos|Hneg].
    - destruct (pick_fold_elem (target_count g) (candidates g sample) (-1, 0))
        as [Heq|Hin].
      + rewrite <-Hbest in Heq. injection Heq as Heq _. lia.
      + rewrite <-Hbest in Hin.
        apply candidates_elem in Hin as (e & i & He & Hfind & [= Hi _]).
        exists i, e. split; [by apply Hsub|]. split; [done|]. by rewrite Hi.
    - assert (adj (G g) u0 v0) as Hadj.
      { apply bridges_adj; [done|]. rewrite Hbridges. left. }
      apply Hm in Hadj as (l & Hl0 & Hj).
      destruct (find_line_complete u0 v0 (lines g) l Hl0 Hj 0%nat) as [i Hi].
      change (lines (with_G g (scan_G st))) with (lines g). rewrite Hi.
      exists i, (u0, v0). split; [left|]. split; [done|]. done. }
  destruct (find_line_spec _ _ _ _ _ Hfind) as (l & Hl0 & Hj).
  rewrite Nat.sub_0_r in Hl0. unfold lines in Hl0.
  rewrite list_lookup_fmap in Hl0.
  destruct (line_list g !! i) as [r|] eqn:Hr; [|done]. injection Hl0 as <-.
  destruct (trigger_fault_in_range (with_G g (scan_G st)) (Z.of_nat i))
    as (r1 & g' & Hr1 & Hf & _ & Hoff & _ & Hothers).
  { simpl. apply lookup_lt_Some in Hr. lia. }
  simpl in Hr1. rewrite Nat2Z.id, Hr in Hr1. injection Hr1 as <-.
  rewrite Hrun, Hf. simpl in *.
  exists g'. eexists. exists r, e. split; [reflexivity|]. simpl.
  rewrite Nat2Z.id.
  split; [lia|]. split; [done|]. split; [done|]. split; [done|].
  split; [done|]. split; [done|]. split; [done|]. split; [done|].
  intros Hpar.
  apply trigger_fault_grid in Hf as [[Hout _]|(r2 & _ & Hr2 & ->)].
  { exfalso. apply Hout. simpl. apply lookup_lt_Some in Hr. lia. }
  simpl in Hr2. rewrite Nat2Z.id, Hr in Hr2. injection Hr2 as <-.
  assert (adj (G g) e.1 e.2) as Hadj.
  { destruct e. by apply bridges_adj. }
  assert (e.1 ∈ Nx.nodes (G g)) as Hu by by eapply adj_is_node.
  assert (e.2 ∈ Nx.nodes (G g)) as Hv by by eapply (proj1 (proj2 Hg)).
  destruct Hsame as [Hnodes _].
  apply status_dead_end; simpl; [by rewrite Hnodes..|].
  apply (cut_bridge_dead g); [done..| |].
  - unfold Traversal.bridges in He. apply list_elem_of_filter in He as [He _].
    destruct e. by apply Is_true_true.
  - intros x y Hxy.
    apply (cut_off_bridge g r e); [done|done| |done|exact Hxy].
    by eapply list_elem_of_lookup_2.
Qed.

End FaultProofs.

Lemma trigger_random_fault_spec_witness :
  ∃ g', trigger_random_fault unit Demo.np_seed Demo.np_choice
          (Demo.cut (Demo.path 5) 0%nat) (Some 7) tt
        = Ret (g', Faulted (mkFaultInfo 1 1 2 "L" (PyFloat.of_Z 11)), tt)
        ∧ in_service (line_obj g' 1%nat) = false.
Proof.
  destruct (trigger_random_fault_spec unit Demo.np_seed Demo.np_choice
              (Demo.cut (Demo.path 5) 0%nat) (Some 7) tt) as [_ Hdraw].
  destruct Hdraw as (r & g' & info & Hrun & Hidx & _ & Hr & _ & Hoff & _).
  { by_compute. }
  assert (fi_line_idx info = 1) as Hi by (rewrite Hidx; reflexivity).
  rewrite Hi in Hr. injection Hr as <-.
  exists g'. split; [|exact Hoff].
  rewrite Hrun. vm_compute in Hrun. injection Hrun as _ <-. reflexivity.
Defined.

Lemma find_bridge_fault_cuts_bridge_witness :
  ∃ g' info e,
    Demo.find_bridge_fault (Demo.path 10) (Some 42) = Ret (g', Faulted info, tt)
    ∧ e ∈ Traversal.bridges (G (Demo.path 10))
    ∧ (get_energized_status g' !! e.1 = Some 0
       ∨ get_energized_status g' !! e.2 = Some 0).
Proof.
  destruct (find_bridge_fault_cuts_bridge unit Demo.np_seed Demo.np_choice
              Demo.np_choice_distinct (Demo.path 10) (Some 42) tt
              (Traversal.bridges (G (Demo.path 10))) tt)
    as (g' & info & r & e & Hrun & _ & _ & _ & _ & He & _ & _ & _ & Hdead).
  - apply (nx_graph_demo _ _ 0).
  - unfold bus_ids_nonneg. by_compute.
  - apply lines_match_check;
      [unfold edges_have_lines; by_compute|unfold lines_are_edges; by_compute].
  - by vm_compute.
  - by vm_compute.
  - exists g', info, e. split; [exact Hrun|]. split; [exact He|].
    apply Hdead. unfold no_parallel_lines. by_compute.
Defined.

(** * More of the sensors *)

(** ** [place_sensors_sqrt_n] on any grid whose source is a bus *)

Lemma last_elem_of {A} (l : list A) (x : A) : last l = Some x → x ∈ l.
Proof.
  intros Hl. rewrite last_lookup in Hl. by eapply list_elem_of_lookup_2.
Qed.

Lemma elem_of_concat_lookup {A} (bs : list (list A)) i b x :
  bs !! i = Some b → x ∈ b → x ∈ concat bs.
Proof.
  revert i. induction bs as [|b0 bs IH]; intros i Hb Hx; [done|].
  simpl. apply elem_of_app. destruct i as [|i]; simpl in Hb.
  - injection Hb as ->. by left.
  - right. by eapply IH.
Qed.

Lemma place_sensors_run g :
  adj_closed (G g) → 0 ≤ ext_grid_bus g → ext_grid_bus g ∈ Nx.nodes (G g) →
  let ordering := Traversal.visit_order (G g) (ext_grid_bus g) in
  let n := length ordering in
  let k := ceil_sqrt n in
  (0 < n)%nat
  ∧ ∃ sensors,
      place_sensors_sqrt_n g = Ret (sensors, blocks_from ordering n 0 k)
      ∧ length sensors = length (blocks_from ordering n 0 k)
      ∧ (∀ i b, blocks_from ordering n 0 k !! i = Some b → sensors !! i = last b)
      ∧ (∀ s, s ∈ sensors → s ∈ ordering).
Proof.
  intros Hcl Hpos Hsrc ordering n k.
  destruct (visit_order_spec _ _ Hcl Hsrc) as (_ & _ & _ & Hhead).
  assert (0 < n)%nat as Hn.
  { unfold n, ordering. destruct (Traversal.visit_order _ _); [done|simpl; lia]. }
  split; [done|].
  destruct (ceil_sqrt_spec n Hn) as (Hk & _).
  unfold place_sensors_sqrt_n, Traversal.dfs_preorder_nodes, Nx.has_node.
  destruct (Z.ltb_spec (ext_grid_bus g) 0) as [?|_]; [lia|].
  rewrite bool_decide_eq_true_2 by done. simpl.
  fold ordering. fold n.
  destruct (Nat.eqb_spec n 0) as [?|_]; [lia|]. fold k.
  change ((λ i, slice ordering i (i + k)) <$> range_step n 0 n k)
    with (blocks_from ordering n 0 k).
  destruct (blocks_from_spec ordering k Hk n 0 ltac:(unfold n; lia))
    as (Hcat & _ & Hblk).
  rewrite drop_0 in Hcat.
  destruct (mapM_py_Ret (λ block : list Z, getitem block (-1)) last
              (blocks_from ordering n 0 k)) as (sensors & -> & Hslen & Hsnth).
  { intros b [j Hj]%list_elem_of_lookup.
    destruct (Hblk j b Hj) as [[Hb1 _] _].
    destruct (last b) as [x|] eqn:Hlast.
    - exists x. split; [done|]. by apply getitem_last.
    - apply last_None in Hlast. subst b. simpl in Hb1. lia. }
  simpl. exists sensors. split; [done|]. split; [done|]. split; [done|].
  intros s [i Hi]%list_elem_of_lookup. rewrite <-Hcat.
  destruct (blocks_from ordering n 0 k !! i) as [b|] eqn:Hb.
  - rewrite (Hsnth i b Hb) in Hi. eapply elem_of_concat_lookup; [done|].
    by apply last_elem_of.
  - apply lookup_ge_None in Hb. apply lookup_lt_Some in Hi. lia.
Qed.

(** The blocks of [place_sensors_sqrt_n] cover exactly the part of the
    full graph that the source reaches, each of its buses once and the
    source first, also when the graph is not connected; the buses beyond
    that part are in no block, and every sensor is a bus of that part. *)
Theorem place_sensors_sqrt_n_component (g : GridNetwork) :
  adj_closed (G g) → 0 ≤ ext_grid_bus g → ext_grid_bus g ∈ Nx.nodes (G g) →
  ∃ sensors blocks,
    place_sensors_sqrt_n g = Ret (sensors, blocks)
    ∧ NoDup (concat blocks)
    ∧ head (concat blocks) = Some (ext_grid_bus g)
    ∧ (∀ b, b ∈ concat blocks ↔ rtc (adj (G g)) (ext_grid_bus g) b)
    ∧ (∀ s, s ∈ sensors → rtc (adj (G g)) (ext_grid_bus g) s).
Proof.
  intros Hcl Hpos Hsrc.
  destruct (place_sensors_run g Hcl Hpos Hsrc)
    as (Hn & sensors & Hrun & Hlen & Hs & Hin).
  destruct (visit_order_spec _ _ Hcl Hsrc) as (Hnd & _ & Hreach & Hhead).
  set (ordering := Traversal.visit_order (G g) (ext_grid_bus g)) in *.
  set (n := length ordering) in *.
  destruct (ceil_sqrt_spec n Hn) as (Hk & _).
  destruct (blocks_from_spec ordering (ceil_sqrt n) Hk n 0 ltac:(unfold n; lia))
    as (Hcat & _ & _).
  rewrite drop_0 in Hcat.
  exists sensors, (blocks_from ordering n 0 (ceil_sqrt n)).
  split; [done|]. rewrite Hcat. split; [done|]. split; [done|]. split; [done|].
  intros s Hs'. apply Hreach. by apply Hin.
Qed.

Lemma place_sensors_sqrt_n_component_witness :
  ∃ sensors blocks,
    place_sensors_sqrt_n
      (Demo.grid_of [0; 1; 2; 3; 4] [(0, 1); (1, 2); (3, 4)] 0)
    = Ret (sensors, blocks)
    ∧ concat blocks = [0; 1; 2].
Proof.
  destruct (place_sensors_sqrt_n_component
              (Demo.grid_of [0; 1; 2; 3; 4] [(0, 1); (1, 2); (3, 4)] 0))
    as (sensors & blocks & Hrun & _).
  - apply (nx_graph_demo _ _ 0).
  - simpl. lia.
  - by_compute.
  - exists sensors, blocks. split; [exact Hrun|].
    vm_compute in Hrun. injection Hrun as _ <-. reflexivity.
Defined.

Lemma concat_NoDup_block {A} (bs : list (list A)) :
  NoDup (concat bs) →
  ∀ i j b b' x, bs !! i = Some b → bs !! j = Some b' → x ∈ b → x ∈ b' → i = j.
Proof.
  induction bs as [|b0 bs IH]; intros Hnd i j b b' x Hi Hj Hx Hx'; [done|].
  simpl in Hnd. apply NoDup_app in Hnd as (_ & Hdisj & Hnd).
  destruct i as [|i], j as [|j]; simpl in *; [done| | |].
  - injection Hi as <-. exfalso. apply (Hdisj x Hx).
    by eapply elem_of_concat_lookup.
  - injection Hj as <-. exfalso. apply (Hdisj x Hx').
    by eapply elem_of_concat_lookup.
  - f_equal. by eapply IH.
Qed.

(** [place_sensors_sqrt_n] places one sensor per block, at least one and
    at most [ceil(sqrt(n))] of them for the [n] buses it orders, on
    pairwise distinct buses; [ceil(sqrt(n))] sensors watch at most
    [ceil(sqrt(n))] buses each. *)
Theorem place_sensors_sqrt_n_count (g : GridNetwork) :
  adj_closed (G g) → 0 ≤ ext_grid_bus g → ext_grid_bus g ∈ Nx.nodes (G g) →
  ∃ sensors blocks,
    place_sensors_sqrt_n g = Ret (sensors, blocks)
    ∧ length sensors = length blocks
    ∧ (1 ≤ length sensors ≤ ceil_sqrt (length (concat blocks)))%nat
    ∧ (length (concat blocks)
       ≤ length sensors * ceil_sqrt (length (concat blocks)))%nat
    ∧ NoDup sensors.
Proof.
  intros Hcl Hpos Hsrc.
  destruct (place_sensors_run g Hcl Hpos Hsrc)
    as (Hn & sensors & Hrun & Hlen & Hs & _).
  destruct (visit_order_spec _ _ Hcl Hsrc) as (Hnd & _ & _ & _).
  set (ordering := Traversal.visit_order (G g) (ext_grid_bus g)) in *.
  set (n := length ordering) in *.
  destruct (ceil_sqrt_spec n Hn) as (Hk & Hsq & _).
  set (k := ceil_sqrt n) in *.
  destruct (blocks_from_spec ordering k Hk n 0 ltac:(unfold n; lia))
    as (Hcat & Hnum & Hblk).
  rewrite drop_0 in Hcat. rewrite Nat.sub_0_r in Hnum. fold n in Hnum.
  exists sensors, (blocks_from ordering n 0 k).
  split; [done|]. split; [done|]. rewrite Hcat. fold n. fold k.
  rewrite Hlen, Hnum. unfold ceil_div.
  split; [split|split].
  - apply Nat.div_le_lower_bound; lia.
  - apply Nat.lt_succ_r. apply Nat.Div0.div_lt_upper_bound. nia.
  - pose proof (Nat.Div0.div_mod (n + k - 1) k) as Hdm.
    pose proof (Nat.mod_upper_bound (n + k - 1) k ltac:(lia)). nia.
  - apply NoDup_alt. intros i j x Hi Hj.
    assert (∀ i, sensors !! i = Some x →
                 ∃ b, blocks_from ordering n 0 k !! i = Some b ∧ x ∈ b) as Hblock.
    { intros i' Hi'.
      destruct (blocks_from ordering n 0 k !! i') as [b|] eqn:Hb.
      - exists b. split; [done|]. rewrite (Hs i' b Hb) in Hi'.
        by apply last_elem_of.
      - apply lookup_ge_None in Hb. apply lookup_lt_Some in Hi'. lia. }
    destruct (Hblock i Hi) as (b & Hb & Hx).
    destruct (Hblock j Hj) as (b' & Hb' & Hx').
    eapply (concat_NoDup_block (blocks_from ordering n 0 k)); [|done..].
    by rewrite Hcat.
Qed.

Lemma place_sensors_sqrt_n_count_witness :
  ∃ sensors blocks,
    place_sensors_sqrt_n (Demo.path 10) = Ret (sensors, blocks)
    ∧ length sensors = 3%nat ∧ ceil_sqrt 10 = 4%nat.
Proof.
  destruct (place_sensors_sqrt_n_count (Demo.path 10))
    as (sensors & blocks & Hrun & _).
  - apply (nx_graph_demo _ _ 0).
  - simpl. lia.
  - by_compute.
  - exists sensors, blocks. split; [exact Hrun|].
    vm_compute in Hrun. injection Hrun as <- _. by split.
Defined.

(** ** Reading the sensors and naming the block *)

Lemma first_dead_cases readings sensors :
  ∀ i0,
    (first_dead readings i0 sensors = -1
     ∧ ∀ s, s ∈ sensors → default 1 (readings !! s) ≠ 0)
    ∨ (∃ i s, first_dead readings i0 sensors = Z.of_nat (i0 + i)
              ∧ sensors !! i = Some s
              ∧ default 1 (readings !! s) = 0
              ∧ ∀ j sj, (j < i)%nat → sensors !! j = Some sj →
                        default 1 (readings !! sj) ≠ 0).
Proof.
  induction sensors as [|s0 sensors IH]; intros i0; simpl.
  - left. split; [done|]. by intros s ?%elem_of_nil.
  - case_bool_decide as Hs0.
    + right. exists 0%nat, s0. split; [f_equal; lia|]. split; [done|].
      split; [done|]. intros j sj Hj. lia.
    + destruct (IH (S i0)) as [[-> Hall]|(i & s & -> & Hi & Hs & Hbefore)].
      * left. split; [done|]. intros s [->|?]%elem_of_cons; [done|by apply Hall].
      * right. exists (S i), s. split; [f_equal; lia|]. split; [done|].
        split; [done|]. intros [|j] sj Hj Hsj; simpl in Hsj.
        -- by injection Hsj as <-.
        -- apply (Hbefore j); [lia|done].
Qed.

Lemma read_sensors_lookup sensors (status : gmap Z Z) s :
  read_sensors sensors status !! s
  = if bool_decide (s ∈ sensors) then Some (default 0 (status !! s)) else None.
Proof. unfold read_sensors. apply (lookup_status (λ s, default 0 (status !! s))). Qed.

(** [read_sensors] gives a reading to each sensor and to nothing else: the
    status of its bus, or 0 when the status has no entry for it.  On such
    readings [identify_faulty_block] returns the position of the first
    sensor whose bus has status 0 or no status at all, and -1 when there
    is none: the default 1 of its own lookup is never used. *)
Theorem identify_after_read (status : gmap Z Z) (sensors : list Z)
    (blocks : list (list Z)) :
  let readings := read_sensors sensors status in
  let result := identify_faulty_block readings sensors blocks in
  (∀ s, s ∈ sensors → readings !! s = Some (default 0 (status !! s)))
  ∧ (∀ s, s ∉ sensors → readings !! s = None)
  ∧ (result = -1 ↔ ∀ s, s ∈ sensors → default 0 (status !! s) ≠ 0)
  ∧ (∀ i, result = Z.of_nat i ↔
          ∃ s, sensors !! i = Some s
               ∧ default 0 (status !! s) = 0
               ∧ ∀ j sj, (j < i)%nat → sensors !! j = Some sj →
                         default 0 (status !! sj) ≠ 0).
Proof.
  intros readings result.
  assert (∀ s, s ∈ sensors →
               default 1 (readings !! s) = default 0 (status !! s)) as Hread.
  { intros s Hs. unfold readings.
    by rewrite read_sensors_lookup, bool_decide_eq_true_2. }
  split; [|split; [|split]].
  - intros s Hs. unfold readings.
    by rewrite read_sensors_lookup, bool_decide_eq_true_2.
  - intros s Hs. unfold readings.
    by rewrite read_sensors_lookup, bool_decide_eq_false_2.
  - unfold result, identify_faulty_block.
    destruct (first_dead_cases readings sensors 0)
      as [[-> Hall]|(i & s & -> & Hi & Hs & Hbefore)].
    + split; [|done]. intros _ s Hs. rewrite <-Hread by done. by apply Hall.
    + split; [lia|]. intros Hall. exfalso.
      assert (s ∈ sensors) as Hin by by eapply list_elem_of_lookup_2.
      apply (Hall s Hin). by rewrite <-Hread.
  - intros i. unfold result, identify_faulty_block.
    destruct (first_dead_cases readings sensors 0)
      as [[-> Hall]|(i' & s & -> & Hi & Hs & Hbefore)].
    + split; [lia|]. intros (s & Hi & Hs & _). exfalso.
      assert (s ∈ sensors) as Hin by by eapply list_elem_of_lookup_2.
      apply (Hall s Hin). by rewrite Hread.
    + assert (s ∈ sensors) as Hin by by eapply list_elem_of_lookup_2.
      split.
      * intros Heq. assert (i = i') as -> by lia. exists s.
        split; [done|]. split; [by rewrite <-Hread|].
        intros j sj Hj Hsj. rewrite <-Hread by by eapply list_elem_of_lookup_2.
        by eapply Hbefore.
      * intros (s' & Hi'' & Hs' & Hbefore'). f_equal.
        destruct (Nat.lt_trichotomy i i') as [Hlt|[->|Hgt]]; [|done|].
        -- exfalso. apply (Hbefore i s' Hlt Hi'').
           rewrite Hread by by eapply list_elem_of_lookup_2. done.
        -- exfalso. apply (Hbefore' i' s Hgt Hi). by rewrite <-Hread.
Qed.

(** [identify_faulty_block] on the readings of the status of a grid: it
    returns -1 exactly when the source reaches every sensor through
    in-service lines, and otherwise the position of the first sensor, in
    the order of the list, that the source does not reach. *)
Theorem identify_reads_reachability (g : GridNetwork) (sensors : list Z)
    (blocks : list (list Z)) :
  bus_ids_nonneg g → lines_on_buses g →
  Forall (λ s, s ∈ Nx.nodes (G g)) sensors →
  let result := identify_faulty_block
                  (read_sensors sensors (get_energized_status g)) sensors blocks in
  (result = -1 ↔ ∀ s, s ∈ sensors → energized g s)
  ∧ (∀ i, result = Z.of_nat i ↔
          ∃ s, sensors !! i = Some s ∧ ¬ energized g s
               ∧ ∀ j sj, (j < i)%nat → sensors !! j = Some sj → energized g sj).
Proof.
  intros Hids Hl Hbuses result. rewrite Forall_forall in Hbuses.
  assert (∀ s, s ∈ sensors →
               (default 1 (read_sensors sensors (get_energized_status g) !! s) = 0
                ↔ ¬ energized g s)) as Hdead.
  { intros s Hs. rewrite read_sensors_lookup, bool_decide_eq_true_2 by done.
    simpl. pose proof (status_of_bus g s Hids Hl (Hbuses s Hs)) as [H1 H0].
    destruct (get_energized_status_lookup g s (Hbuses s Hs))
      as [(Hst & _ & _ & Hp)|(Hst & _)]; rewrite Hst; simpl.
    - split; [done|]. intros Hn. by destruct Hn.
    - split; [|done]. intros _. by apply H0. }
  assert (∀ s, s ∈ sensors →
               (default 1 (read_sensors sensors (get_energized_status g) !! s) ≠ 0
                ↔ energized g s)) as Hlive.
  { intros s Hs. rewrite read_sensors_lookup, bool_decide_eq_true_2 by done.
    simpl. pose proof (status_of_bus g s Hids Hl (Hbuses s Hs)) as [H1 H0].
    destruct (get_energized_status_lookup g s (Hbuses s Hs))
      as [(Hst & _ & _ & Hp)|(Hst & _)]; rewrite Hst; simpl.
    - split; [done|]. intros _. done.
    - split; [done|]. intros Hp. exfalso. by apply H0. }
  unfold result, identify_faulty_block.
  destruct (first_dead_cases (read_sensors sensors (get_energized_status g)) sensors 0)
    as [[-> Hall]|(i' & s & -> & Hi & Hs & Hbefore)].
  - split.
    + split; [|done]. intros _ s Hs. apply Hlive; [done|]. by apply Hall.
    + intros i. split; [lia|]. intros (s & Hi & Hs & _). exfalso.
      assert (s ∈ sensors) as Hin by by eapply list_elem_of_lookup_2.
      apply Hs. apply Hlive; [done|]. by apply Hall.
  - assert (s ∈ sensors) as Hin by by eapply list_elem_of_lookup_2.
    split.
    + split; [lia|]. intros Hall. exfalso.
      apply (proj1 (Hdead s Hin) Hs). by apply Hall.
    + intros i. split.
      * intros Heq. assert (i = i') as -> by lia. exists s.
        split; [done|]. split; [by apply Hdead|].
        intros j sj Hj Hsj. apply Hlive; [by eapply list_elem_of_lookup_2|].
        by eapply Hbefore.
      * intros (s' & Hi'' & Hs' & Hbefore'). f_equal.
        destruct (Nat.lt_trichotomy i i') as [Hlt|[->|Hgt]]; [|done|].
        -- exfalso. apply (Hbefore i s' Hlt Hi'').
           apply Hdead; [by eapply list_elem_of_lookup_2|done].
        -- exfalso. apply (proj1 (Hdead s Hin) Hs). by eapply Hbefore'.
Qed.

Lemma identify_reads_reachability_witness :
  identify_faulty_block
    (read_sensors [2; 5; 8] (get_energized_status (Demo.cut (Demo.path 9) 3%nat)))
    [2; 5; 8] [[0; 1; 2]; [3; 4; 5]; [6; 7; 8]] = 1
  ∧ ¬ energized (Demo.cut (Demo.path 9) 3%nat) 5.
Proof.
  split; [by vm_compute|].
  destruct (identify_reads_reachability (Demo.cut (Demo.path 9) 3%nat) [2; 5; 8]
              [[0; 1; 2]; [3; 4; 5]; [6; 7; 8]]) as [_ Hpos].
  - unfold bus_ids_nonneg. by_compute.
  - unfold lines_on_buses. by_compute.
  - by_compute.
  - destruct (proj1 (Hpos 1%nat)) as (s & Hs & Hdead & _); [by vm_compute|].
    injection Hs as <-. exact Hdead.
Defined.

Lemma no_fault_when_healthy (g : GridNetwork) :
  nx_graph (G g) → bus_ids_nonneg g → lines_match g →
  connected (G g) → ext_grid_bus g ∈ Nx.nodes (G g) →
  (∀ r, r ∈ line_list g → in_service (line_obj g r) = true) →
  ∃ sensors blocks,
    place_sensors_sqrt_n g = Ret (sensors, blocks)
    ∧ identify_faulty_block (read_sensors sensors (get_energized_status g))
                            sensors blocks = -1.
Proof.
  intros Hg Hids Hm Hconn Hsrc Hon.
  pose proof (lines_on_buses_of_match g Hg Hm) as Hl.
  assert (0 ≤ ext_grid_bus g) as Hpos.
  { unfold bus_ids_nonneg in Hids. rewrite Forall_forall in Hids. by apply Hids. }
  destruct (place_sensors_run g (proj1 (proj2 Hg)) Hpos Hsrc)
    as (_ & sensors & Hrun & _ & _ & Hord).
  destruct (visit_order_spec _ _ (proj1 (proj2 Hg)) Hsrc) as (_ & Hsub & _).
  eexists _, _. split; [exact Hrun|].
  apply first_dead_none. intros s Hs.
  rewrite read_sensors_lookup, bool_decide_eq_true_2 by done.
  assert (s ∈ Nx.nodes (G g)) as Hin by (apply Hsub; by apply Hord).
  assert (get_energized_status g !! s = Some 1) as ->; [|done].
  apply (status_of_bus g s Hids Hl Hin). unfold energized.
  apply (rtc_mono (adj (G g))); [|by apply Hconn].
  intros x y (l & Hl0 & Hj)%Hm. exists l. split; [done|]. split; [|done].
  unfold lines in Hl0. apply list_elem_of_fmap in Hl0 as (r & -> & Hr).
  by apply Hon.
Qed.


(** * More of the builder *)

Lemma parse_voltage_kv_returns s : ∃ kv, parse_voltage_kv s = Ret kv.
Proof.
  unfold parse_voltage_kv. destruct (PyStr.chars s) as [|c cs]; [by eexists|].
  unfold parse_voltage_try, voltage_values.
  pose proof (mapM_py_inv (λ p, PyStr.to_float (PyStr.strip p))
                (filter (λ p, voltage_token_ok p)
                        (PyStr.split ";"%char (c :: cs)))) as Hinv.
  destruct (mapM _ _) as [values|e]; simpl.
  - destruct values as [|v values]; [by eexists|].
    destruct (PyFloat.gtb _ _); by eexists.
  - destruct Hinv as (p & _ & He). rewrite (to_float_raises _ _ He). by eexists.
Qed.

Lemma for_each_total {A S} (f : S → A → py S) (P : S → Prop) xs :
  (∀ st x, x ∈ xs → P st → ∃ st', f st x = Ret st' ∧ P st') →
  ∀ st, P st → ∃ st', for_each f st xs = Ret st' ∧ P st'.
Proof.
  induction xs as [|x xs IH]; intros Hstep st HP; simpl; [by exists st|].
  destruct (Hstep st x ltac:(left) HP) as (st1 & -> & HP1). simpl.
  apply IH; [|done]. intros st2 x2 Hx2. apply Hstep. by right.
Qed.

Lemma for_each_app {A S} (f : S → A → py S) xs ys st :
  for_each f st (xs ++ ys) = st' ← for_each f st xs; for_each f st' ys.
Proof.
  revert st. induction xs as [|x xs IH]; intros st; simpl; [done|].
  destruct (f st x) as [st1|e]; simpl; [apply IH|done].
Qed.

Lemma getitem_0 {A} (a : A) l : getitem (a :: l) 0 = Ret a.
Proof.
  destruct (getitem_in_range (a :: l) 0) as (x & Hx & ->); [simpl; lia|].
  simpl in Hx. by injection Hx as ->.
Qed.

Lemma getitem_1 {A} (a b : A) l : getitem (a :: b :: l) 1 = Ret b.
Proof.
  destruct (getitem_in_range (a :: b :: l) 1) as (x & Hx & ->); [simpl; lia|].
  simpl in Hx. by injection Hx as ->.
Qed.

Lemma substation_coord_ok geom :
  (geometry_ok geom → ∃ p, substation_coord geom = Ret p)
  ∧ (¬ geometry_ok geom → substation_coord geom = Raise IndexError).
Proof.
  destruct geom as [coords|coords|]; simpl.
  - split; [|tauto]. intros _.
    destruct (default [] coords) as [|lon [|lat ?]]; simpl; [by eexists..|].
    rewrite ?getitem_0, ?getitem_1. by eexists.
  - destruct coords as [[|[|c ring] rings]|]; simpl;
      rewrite ?getitem_0; simpl; rewrite ?getitem_0; simpl.
    + split; [done|]. done.
    + split; [by eexists|tauto].
    + split.
      * intros Hc. destruct c as [|lon [|lat ?]]; simpl in Hc; [lia..|].
        rewrite ?getitem_0, ?getitem_1. by eexists.
      * intros Hc. destruct c as [|lon [|lat ?]]; simpl in *; [done|done|lia].
    + split; [by eexists|tauto].
  - split; [by eexists|tauto].
Qed.

Lemma dict_get_Some `{Countable K} {V} (d : gmap K V) (k : K) :
  is_Some (d !! k) → ∃ v, d !! k = Some v ∧ dict_get d k = Ret v.
Proof. intros [v Hv]. exists v. unfold dict_get. by rewrite Hv. Qed.

(** ** The tables of the builder *)

Section BuilderTablesProofs.

Context {Key : Type} `{Countable Key}.
Variable round_key : float → float → Key.
Variable math_radians : float → float.
Variable math_sin math_cos math_sqrt : float → py float.
Variable math_atan2 : float → float → float.
Variable square : float → float.
Variable format_float : float → string.

Local Abbreviation visit_segment' :=
  (visit_segment math_radians math_sin math_cos math_sqrt math_atan2 square
                 format_float).
Local Abbreviation visit_feature' :=
  (visit_feature round_key math_radians math_sin math_cos math_sqrt math_atan2
                 square format_float).
Local Abbreviation build' :=
  (build_grid_from_geojson round_key math_radians math_sin math_cos math_sqrt
                           math_atan2 square format_float).
Local Abbreviation build_tables' := (build_tables round_key).
Local Abbreviation _haversine' :=
  (_haversine math_radians math_sin math_cos math_sqrt math_atan2 square).
Local Abbreviation build_lines' :=
  (build_lines round_key math_radians math_sin math_cos math_sqrt math_atan2
               square format_float).

Lemma build_tables_init :
  build_tables' (mkBuild empty_grid (∅ : gmap Key Z) 0 0).
Proof.
  split; simpl; try done. split; simpl.
  - intros b. rewrite lookup_empty, elem_of_nil. split; [by intros []|done].
  - intros b. rewrite lookup_empty, elem_of_nil. split; [by intros []|done].
  - by intros r ?%elem_of_nil.
  - intros u v r. by rewrite lookup_empty.
  - by intros r ?%elem_of_nil.
  - by intros r ?%elem_of_nil.
Qed.

Lemma visit_coord_tables voltage_kv st coord :
  build_inv st.1 → build_tables' st.1 →
  build_tables' (visit_coord round_key voltage_kv st coord).1.
Proof.
  destruct st as [b ids]. simpl.
  intros Hb [[Hgeo Hvolt Hends Hdata Hkeys Hlen] Hsrc Hk He].
  unfold visit_coord.
  destruct coord as [|lon [|lat ?]]; [done..|].
  destruct (coord_to_bus b !! round_key lon lat) as [bid|] eqn:Hkey; [done|].
  simpl. split; simpl; try done.
  - split; simpl; try done.
    + intros b0. rewrite lookup_insert_is_Some', elem_of_nodes_add_node, Hgeo.
      naive_solver.
    + intros b0. rewrite lookup_insert_is_Some', elem_of_nodes_add_node, Hvolt.
      naive_solver.
  - intros v geo [[<- <-]|[Hne Hv]]%lookup_insert_Some; simpl.
    + by rewrite lookup_insert_eq.
    + rewrite lookup_insert_ne; [by apply Hk|].
      intros Heq. apply Hk in Hv. rewrite <-Heq in Hv. congruence.
  - pose proof (bi_counter _ Hb). lia.
Qed.

Lemma visit_coords_tables voltage_kv coords st :
  coords_inv st → build_tables' st.1 →
  build_tables' (foldl (visit_coord round_key voltage_kv) st coords).1.
Proof.
  revert st. induction coords as [|c coords IH]; intros st Hst Ht; [done|].
  simpl. apply IH; [by apply visit_coord_inv|].
  apply visit_coord_tables; [apply Hst|done].
Qed.

Lemma visit_segment_tables feat_id power_type voltage_kv ids (b : @Build Key _ _) i b' :
  build_inv b → build_tables' b → Forall (λ v, v ∈ Nx.nodes (G (grid b))) ids →
  visit_segment' feat_id power_type voltage_kv ids b i = Ret b' →
  build_tables' b'.
Proof.
  intros Hb Ht Hids. unfold visit_segment.
  destruct (getitem ids (Z.of_nat i)) as [fb|] eqn:Hfb; simpl; [|done].
  destruct (getitem ids (Z.of_nat i + 1)) as [tb|] eqn:Htb; simpl; [|done].
  case_bool_decide as Hne; [by intros [= <-]|].
  destruct (dict_get _ fb) as [geo_fb|]; simpl; [|done].
  destruct (dict_get _ tb) as [geo_tb|]; simpl; [|done].
  destruct (_haversine _ _ _ _ _ _ _ _ _ _) as [distance|]; simpl; [|done].
  intros [= <-].
  rewrite Forall_forall in Hids.
  pose proof (Hids _ (getitem_elem _ _ _ Hfb)) as Hfbn.
  pose proof (Hids _ (getitem_elem _ _ _ Htb)) as Htbn.
  pose proof (nodes_add_edge_present _ _ _ Hfbn Htbn) as Hsame.
  pose proof (bi_refs _ Hb) as Hseq.
  destruct Ht as [[Hgeo Hvolt Hends Hdata Hkeys Hlen] Hsrc Hk He].
  assert (∀ r, r ∈ line_list (grid b) → r ≠ length (line_list (grid b))) as Hold.
  { intros r Hr. rewrite Hseq in Hr. apply elem_of_seq in Hr. lia. }
  split; simpl; try done.
  - split; simpl.
    + intros b0. by rewrite Hsame.
    + intros b0. by rewrite Hsame.
    + intros r [Hr| ->%list_elem_of_singleton]%elem_of_app.
      * rewrite store_set_ne by by apply Hold. by apply Hends.
      * by rewrite store_set_eq.
    + intros u v r [[[= <- <-] <-]|[Hne' Hr]]%lookup_insert_Some.
      * rewrite store_set_eq. simpl. split; [|done].
        apply elem_of_app. right. left.
      * destruct (Hdata _ _ _ Hr) as (Hin & Hf & Ht).
        rewrite store_set_ne by by apply Hold.
        split; [|done]. apply elem_of_app. by left.
    + intros r [Hr| ->%list_elem_of_singleton]%elem_of_app.
      * rewrite store_set_ne by by apply Hold.
        apply lookup_insert_is_Some'. right. by apply Hkeys.
      * rewrite store_set_eq. simpl. apply lookup_insert_is_Some'. by left.
    + intros r [Hr| ->%list_elem_of_singleton]%elem_of_app.
      * rewrite store_set_ne by by apply Hold. by apply Hlen.
      * rewrite store_set_eq. simpl. apply stored_length_spec.
  - intros H0. exfalso. rewrite (bi_nodes _ Hb), H0 in Hfbn.
    by apply elem_of_nil in Hfbn.
Qed.

Lemma visit_segment_geo feat_id power_type voltage_kv ids (b : @Build Key _ _) i b' :
  visit_segment' feat_id power_type voltage_kv ids b i = Ret b' →
  bus_geo (grid b') = bus_geo (grid b).
Proof.
  unfold visit_segment.
  destruct (getitem ids (Z.of_nat i)) as [fb|]; simpl; [|done].
  destruct (getitem ids (Z.of_nat i + 1)) as [tb|]; simpl; [|done].
  case_bool_decide; [by intros [= <-]|].
  destruct (dict_get _ fb) as [geo_fb|]; simpl; [|done].
  destruct (dict_get _ tb) as [geo_tb|]; simpl; [|done].
  destruct (_haversine _ _ _ _ _ _ _ _ _ _) as [distance|]; simpl; [|done].
  by intros [= <-].
Qed.

(** One line feature keeps what is known of the tables. *)
Lemma visit_feature_tables b item b' :
  build_inv b → build_tables' b → visit_feature' b item = Ret b' →
  build_tables' b'.
Proof.
  intros Hb Ht. unfold visit_feature. destruct item as [feat_i feat].
  destruct (parse_voltage_kv _) as [voltage_kv|]; simpl; [|done].
  destruct (_ <? _)%nat; [by intros [= <-]|].
  pose proof (visit_coords_inv round_key voltage_kv (lf_coordinates feat) (b, []))
    as Hci.
  pose proof (visit_coords_tables voltage_kv (lf_coordinates feat) (b, [])) as Hct.
  destruct (foldl _ _ _) as [b1 ids].
  destruct Hci as [Hb1 Hids]; [by split|]. simpl in Hb1, Hids.
  specialize (Hct ltac:(by split) Ht). simpl in Hct.
  intros Hrun.
  enough (build_inv b' ∧ build_tables' b'
          ∧ Nx.nodes (G (grid b')) = Nx.nodes (G (grid b1))) as (_ & ? & _)
    by done.
  eapply (for_each_inv _
            (λ st, build_inv st ∧ build_tables' st
                   ∧ Nx.nodes (G (grid st)) = Nx.nodes (G (grid b1))));
    [|split; [exact Hb1|split; [exact Hct|reflexivity]]|exact Hrun].
  intros st x st' _ (Hst & Htst & Hn) Hstep.
  assert (Forall (λ v, v ∈ Nx.nodes (G (grid st))) ids) as Hids'
    by by rewrite Hn.
  pose proof (visit_segment_tables _ _ _ _ _ _ _ Hst Htst Hids' Hstep) as Htst'.
  apply (visit_segment_inv round_key) in Hstep as [Hst' Hn']; [|done|done].
  split; [done|]. split; [done|]. by rewrite Hn'.
Qed.

(** The state after the first loop of the builder. *)
Lemma build_loop_tables feats b :
  for_each visit_feature' (mkBuild empty_grid ∅ 0 0) feats = Ret b →
  build_inv b ∧ build_tables' b.
Proof.
  intros Hrun.
  eapply (for_each_inv _ (λ st, build_inv st ∧ build_tables' st));
    [|split; [apply build_inv_init|apply build_tables_init]|exact Hrun].
  intros st x st' _ [Hst Htst] Hstep. split.
  - by eapply visit_feature_inv.
  - by eapply visit_feature_tables.
Qed.

(** A feature of fewer than two coordinates is passed over. *)
Lemma build_loop_short feats (st : @Build Key _ _) :
  Forall (λ item : nat * LineFeature,
            (length (lf_coordinates item.2) < 2)%nat) feats →
  for_each visit_feature' st feats = Ret st.
Proof.
  induction 1 as [|[feat_i feat] feats Hshort _ IH]; [done|].
  simpl in *. unfold visit_feature at 1.
  destruct (parse_voltage_kv_returns (default "" (lf_voltage feat)))
    as [voltage_kv ->]. simpl.
  destruct (Nat.ltb_spec (length (lf_coordinates feat)) 2) as [_|?]; [|lia].
  simpl. exact IH.
Qed.

(** *** When the first loop returns *)

Lemma visit_coord_geo (pts : list (float * float)) voltage_kv st coord :
  (∀ p, point_of coord = Some p → p ∈ pts) →
  (∀ v geo, bus_geo (grid st.1) !! v = Some geo → geo ∈ pts) →
  ∀ v geo,
    bus_geo (grid (visit_coord round_key voltage_kv st coord).1) !! v = Some geo →
    geo ∈ pts.
Proof.
  destruct st as [b ids]. simpl. intros Hc Hb. unfold visit_coord.
  destruct coord as [|lon [|lat ?]]; [done..|].
  destruct (coord_to_bus b !! round_key lon lat); [done|]. simpl.
  intros v geo [[_ <-]|[_ Hv]]%lookup_insert_Some; [by apply Hc|by eapply Hb].
Qed.

Lemma visit_coords_geo (pts : list (float * float)) voltage_kv coords st :
  (∀ c p, c ∈ coords → point_of c = Some p → p ∈ pts) →
  (∀ v geo, bus_geo (grid st.1) !! v = Some geo → geo ∈ pts) →
  ∀ v geo,
    bus_geo (grid (foldl (visit_coord round_key voltage_kv) st coords).1) !! v
    = Some geo →
    geo ∈ pts.
Proof.
  revert st. induction coords as [|c coords IH]; intros st Hcs Hst; [done|].
  simpl. apply IH.
  - intros c' p Hc'. apply Hcs. by right.
  - apply visit_coord_geo; [|done]. intros p. apply Hcs. left.
Qed.

Lemma visit_segment_total (pts : list (float * float))
    feat_id power_type voltage_kv ids (b : @Build Key _ _) i :
  (∀ p q, p ∈ pts → q ∈ pts → ∃ d, _haversine' p.2 p.1 q.2 q.1 = Ret d) →
  (∀ v geo, bus_geo (grid b) !! v = Some geo → geo ∈ pts) →
  build_tables' b → Forall (λ v, v ∈ Nx.nodes (G (grid b))) ids →
  (S i < length ids)%nat →
  ∃ b', visit_segment' feat_id power_type voltage_kv ids b i = Ret b'.
Proof.
  intros Hhav Hpts Ht Hids Hi. unfold visit_segment.
  destruct (getitem_in_range ids (Z.of_nat i)) as (fb & Hfb & ->); [lia|].
  destruct (getitem_in_range ids (Z.of_nat i + 1)) as (tb & Htb & ->); [lia|].
  simpl. case_bool_decide; [by eexists|].
  rewrite Forall_forall in Hids.
  destruct (dict_get_Some (bus_geo (grid b)) fb) as (geo_fb & Hgfb & ->).
  { apply (tb_geo _ (bt_tables _ _ Ht)). apply Hids. by eapply list_elem_of_lookup_2. }
  destruct (dict_get_Some (bus_geo (grid b)) tb) as (geo_tb & Hgtb & ->).
  { apply (tb_geo _ (bt_tables _ _ Ht)). apply Hids. by eapply list_elem_of_lookup_2. }
  simpl.
  destruct (Hhav geo_fb geo_tb) as [d ->]; [by eapply Hpts..|].
  simpl. by eexists.
Qed.

(** One line feature: the step returns when the distance is defined
    between any two points, and it keeps what is known of the state. *)
Lemma visit_feature_total (pts : list (float * float)) b item :
  (∀ p q, p ∈ pts → q ∈ pts → ∃ d, _haversine' p.2 p.1 q.2 q.1 = Ret d) →
  (∀ c p, c ∈ lf_coordinates item.2 → point_of c = Some p → p ∈ pts) →
  build_inv b → build_tables' b →
  (∀ v geo, bus_geo (grid b) !! v = Some geo → geo ∈ pts) →
  ∃ b', visit_feature' b item = Ret b' ∧ build_inv b' ∧ build_tables' b'
        ∧ (∀ v geo, bus_geo (grid b') !! v = Some geo → geo ∈ pts).
Proof.
  intros Hhav Hcs Hb Ht Hpts. unfold visit_feature. destruct item as [feat_i feat].
  simpl in Hcs.
  destruct (parse_voltage_kv_returns (default "" (lf_voltage feat)))
    as [voltage_kv ->]. simpl.
  destruct (Nat.ltb_spec (length (lf_coordinates feat)) 2) as [Hshort|Hlong].
  { by exists b. }
  pose proof (visit_coords_inv round_key voltage_kv (lf_coordinates feat) (b, []))
    as Hci.
  pose proof (visit_coords_tables voltage_kv (lf_coordinates feat) (b, [])) as Hct.
  pose proof (visit_coords_geo pts voltage_kv (lf_coordinates feat) (b, []) Hcs Hpts)
    as Hcg.
  destruct (foldl _ _ _) as [b1 ids].
  destruct Hci as [Hb1 Hids]; [by split|]. simpl in Hb1, Hids, Hcg.
  specialize (Hct ltac:(by split) Ht). simpl in Hct.
  destruct (for_each_total
              (visit_segment' (default ("feat_" +:+ pretty feat_i) (lf_id feat))
                              (default "line" (lf_power feat)) voltage_kv ids)
              (λ st, build_inv st ∧ build_tables' st
                     ∧ Nx.nodes (G (grid st)) = Nx.nodes (G (grid b1))
                     ∧ bus_geo (grid st) = bus_geo (grid b1))
              (seq 0 (length ids - 1))) with (st := b1)
    as (b' & Hrun & Hb' & Ht' & _ & Hgeo').
  - intros st i Hi (Hst & Htst & Hn & Hg).
    apply elem_of_seq in Hi.
    destruct (visit_segment_total pts
                (default ("feat_" +:+ pretty feat_i) (lf_id feat))
                (default "line" (lf_power feat)) voltage_kv ids st i)
      as [st' Hstep].
    { exact Hhav. }
    { rewrite Hg. exact Hcg. }
    { done. }
    { by rewrite Hn. }
    { lia. }
    exists st'. split; [done|].
    pose proof Hstep as Hstep'. pose proof Hstep as Hstep''.
    apply (visit_segment_inv round_key) in Hstep as [Hst' Hn'];
      [|done|by rewrite Hn].
    assert (Forall (λ v, v ∈ Nx.nodes (G (grid st))) ids) as Hids'
      by by rewrite Hn.
    pose proof (visit_segment_tables _ _ _ _ _ _ _ Hst Htst Hids' Hstep').
    apply visit_segment_geo in Hstep''.
    split; [done|]. split; [done|]. split; [by rewrite Hn'|by rewrite Hstep''].
  - done.
  - exists b'. split; [done|]. split; [done|]. split; [done|].
    by rewrite Hgeo'.
Qed.

Lemma build_loop_total (pts : list (float * float)) feats :
  (∀ p q, p ∈ pts → q ∈ pts → ∃ d, _haversine' p.2 p.1 q.2 q.1 = Ret d) →
  (∀ item c p, item ∈ feats → c ∈ lf_coordinates item.2 →
               point_of c = Some p → p ∈ pts) →
  ∃ b, for_each visit_feature' (mkBuild empty_grid ∅ 0 0) feats = Ret b.
Proof.
  intros Hhav Hfeats.
  destruct (for_each_total visit_feature'
              (λ st, build_inv st ∧ build_tables' st
                     ∧ ∀ v geo, bus_geo (grid st) !! v = Some geo → geo ∈ pts)
              feats) with (st := mkBuild empty_grid (∅ : gmap Key Z) 0 0)
    as (b & Hrun & _).
  - intros st item Hitem (Hst & Htst & Hpts).
    destruct (visit_feature_total pts st item Hhav) as (st' & -> & ? & ? & ?);
      [|done..|by exists st'].
    intros c p. by apply Hfeats.
  - split; [apply build_inv_init|]. split; [apply build_tables_init|].
    intros v geo Hv. simpl in Hv. by rewrite lookup_empty in Hv.
  - by exists b.
Qed.

(** *** Pruning and the tables *)

Lemma keep_largest_tables g :
  grid_ok g → tables_ok g →
  tables_ok (keep_largest g)
  ∧ (∀ v geo, bus_geo (keep_largest g) !! v = Some geo →
              bus_geo g !! v = Some geo).
Proof.
  intros [Hg Hids Hrefs Hidx Hlive Hlines] [Hgeo Hvolt Hends Hdata Hkeys Hlen].
  pose proof (nodes_keep_largest g) as Hnodes.
  unfold keep_largest in *. simpl in Hnodes.
  set (C := largest_component (G g)) in *.
  set (removed := (list_to_set (Nx.nodes (G g)) ∖ C : gset Z)) in *.
  assert (∀ x, x ∈ Nx.nodes (G g) → (x ∉ removed ↔ x ∈ C)) as Hrm.
  { intros x Hx. unfold removed.
    rewrite elem_of_difference, elem_of_list_to_set.
    destruct (decide (x ∈ C)); tauto. }
  set (refs' := filter _ (line_list g)).
  assert (NoDup refs') as Hnd' by by apply NoDup_filter.
  assert (∀ r0, r0 ∈ refs' ↔
                (from_bus (line_obj g r0) ∈ C ∧ to_bus (line_obj g r0) ∈ C)
                ∧ r0 ∈ line_list g) as Hrefs'.
  { intros r0. unfold refs'. rewrite list_elem_of_filter.
    by rewrite andb_True, !bool_decide_spec. }
  destruct (reindex_spec (line_obj g) refs' Hnd') as [Hre _].
  assert (∀ r0, r0 ∈ refs' →
                from_bus (reindex (line_obj g) refs' r0) = from_bus (line_obj g r0)
                ∧ to_bus (reindex (line_obj g) refs' r0) = to_bus (line_obj g r0))
    as Hsame.
  { intros r0 [i Hi]%list_elem_of_lookup. rewrite (Hre i r0 Hi).
    by destruct (set_idx_fields (Z.of_nat i) (line_obj g r0)) as (? & ? & _). }
  assert (∀ r0, r0 ∈ refs' →
                length_km (reindex (line_obj g) refs' r0)
                = length_km (line_obj g r0)) as Hsamelen.
  { intros r0 [i Hi]%list_elem_of_lookup. by rewrite (Hre i r0 Hi). }
  set (h' := reindex (line_obj g) refs') in *.
  clearbody h' refs'.
  split.
  - split; simpl.
    + intros b. rewrite Hnodes, list_elem_of_filter. unfold is_Some.
      setoid_rewrite map_lookup_filter_Some. simpl. split.
      * intros (x & Hx & Hb).
        assert (b ∈ Nx.nodes (G g)) as Hin by (apply Hgeo; by exists x).
        split; [by apply Hrm|done].
      * intros [Hb Hin]. apply Hgeo in Hin as Hx. destruct Hx as [x Hx].
        exists x. split; [done|]. by apply Hrm.
    + intros b. rewrite Hnodes, list_elem_of_filter. unfold is_Some.
      setoid_rewrite map_lookup_filter_Some. simpl. split.
      * intros (x & Hx & Hb).
        assert (b ∈ Nx.nodes (G g)) as Hin by (apply Hvolt; by exists x).
        split; [by apply Hrm|done].
      * intros [Hb Hin]. apply Hvolt in Hin as Hx. destruct Hx as [x Hx].
        exists x. split; [done|]. by apply Hrm.
    + intros r0 Hr0. destruct (Hsame r0 Hr0) as [-> ->].
      apply Hends. by apply Hrefs'.
    + intros u v r0 [Hr0 [Hu Hv]]%map_lookup_filter_Some. simpl in Hu, Hv.
      destruct (Hdata _ _ _ Hr0) as (Hin & Hf & Ht).
      assert (r0 ∈ refs') as Hin' by (apply Hrefs'; by rewrite Hf, Ht).
      destruct (Hsame r0 Hin') as [-> ->]. done.
    + intros r0 Hr0. destruct (Hsame r0 Hr0) as [-> ->].
      apply Hrefs' in Hr0 as [[Hf Ht] Hin].
      destruct (Hkeys r0 Hin) as [r1 Hr1]. exists r1.
      by apply map_lookup_filter_Some.
    + intros r0 Hr0. rewrite (Hsamelen r0 Hr0).
      apply Hlen. by apply Hrefs'.
  - simpl. intros v geo [Hv _]%map_lookup_filter_Some. done.
Qed.

Lemma tables_ok_with_ext_grid_bus g bus :
  tables_ok g → tables_ok (with_ext_grid_bus g bus).
Proof. intros [? ? ? ? ? ?]. by split. Qed.

Lemma find_best_source_bus_total g subs (c2b : gmap Key Z) :
  Forall (λ s, geometry_ok (ss_geometry s)) subs → Nx.nodes (G g) ≠ [] →
  ∃ bus, _find_best_source_bus round_key g subs c2b = Ret bus.
Proof.
  intros Hsubs Hne. unfold _find_best_source_bus.
  destruct (for_each_total (visit_substation round_key g c2b) (λ _, True) subs)
    with (st := (None : option Z, PyFloat.of_Z 0)) as ([best_bus bv] & -> & _).
  - intros st s Hs _. rewrite Forall_forall in Hsubs.
    unfold visit_substation.
    destruct (parse_voltage_kv_returns (default "" (ss_voltage s))) as [kv ->].
    destruct (proj1 (substation_coord_ok (ss_geometry s)) (Hsubs s Hs)) as [p ->].
    simpl. destruct p as [[lon lat]|]; [|by eexists].
    destruct (c2b !! round_key lon lat); [|by eexists].
    destruct (_ && _); by eexists.
  - done.
  - simpl. destruct best_bus as [bus|]; [by eexists|].
    destruct (Nx.nodes (G g)) as [|v vs]; [done|]. rewrite getitem_0. by eexists.
Qed.

(** What is known of the grid that the builder returns, beyond
    [build_ok]. *)
Lemma build_tables_ok cf max_lines g :
  build' cf max_lines = Ret g →
  tables_ok g
  ∧ (∃ c2b : gmap Key Z,
       ∀ v geo, bus_geo g !! v = Some geo →
                c2b !! round_key geo.1 geo.2 = Some v)
  ∧ (Nx.nodes (G g) = [] → g = empty_grid)
  ∧ (g = empty_grid ∨ ext_grid_bus g ∈ Nx.nodes (G g)).
Proof.
  unfold build_grid_from_geojson.
  destruct (build_lines' cf max_lines) as [b|] eqn:Hloop; simpl; [|done].
  destruct (build_loop_tables _ _ Hloop) as [Hb Ht].
  destruct (Z.eqb_spec (bus_counter b) 0) as [H0|H0].
  { intros [= <-]. split; [apply Ht|]. split.
    - exists (coord_to_bus b). apply Ht.
    - split; [intros _|left]; by apply (bt_empty _ _ Ht). }
  assert (Nx.nodes (G (grid b)) ≠ []) as Hne.
  { rewrite (bi_nodes _ Hb). pose proof (bi_counter _ Hb).
    destruct (Z.to_nat (bus_counter b)) eqn:Hn; [lia|done]. }
  set (g0 := if Traversal.is_connected (G (grid b)) then grid b
             else keep_largest (grid b)).
  assert (tables_ok g0
          ∧ (∀ v geo, bus_geo g0 !! v = Some geo →
                      bus_geo (grid b) !! v = Some geo)
          ∧ Nx.nodes (G g0) ≠ []) as (Hok & Hsub & Hne0).
  { unfold g0. destruct (Traversal.is_connected _).
    - split; [apply Ht|]. by split.
    - destruct (keep_largest_tables (grid b)) as [? ?]; [apply Hb|apply Ht|].
      destruct (keep_largest_ok (grid b)) as (_ & _ & ?); [apply Hb|done|].
      done. }
  clearbody g0.
  destruct (_find_best_source_bus _ _ _ _) as [bus|] eqn:Hsrc; simpl; [|done].
  intros [= <-]. split; [by apply tables_ok_with_ext_grid_bus|]. split.
  - exists (coord_to_bus b). intros v geo Hv. simpl in Hv.
    apply (bt_keys _ _ Ht). by apply Hsub.
  - split; [done|]. right. simpl. by eapply find_best_source_bus_in.
Qed.

Lemma slice_to_elem {A} (l : list A) n x : x ∈ slice_to l n → x ∈ l.
Proof.
  unfold slice_to. destruct (_ <? _); intros [i Hi]%list_elem_of_lookup;
    apply lookup_take_Some in Hi as [Hi _]; by eapply list_elem_of_lookup_2.
Qed.

Lemma elem_of_line_features cf max_lines i f :
  imap (λ i f, (i, f))
       (slice_to (default [] (cf_lines cf)) max_lines
        ++ slice_to (default [] (cf_minor_lines cf)) 100
        ++ slice_to (default [] (cf_cables cf)) 100) !! i = Some f →
  f.2 ∈ line_features cf.
Proof.
  rewrite list_lookup_imap.
  destruct (_ !! i) as [f'|] eqn:Hf; [|done]. simpl.
  intros [= <-]. simpl. unfold line_features.
  apply list_elem_of_lookup_2 in Hf.
  rewrite !elem_of_app in Hf. rewrite !elem_of_app.
  destruct Hf as [Hf|[Hf|Hf]]; apply slice_to_elem in Hf; auto.
Qed.

(** The builder returns a grid, for every [max_lines], as long as
    [_haversine] returns a distance between any two points of the line
    features ([math.sin], [math.cos] and [math.sqrt] raise none of their
    [ValueError]s) and no substation polygon has an empty [coordinates]
    list or a first point of fewer than two numbers. *)
Theorem build_returns cf max_lines :
  (∀ p q, p ∈ points_of (line_features cf) → q ∈ points_of (line_features cf) →
          ∃ d, _haversine' p.2 p.1 q.2 q.1 = Ret d) →
  Forall (λ s, geometry_ok (ss_geometry s)) (default [] (cf_substations cf)) →
  ∃ g, build' cf max_lines = Ret g.
Proof.
  intros Hhav Hsubs. unfold build_grid_from_geojson.
  destruct (build_loop_total (points_of (line_features cf))
              (imap (λ i f, (i, f))
                 (slice_to (default [] (cf_lines cf)) max_lines
                  ++ slice_to (default [] (cf_minor_lines cf)) 100
                  ++ slice_to (default [] (cf_cables cf)) 100)) Hhav)
    as (b & Hloop).
  { intros item c p [i Hi]%list_elem_of_lookup Hc Hp.
    apply elem_of_line_features in Hi.
    unfold points_of. apply list_elem_of_bind. exists item.2. split; [|done].
    apply list_elem_of_omap. by exists c. }
  unfold build_lines. rewrite Hloop. simpl.
  destruct (build_loop_tables _ _ Hloop) as [Hb Ht].
  destruct (Z.eqb_spec (bus_counter b) 0) as [H0|H0]; [by eexists|].
  assert (Nx.nodes (G (grid b)) ≠ []) as Hne.
  { rewrite (bi_nodes _ Hb). pose proof (bi_counter _ Hb).
    destruct (Z.to_nat (bus_counter b)) eqn:Hn; [lia|done]. }
  set (g0 := if Traversal.is_connected (G (grid b)) then grid b
             else keep_largest (grid b)).
  assert (Nx.nodes (G g0) ≠ []) as Hne0.
  { unfold g0. destruct (Traversal.is_connected _); [done|].
    by destruct (keep_largest_ok (grid b)) as (_ & _ & ?); [apply Hb|done|]. }
  destruct (find_best_source_bus_total g0 (default [] (cf_substations cf))
              (coord_to_bus b) Hsubs Hne0) as [bus ->].
  simpl. by eexists.
Qed.


(** In the grid that the builder returns, [line_data] maps a pair of
    buses to a record of [line_list] that goes from the first to the
    second, and the two ends of every record of [line_list] are a key
    of [line_data], pruning included. *)
Theorem build_line_data cf max_lines (g : GridNetwork) :
  build' cf max_lines = Ret g →
  (∀ u v r, line_data g !! (u, v) = Some r →
            r ∈ line_list g
            ∧ from_bus (line_obj g r) = u ∧ to_bus (line_obj g r) = v)
  ∧ (∀ r, r ∈ line_list g →
          ∃ r', line_data g !! (from_bus (line_obj g r), to_bus (line_obj g r))
                = Some r'
                ∧ r' ∈ line_list g).
Proof.
  intros ([_ _ _ Hdata Hkeys _] & _)%build_tables_ok.
  split; [done|]. intros r [r' Hr']%Hkeys. exists r'. split; [done|].
  by destruct (Hdata _ _ _ Hr').
Qed.

(** In the grid that the builder returns, every line record is in
    service and joins two different buses of the grid that are
    neighbours in the graph; and every edge of the graph joins two
    different buses and has a line record. *)
Theorem build_lines_sound cf max_lines g :
  build' cf max_lines = Ret g →
  (∀ l, l ∈ lines g →
        in_service l = true ∧ from_bus l ≠ to_bus l
        ∧ from_bus l ∈ Nx.nodes (G g) ∧ to_bus l ∈ Nx.nodes (G g)
        ∧ adj (G g) (from_bus l) (to_bus l))
  ∧ (∀ u v, adj (G g) u v → u ≠ v ∧ ∃ l, l ∈ lines g ∧ joins u v l = true).
Proof.
  intros Hrun.
  destruct (build_ok _ _ _ _ _ _ _ _ _ _ _ Hrun) as [[Hg _ _ _ Hlive Hlines] _].
  destruct (build_tables_ok _ _ _ Hrun) as ([_ _ Hends _ _ _] & _).
  split.
  - intros l Hl. pose proof Hl as (r & -> & Hr)%list_elem_of_fmap.
    assert (adj (G g) (from_bus (line_obj g r)) (to_bus (line_obj g r))) as Hadj.
    { apply Hlines. exists (line_obj g r). split; [done|].
      apply joins_spec. by left. }
    split; [by apply Hlive|]. split; [by apply Hends|].
    split; [by eapply adj_is_node|]. split; [|done].
    by eapply (proj1 (proj2 Hg)).
  - intros u v Huv. pose proof Huv as (l & Hl & Hj)%Hlines.
    split; [|by exists l].
    apply list_elem_of_fmap in Hl as (r & -> & Hr).
    pose proof (Hends r Hr). apply joins_spec in Hj. naive_solver.
Qed.


(** When every line feature has fewer than two coordinates (and so when
    there is none), the builder returns the untouched [GridNetwork()]:
    no bus, no line, [ext_grid_bus = -1].  The substations are not looked
    at. *)
Theorem build_without_buses cf max_lines :
  (∀ f, f ∈ line_features cf → (length (lf_coordinates f) < 2)%nat) →
  build' cf max_lines = Ret empty_grid.
Proof.
  intros Hshort. unfold build_grid_from_geojson, build_lines.
  rewrite build_loop_short; [done|].
  apply Forall_forall. intros item [j Hj]%list_elem_of_lookup.
  apply Hshort. by eapply elem_of_line_features.
Qed.

(** The grid that the builder returns has no source, [ext_grid_bus = -1],
    exactly when it has no bus, and it is then the untouched
    [GridNetwork()]; otherwise the source is one of its buses. *)
Theorem build_empty_iff cf max_lines g :
  build' cf max_lines = Ret g →
  (ext_grid_bus g = -1 ↔ Nx.nodes (G g) = [])
  ∧ (Nx.nodes (G g) = [] ↔ g = empty_grid)
  ∧ (Nx.nodes (G g) ≠ [] → ext_grid_bus g ∈ Nx.nodes (G g)).
Proof.
  intros Hrun.
  destruct (build_ok _ _ _ _ _ _ _ _ _ _ _ Hrun) as [[_ Hids _ _ _ _] _].
  destruct (build_tables_ok _ _ _ Hrun) as (_ & _ & Hempty & Hsrc).
  unfold bus_ids_nonneg in Hids. rewrite Forall_forall in Hids.
  split; [|split].
  - split.
    + intros Hneg. destruct Hsrc as [->|Hin]; [done|].
      apply Hids in Hin. lia.
    + intros Hn. by rewrite (Hempty Hn).
  - split; [done|]. by intros ->.
  - intros Hne. destruct Hsrc as [->|Hin]; done.
Qed.

(** A substation polygon whose [coordinates] is an empty list, or whose
    first point has fewer than two numbers, makes the builder raise
    [IndexError] as soon as the line features give at least one bus and
    the substations before it are well formed. *)
Theorem build_raises_on_bad_polygon cf max_lines subs bad rest g0 :
  cf_substations cf = Some (subs ++ bad :: rest) →
  Forall (λ s, geometry_ok (ss_geometry s)) subs →
  ¬ geometry_ok (ss_geometry bad) →
  build' (with_substations cf None) max_lines = Ret g0 →
  Nx.nodes (G g0) ≠ [] →
  build' cf max_lines = Raise IndexError.
Proof.
  intros Hcf Hsubs Hbad Hrun0 Hne. unfold build_grid_from_geojson in *.
  change (build_lines' (with_substations cf None) max_lines)
    with (build_lines' cf max_lines) in Hrun0.
  simpl in Hrun0. rewrite Hcf. simpl.
  destruct (build_lines' cf max_lines) as [b|] eqn:Hloop; simpl in *; [|done].
  destruct (build_loop_tables _ _ Hloop) as [Hb _].
  destruct (Z.eqb_spec (bus_counter b) 0) as [H0|H0].
  { exfalso. injection Hrun0 as <-. apply Hne.
    by rewrite (bi_nodes _ Hb), H0. }
  unfold _find_best_source_bus. rewrite for_each_app.
  destruct (for_each_total
              (visit_substation round_key
                 (if Traversal.is_connected (G (grid b)) then grid b
                  else keep_largest (grid b)) (coord_to_bus b))
              (λ _, True) subs)
    with (st := (None : option Z, PyFloat.of_Z 0)) as (st & -> & _).
  - intros st s Hs _. rewrite Forall_forall in Hsubs.
    unfold visit_substation.
    destruct (parse_voltage_kv_returns (default "" (ss_voltage s))) as [kv ->].
    destruct (proj1 (substation_coord_ok (ss_geometry s)) (Hsubs s Hs)) as [p ->].
    simpl. destruct p as [[lon lat]|]; [|by eexists].
    destruct (coord_to_bus b !! round_key lon lat); [|by eexists].
    destruct (_ && _); by eexists.
  - done.
  - simpl.
    assert (∀ g1, visit_substation round_key g1 (coord_to_bus b) st bad
                  = Raise IndexError) as ->; [|done].
    intros g1. unfold visit_substation.
    destruct (parse_voltage_kv_returns (default "" (ss_voltage bad))) as [kv ->].
    rewrite (proj2 (substation_coord_ok (ss_geometry bad)) Hbad). done.
Qed.

(** *** The choice of the source *)





End BuilderTablesProofs.

(** ** Pruning keeps a largest component *)

Lemma max_by_size_max xs :
  ∀ best x, x ∈ best :: xs → (size x ≤ size (max_by_size best xs))%nat.
Proof.
  induction xs as [|a xs IH]; intros best x; simpl.
  - by intros ->%list_elem_of_singleton.
  - intros Hx.
    pose proof (IH (if bool_decide (size best < size a)%nat then a else best))
      as Hmax.
    assert (size best ≤ size (if bool_decide (size best < size a)%nat
                               then a else best)
            ∧ size a ≤ size (if bool_decide (size best < size a)%nat
                              then a else best))%nat as [Hb Ha].
    { case_bool_decide; lia. }
    pose proof (Hmax _ ltac:(left)) as Hm.
    apply elem_of_cons in Hx as [->|[->|Hx]%elem_of_cons]; [lia|lia|].
    apply Hmax. by right.
Qed.

Lemma largest_component_max G :
  Nx.nodes G ≠ [] →
  largest_component G ∈ Traversal.connected_components G
  ∧ ∀ c, c ∈ Traversal.connected_components G →
         (size c ≤ size (largest_component G))%nat.
Proof.
  intros Hne. unfold largest_component.
  destruct (Traversal.connected_components G) as [|c cs] eqn:Hcs.
  - exfalso. unfold Traversal.connected_components in Hcs.
    destruct (Nx.nodes G) as [|v vs]; [done|]. simpl in Hcs. done.
  - split; [apply max_by_size_elem|]. intros c'. apply max_by_size_max.
Qed.

(** Pruning keeps the buses of one connected component of the graph, in
    their order, and no component has more buses than the part that is
    kept; the lines that stay are those whose two ends stay. *)
Theorem keep_largest_is_largest (g : GridNetwork) :
  nx_graph (G g) → Nx.nodes (G g) ≠ [] →
  Nx.nodes (G (keep_largest g))
  = filter (λ v, v ∈ largest_component (G g)) (Nx.nodes (G g))
  ∧ largest_component (G g) ∈ Traversal.connected_components (G g)
  ∧ (∀ c, c ∈ Traversal.connected_components (G g) →
          (size c ≤ length (Nx.nodes (G (keep_largest g))))%nat)
  ∧ (∀ r, r ∈ line_list (keep_largest g) ↔
          r ∈ line_list g
          ∧ from_bus (line_obj g r) ∈ Nx.nodes (G (keep_largest g))
          ∧ to_bus (line_obj g r) ∈ Nx.nodes (G (keep_largest g))).
Proof.
  intros Hg Hne.
  destruct (largest_component_max (G g) Hne) as [Hin Hmax].
  destruct (largest_component_root (G g) Hne) as (r & Hr & HC).
  pose proof Hg as (Hnd & Hcl & _).
  destruct (visit_order_spec (G g) r Hcl Hr) as (Hnd' & Hsub & _ & _).
  pose proof (nodes_keep_largest g) as Hnodes.
  assert (∀ x, x ∈ largest_component (G g) ↔ x ∈ Traversal.visit_order (G g) r)
    as HCin.
  { intros x. rewrite HC. unfold Traversal.node_component.
    by rewrite elem_of_list_to_set. }
  assert (∀ x, x ∈ Nx.nodes (G (keep_largest g)) ↔ x ∈ largest_component (G g))
    as Hkept.
  { intros x. rewrite Hnodes, list_elem_of_filter. split; [tauto|].
    intros Hx. split; [done|]. apply Hsub. by apply HCin. }
  split; [done|]. split; [done|]. split.
  - intros c Hc. etrans; [by apply Hmax|].
    rewrite HC. unfold Traversal.node_component.
    rewrite size_list_to_set by done.
    apply Nat.eq_le_incl. apply Permutation_length.
    apply NoDup_Permutation; [done| |].
    + rewrite Hnodes. by apply NoDup_filter.
    + intros x. by rewrite Hkept, HCin.
  - intros r0. rewrite !Hkept. unfold keep_largest. simpl.
    rewrite list_elem_of_filter, andb_True, !bool_decide_spec. tauto.
Qed.

(** ** From the features to the report *)

Lemma energize_grid_match g : lines_match g → lines_match (energize_grid g).
Proof.
  intros Hm x y. change (G (energize_grid g)) with (G g). rewrite (Hm x y).
  split.
  - intros Hl. destruct (energize_grid_live g x y Hl) as (l & Hin & _ & Hj).
    by exists l.
  - intros (l & Hl & Hj). unfold lines in Hl.
    apply list_elem_of_fmap in Hl as (r & -> & Hr).
    change (line_list (energize_grid g)) with (line_list g) in Hr.
    destruct (energize_store (line_obj g) (line_list g) r)
      as ((_ & Hf & Ht & _) & _ & _).
    exists (line_obj g r). split.
    + unfold lines. apply list_elem_of_fmap. by exists r.
    + rewrite <-Hj. symmetry. by apply joins_same_ends.
Qed.

(** After [energize_grid], the live buses are the buses that the full
    graph joins to the source, whatever lines were out of service before;
    and no bus that was live is dead afterwards. *)
Theorem energize_grid_reach (g : GridNetwork) :
  nx_graph (G g) → bus_ids_nonneg g → lines_match g →
  (∀ b, b ∈ Nx.nodes (G g) →
        (get_energized_status (energize_grid g) !! b = Some 1
         ↔ rtc (adj (G g)) (ext_grid_bus g) b))
  ∧ (∀ b, get_energized_status g !! b = Some 1 →
          get_energized_status (energize_grid g) !! b = Some 1).
Proof.
  intros Hg Hids Hm.
  assert (grid_wf g) as Hwf.
  { split; [done|]. split; [done|]. by apply lines_on_buses_of_match. }
  destruct (energize_grid_wf g Hwf) as (_ & Hids' & Hl').
  destruct Hwf as (_ & _ & Hl).
  split.
  - intros b Hb.
    rewrite (proj1 (status_of_bus (energize_grid g) b Hids' Hl' Hb)).
    unfold energized. change (ext_grid_bus (energize_grid g)) with (ext_grid_bus g).
    apply rtc_iff. intros x y. split.
    + intros (l & Hin & _ & Hj).
      apply (energize_grid_match g Hm x y). by exists l.
    + intros Hxy. apply energize_grid_live. by apply Hm.
  - intros b Hb.
    assert (b ∈ Nx.nodes (G g)) as Hin.
    { destruct (decide (b ∈ Nx.nodes (G g))) as [|Hn]; [done|].
      rewrite (get_energized_status_key g b Hn) in Hb. done. }
    apply (status_of_bus g b Hids Hl Hin) in Hb.
    apply (status_of_bus (energize_grid g) b Hids' Hl' Hin).
    unfold energized in *.
    apply (rtc_mono (live g)); [|exact Hb].
    intros x y (l & Hl0 & _ & Hj). apply energize_grid_live. by exists l.
Qed.

Lemma energize_grid_reach_witness :
  get_energized_status (Demo.cut (Demo.path 5) 2%nat) !! 1 = Some 1
  ∧ get_energized_status (energize_grid (Demo.cut (Demo.path 5) 2%nat)) !! 1
    = Some 1.
Proof.
  assert (get_energized_status (Demo.cut (Demo.path 5) 2%nat) !! 1 = Some 1)
    as Hb by by vm_compute.
  split; [exact Hb|].
  destruct (energize_grid_reach (Demo.cut (Demo.path 5) 2%nat)) as (_ & Hkeep).
  - apply (nx_graph_demo _ _ 0).
  - unfold bus_ids_nonneg. by_compute.
  - apply lines_match_check.
    + unfold edges_have_lines. by_compute.
    + unfold lines_are_edges. by_compute.
  - exact (Hkeep 1 Hb).
Defined.

Section PipelineProofs.

Context {Key : Type} `{Countable Key}.
Variable round_key : float → float → Key.
Variable math_radians : float → float.
Variable math_sin math_cos math_sqrt : float → py float.
Variable math_atan2 : float → float → float.
Variable square : float → float.
Variable format_float : float → string.

Local Abbreviation build' :=
  (build_grid_from_geojson round_key math_radians math_sin math_cos math_sqrt
                           math_atan2 square format_float).

(** The first steps of the simulation on any input that gives at least
    one bus: once the grid is built and energized, every bus is live, the
    sensors are placed, and their readings name no block. *)
Theorem built_grid_reports_no_fault cf max_lines g :
  build' cf max_lines = Ret g → Nx.nodes (G g) ≠ [] →
  (∀ b, b ∈ Nx.nodes (G g) →
        get_energized_status (energize_grid g) !! b = Some 1)
  ∧ ∃ sensors blocks,
      place_sensors_sqrt_n (energize_grid g) = Ret (sensors, blocks)
      ∧ sensors ≠ []
      ∧ identify_faulty_block
          (read_sensors sensors (get_energized_status (energize_grid g)))
          sensors blocks = -1.
Proof.
  intros Hrun Hne.
  destruct (build_ok _ _ _ _ _ _ _ _ _ _ _ Hrun)
    as [[Hg Hids _ _ _ Hlines] Hconn].
  destruct (Hconn Hne) as [Hc Hsrc].
  split.
  - intros b Hb.
    assert (grid_wf g) as Hwf.
    { split; [done|]. split; [done|]. by apply lines_on_buses_of_match. }
    destruct (energize_grid_wf g Hwf) as (_ & Hids' & Hl').
    apply (status_of_bus (energize_grid g) b Hids' Hl' Hb).
    apply (rtc_mono (adj (G g))); [|by apply Hc].
    intros x y Hxy. apply energize_grid_live. by apply Hlines.
  - destruct (no_fault_when_healthy (energize_grid g))
      as (sensors & blocks & Hplace & Hid).
    { done. }
    { done. }
    { by apply energize_grid_match. }
    { done. }
    { done. }
    { intros r Hr.
      by destruct (energize_store (line_obj g) (line_list g) r) as (_ & ? & _);
        auto. }
    exists sensors, blocks. split; [done|]. split; [|done].
    intros ->. unfold place_sensors_sqrt_n in Hplace.
    assert (0 ≤ ext_grid_bus g) as Hpos.
    { unfold bus_ids_nonneg in Hids. rewrite Forall_forall in Hids.
      by apply Hids. }
    destruct (place_sensors_run (energize_grid g) (proj1 (proj2 Hg)) Hpos Hsrc)
      as (Hn & sensors' & Hrun' & Hlen & _).
    unfold place_sensors_sqrt_n in Hrun'. rewrite Hrun' in Hplace.
    injection Hplace as -> _. simpl in Hlen.
    set (ordering := Traversal.visit_order _ _) in *.
    destruct (ceil_sqrt_spec (length ordering) Hn) as (Hk & _).
    destruct (blocks_from_spec ordering (ceil_sqrt (length ordering)) Hk
                (length ordering) 0 ltac:(lia)) as (_ & Hnum & _).
    rewrite <-Hlen, Nat.sub_0_r in Hnum. unfold ceil_div in Hnum.
    symmetry in Hnum. apply Nat.div_small_iff in Hnum; lia.
Qed.

End PipelineProofs.

(** ** The builder at work *)

Lemma build_returns_witness :
  ∃ g, Demo.build
         (with_substations
            (Demo.one_line [Demo.coord 77000000 28000000;
                            Demo.coord 77000000 28100000])
            (Some [mkSubstation (Some "400000")
                                (Point (Some (Demo.coord 77000000 28100000)));
                   mkSubstation None (Polygon None)]))
         5000 = Ret g.
Proof.
  apply (build_returns Demo.round_key).
  - intros p q Hp Hq. vm_compute in Hp, Hq.
    repeat (apply elem_of_cons in Hp as [->|Hp]);
      [repeat (apply elem_of_cons in Hq as [->|Hq]);
         [eexists; vm_compute; reflexivity..|apply elem_of_nil in Hq; destruct Hq]..
      |apply elem_of_nil in Hp; destruct Hp].
  - simpl. repeat constructor.
Defined.

(** The [ValueError] of [math.sqrt] leaves the builder.  With the
    stand-ins of [Demo], where the sine of half a turn is above 1, a
    segment from pole to pole gives a negative radicand. *)
Example build_raises_on_negative_radicand :
  Demo.haversine (PyFloat.of_Z (-90)) (PyFloat.of_Z 0)
                 (PyFloat.of_Z 90) (PyFloat.of_Z 0) = Raise ValueError
  ∧ Demo.build (Demo.one_line [Demo.coord 0 (-90000000);
                               Demo.coord 0 90000000]) 5000
    = Raise ValueError.
Proof. split; by vm_compute. Qed.

Lemma build_raises_on_bad_polygon_witness :
  Demo.build
    (with_substations
       (Demo.one_line [Demo.coord 77000000 28000000;
                       Demo.coord 77000000 28100000])
       (Some [mkSubstation (Some "400000") (Polygon (Some []))]))
    5000 = Raise IndexError.
Proof.
  destruct (Demo.build
              (with_substations
                 (with_substations
                    (Demo.one_line [Demo.coord 77000000 28000000;
                                    Demo.coord 77000000 28100000])
                    (Some [mkSubstation (Some "400000") (Polygon (Some []))]))
                 None) 5000) as [g0|e] eqn:Hrun;
    [|vm_compute in Hrun; discriminate Hrun].
  apply (build_raises_on_bad_polygon Demo.round_key _ _ _ _ _ _ _ _ 5000 []
           (mkSubstation (Some "400000") (Polygon (Some []))) [] g0).
  - reflexivity.
  - constructor.
  - simpl. tauto.
  - exact Hrun.
  - vm_compute in Hrun. injection Hrun as <-. discriminate.
Defined.


Lemma build_line_data_witness :
  ∃ g, Demo.build (Demo.one_line [Demo.coord 77000000 28000000;
                                  Demo.coord 77000000 28100000;
                                  Demo.coord 77100000 28100000]) 5000 = Ret g
       ∧ line_data g !! (1, 2) = Some 1%nat
       ∧ from_bus (line_obj g 1%nat) = 1 ∧ to_bus (line_obj g 1%nat) = 2.
Proof.
  destruct (Demo.build (Demo.one_line [Demo.coord 77000000 28000000;
                                       Demo.coord 77000000 28100000;
                                       Demo.coord 77100000 28100000]) 5000)
    as [g|e] eqn:Hrun; [|vm_compute in Hrun; discriminate Hrun].
  exists g. split; [reflexivity|].
  destruct (build_line_data _ _ _ _ _ _ _ _ _ _ g Hrun) as [Hdata _].
  assert (line_data g !! (1, 2) = Some 1%nat) as Hlook.
  { vm_compute in Hrun. injection Hrun as <-. by vm_compute. }
  split; [exact Hlook|].
  destruct (Hdata _ _ _ Hlook) as (_ & Hf & Ht). split; [exact Hf|exact Ht].
Defined.

Lemma build_lines_sound_witness :
  ∃ g, Demo.build (Demo.one_line [Demo.coord 77000000 28000000;
                                  Demo.coord 77000000 28100000;
                                  Demo.coord 77000000 28000000]) 5000 = Ret g
       ∧ length (lines g) = 2%nat
       ∧ ∀ l, l ∈ lines g → in_service l = true ∧ from_bus l ≠ to_bus l.
Proof.
  destruct (Demo.build (Demo.one_line [Demo.coord 77000000 28000000;
                                       Demo.coord 77000000 28100000;
                                       Demo.coord 77000000 28000000]) 5000)
    as [g|e] eqn:Hrun; [|vm_compute in Hrun; discriminate Hrun].
  exists g. split; [reflexivity|].
  destruct (build_lines_sound _ _ _ _ _ _ _ _ _ _ g Hrun) as [Hl _].
  split.
  - vm_compute in Hrun. injection Hrun as <-. reflexivity.
  - intros l Hin. destruct (Hl l Hin) as (Hs & Hne & _).
    split; [exact Hs|exact Hne].
Defined.


Lemma build_without_buses_witness :
  Demo.build
    (with_substations (Demo.one_line [Demo.coord 77000000 28000000])
                      (Some [mkSubstation None (Polygon (Some []))]))
    5000 = Ret empty_grid.
Proof.
  apply (build_without_buses Demo.round_key).
  intros f Hf. unfold line_features in Hf. simpl in Hf.
  apply list_elem_of_singleton in Hf as ->. simpl. lia.
Defined.

Lemma build_empty_iff_witness :
  ∃ g, Demo.build (Demo.one_line [Demo.coord 77000000 28000000;
                                  Demo.coord 77000000 28100000]) 5000 = Ret g
       ∧ ext_grid_bus g ∈ Nx.nodes (G g).
Proof.
  destruct (Demo.build (Demo.one_line [Demo.coord 77000000 28000000;
                                       Demo.coord 77000000 28100000]) 5000)
    as [g|e] eqn:Hrun; [|vm_compute in Hrun; discriminate Hrun].
  exists g. split; [reflexivity|].
  destruct (build_empty_iff _ _ _ _ _ _ _ _ _ _ g Hrun) as (_ & _ & Hsrc).
  apply Hsrc. vm_compute in Hrun. injection Hrun as <-. discriminate.
Defined.


Lemma keep_largest_is_largest_witness :
  Nx.nodes (G (keep_largest
                 (Demo.grid_of [0; 1; 2; 3; 4] [(0, 1); (1, 2); (3, 4)] 0)))
  = [0; 1; 2]
  ∧ ∀ c, c ∈ Traversal.connected_components
               (G (Demo.grid_of [0; 1; 2; 3; 4] [(0, 1); (1, 2); (3, 4)] 0)) →
         (size c ≤ 3)%nat.
Proof.
  destruct (keep_largest_is_largest
              (Demo.grid_of [0; 1; 2; 3; 4] [(0, 1); (1, 2); (3, 4)] 0))
    as (_ & _ & Hmax & _).
  - apply (nx_graph_demo _ _ 0).
  - by vm_compute.
  - split; [by vm_compute|]. exact Hmax.
Defined.

Lemma built_grid_reports_no_fault_witness :
  ∃ g sensors blocks,
    Demo.build (Demo.one_line [Demo.coord 77000000 28000000;
                               Demo.coord 77000000 28100000;
                               Demo.coord 77100000 28100000]) 5000 = Ret g
    ∧ place_sensors_sqrt_n (energize_grid g) = Ret (sensors, blocks)
    ∧ identify_faulty_block
        (read_sensors sensors (get_energized_status (energize_grid g)))
        sensors blocks = -1.
Proof.
  destruct (Demo.build (Demo.one_line [Demo.coord 77000000 28000000;
                                       Demo.coord 77000000 28100000;
                                       Demo.coord 77100000 28100000]) 5000)
    as [g|e] eqn:Hrun; [|vm_compute in Hrun; discriminate Hrun].
  destruct (built_grid_reports_no_fault _ _ _ _ _ _ _ _ _ _ g Hrun)
    as (_ & sensors & blocks & Hplace & _ & Hid).
  { vm_compute in Hrun. injection Hrun as <-. discriminate. }
  exists g, sensors, blocks.
  split; [reflexivity|]. split; [exact Hplace|exact Hid].
Defined.

(** * The loader: filing the features *)

Lemma feature_key_in {A} (f : Feature A) : feature_key f ∈ result_keys.
Proof.
  unfold feature_key.
  destruct (power_map !! default "" (ft_power f)) as [key|] eqn:Hp.
  - apply elem_of_list_to_map_2 in Hp.
    repeat (apply elem_of_cons in Hp as [[= _ ->]|Hp]; [by_compute|]).
    by apply elem_of_nil in Hp.
  - destruct (type_map !! default "" (ft_type f)) as [key|] eqn:Ht; simpl.
    + apply elem_of_list_to_map_2 in Ht.
      repeat (apply elem_of_cons in Ht as [[= _ ->]|Ht]; [by_compute|]).
      by apply elem_of_nil in Ht.
    + by_compute.
Qed.

Lemma filed_by_key_empty {A} : filed_by_key ([] : list (Feature A)) empty_result.
Proof.
  intros key. case_bool_decide as Hkey.
  - unfold result_keys in Hkey.
    repeat (apply elem_of_cons in Hkey as [->|Hkey]; [by vm_compute|]).
    by apply elem_of_nil in Hkey.
  - unfold empty_result. by apply not_elem_of_list_to_map_1.
Qed.

Lemma file_feature_step {A} (seen : list (Feature A)) result f :
  filed_by_key seen result →
  ∃ result', file_feature result f = Ret result'
             ∧ filed_by_key (seen ++ [f]) result'.
Proof.
  intros Hinv. unfold file_feature.
  pose proof (Hinv (feature_key f)) as Hkey.
  rewrite bool_decide_eq_true_2 in Hkey by apply feature_key_in.
  unfold dict_get. rewrite Hkey. simpl. eexists. split; [reflexivity|].
  intros key. rewrite filter_app, filter_cons, filter_nil.
  destruct (decide (feature_key f = key)) as [<-|Hne].
  - rewrite lookup_insert_eq.
    by rewrite bool_decide_eq_true_2 by apply feature_key_in.
  - rewrite lookup_insert_ne by done. rewrite Hinv, app_nil_r. done.
Qed.

Lemma file_features {A} (fs : list (Feature A)) :
  ∀ seen result,
    filed_by_key seen result →
    ∃ result', for_each file_feature result fs = Ret result'
               ∧ filed_by_key (seen ++ fs) result'.
Proof.
  induction fs as [|f fs IH]; intros seen result Hinv; simpl.
  - exists result. by rewrite app_nil_r.
  - destruct (file_feature_step seen result f Hinv) as (result1 & -> & Hinv1).
    simpl. rewrite cons_middle, app_assoc. by apply IH.
Qed.

(** [load_overpass_geojson] never fails on a missing key: every feature
    is filed under one of the eight keys of the result, and the result
    holds under each key exactly the features filed under it, in the
    order of the file.  A file that does not exist and a file without
    ['features'] both give eight empty lists. *)
Theorem load_overpass_geojson_files {A}
    (file : option (option (list (Feature A)))) :
  ∃ result,
    load_overpass_geojson file = Ret result
    ∧ (∀ key, key ∈ result_keys →
              result !! key
              = Some (filter (λ f, feature_key f = key) (features_of file)))
    ∧ (∀ key, key ∉ result_keys → result !! key = None)
    ∧ (∀ f, f ∈ features_of file →
            ∃ filed, result !! feature_key f = Some filed ∧ f ∈ filed).
Proof.
  assert (∃ result, load_overpass_geojson file = Ret result
                    ∧ filed_by_key (features_of file) result)
    as (result & Hrun & Hinv).
  { destruct file as [features|]; simpl.
    - apply (file_features (default [] features) [] empty_result).
      apply filed_by_key_empty.
    - exists empty_result. split; [done|]. apply filed_by_key_empty. }
  exists result. split; [done|]. split; [|split].
  - intros key Hkey. by rewrite Hinv, bool_decide_eq_true_2.
  - intros key Hkey. by rewrite Hinv, bool_decide_eq_false_2.
  - intros f Hf. eexists. split.
    + rewrite Hinv, bool_decide_eq_true_2 by apply feature_key_in. reflexivity.
    + by apply list_elem_of_filter.
Qed.
